(** * PokerBot: 7-card hand evaluator and Monte-Carlo equity estimator

    A shallow embedding of [src/PokerBot.cpp]: the card encoding, the
    deck, the comparison on hand evaluations, [HandEvaluator], the trial
    machinery of [PokerGame] and the counters of [MCTSNode] / [PokerBot],
    followed by the properties of the specification that are settled on
    that embedding.

    Conventions.
    - C++ [int] is [Z].  Ranks, counts and card indices stay within
      0..52, so no [int] of the evaluator or the deck can overflow; the
      trial counters of one [runMCTS] call are taken below 2^31.  The
      [size_t] subtractions that do wrap ([cards.size() - 1] on an empty
      vector, [flushValues.size() - 5] below five elements) are written
      out as [Err Undefined].
    - [std::vector<T>] is [list T]; [push_back] appends, [back] is the
      last element.
    - [std::rand] is an oracle: the sequence of values it will return,
      together with the number of calls made so far.
    - [double] win probabilities are exact rationals ([Q]). *)

From Stdlib Require Import ZArith QArith Lia Ascii String.
From stdpp Require Import base decidable option list numbers sets sorting.

Local Open Scope Z_scope.

(** ** Enumerations *)

Inductive Suit := CLUBS | DIAMONDS | HEARTS | SPADES.

Inductive Value :=
  | TWO | THREE | FOUR | FIVE | SIX | SEVEN | EIGHT | NINE | TEN
  | JACK | QUEEN | KING | ACE.

Inductive HandRank :=
  | HIGH_CARD | PAIR | TWO_PAIR | THREE_OF_A_KIND | STRAIGHT | FLUSH
  | FULL_HOUSE | FOUR_OF_A_KIND | STRAIGHT_FLUSH | ROYAL_FLUSH.

#[global] Instance Suit_eq_dec : EqDecision Suit.
Proof. solve_decision. Defined.
#[global] Instance Value_eq_dec : EqDecision Value.
Proof. solve_decision. Defined.
#[global] Instance HandRank_eq_dec : EqDecision HandRank.
Proof. solve_decision. Defined.

(** [static_cast<int>] on the three enumerations. *)
Definition suitInt (s : Suit) : Z :=
  match s with CLUBS => 0 | DIAMONDS => 1 | HEARTS => 2 | SPADES => 3 end.

Definition valueInt (v : Value) : Z :=
  match v with
  | TWO => 2 | THREE => 3 | FOUR => 4 | FIVE => 5 | SIX => 6 | SEVEN => 7
  | EIGHT => 8 | NINE => 9 | TEN => 10 | JACK => 11 | QUEEN => 12
  | KING => 13 | ACE => 14
  end.

Definition rankInt (r : HandRank) : Z :=
  match r with
  | HIGH_CARD => 0 | PAIR => 1 | TWO_PAIR => 2 | THREE_OF_A_KIND => 3
  | STRAIGHT => 4 | FLUSH => 5 | FULL_HOUSE => 6 | FOUR_OF_A_KIND => 7
  | STRAIGHT_FLUSH => 8 | ROYAL_FLUSH => 9
  end.

(** [static_cast<Suit>] and [static_cast<Value>]: an integer that names no
    enumerator has no counterpart in the inductive type. *)
Definition suitOfInt (z : Z) : option Suit :=
  match z with
  | 0 => Some CLUBS | 1 => Some DIAMONDS | 2 => Some HEARTS | 3 => Some SPADES
  | _ => None
  end.

Definition valueOfInt (z : Z) : option Value :=
  match z with
  | 2 => Some TWO | 3 => Some THREE | 4 => Some FOUR | 5 => Some FIVE
  | 6 => Some SIX | 7 => Some SEVEN | 8 => Some EIGHT | 9 => Some NINE
  | 10 => Some TEN | 11 => Some JACK | 12 => Some QUEEN | 13 => Some KING
  | 14 => Some ACE
  | _ => None
  end.

Definition allSuits : list Suit := [CLUBS; DIAMONDS; HEARTS; SPADES].

Definition allValues : list Value :=
  [TWO; THREE; FOUR; FIVE; SIX; SEVEN; EIGHT; NINE; TEN; JACK; QUEEN; KING; ACE].

(** ** Card *)

Record Card := mkCard { suit : Suit; value : Value }.

#[global] Instance Card_eq_dec : EqDecision Card.
Proof. solve_decision. Defined.

(** [Card::toInt]. *)
Definition toInt (c : Card) : Z :=
  suitInt (suit c) * 13 + valueInt (value c) - 2.

(** [Card::fromInt]; C++ [/] and [%] truncate towards zero. *)
Definition fromInt (cardIndex : Z) : option Card :=
  let suitIndex := cardIndex ÷ 13 in
  let valueIndex := cardIndex `rem` 13 + 2 in
  match suitOfInt suitIndex, valueOfInt valueIndex with
  | Some s, Some v => Some (mkCard s v)
  | _, _ => None
  end.

(** The free function [cardsEqual]. *)
Definition cardsEqual (a b : Card) : bool := toInt a =? toInt b.

(** [Card::operator==]. *)
Definition card_eq (a b : Card) : bool :=
  bool_decide (suit a = suit b) && bool_decide (value a = value b).

(** The two [switch] statements of [Card::toString]; their [default]
    branches belong to no enumerator. *)
Definition valueStr (v : Value) : string :=
  match v with
  | TWO => "2" | THREE => "3" | FOUR => "4" | FIVE => "5" | SIX => "6"
  | SEVEN => "7" | EIGHT => "8" | NINE => "9" | TEN => "10" | JACK => "J"
  | QUEEN => "Q" | KING => "K" | ACE => "A"
  end.

Definition suitChar (s : Suit) : ascii :=
  match s with
  | CLUBS => "C" | DIAMONDS => "D" | HEARTS => "H" | SPADES => "S"
  end%char.

(** [Card::toString]: [valueStr + suitChar]. *)
Definition toString (c : Card) : string :=
  String.append (valueStr (value c)) (String (suitChar (suit c)) EmptyString).

(** ** Errors and results *)

(** [runtime_error what]: a thrown [std::runtime_error].
    [Undefined]: the program leaves defined behaviour (an index past the
    end of a vector, a remainder by zero). *)
Inductive Error :=
  | runtime_error (what : string)
  | Undefined.

Definition DeckExhausted : Error := runtime_error "No cards left in the deck".

Inductive result (A : Type) :=
  | Ok (a : A)
  | Err (e : Error).
Arguments Ok {A} a.
Arguments Err {A} e.

#[global] Instance result_ret : MRet result := @Ok.

#[global] Instance result_bind : MBind result := λ A B k r,
  match r with
  | Ok a => k a
  | Err e => Err e
  end.

Definition is_Ok {A} (r : result A) : Prop := ∃ a, r = Ok a.

(** ** parseCard *)

(** [cardStr.back()] on a non-empty string. *)
Fixpoint back (s : string) : option ascii :=
  match s with
  | EmptyString => None
  | String c rest =>
      match rest with
      | EmptyString => Some c
      | String _ _ => back rest
      end
  end.

(** The value part of [parseCard], read from [cardStr[0]]. *)
Definition parseValue (c0 : ascii) : result Value :=
  if Ascii.eqb c0 "A" then Ok ACE
  else if Ascii.eqb c0 "K" then Ok KING
  else if Ascii.eqb c0 "Q" then Ok QUEEN
  else if Ascii.eqb c0 "J" then Ok JACK
  else if Ascii.eqb c0 "T" || Ascii.eqb c0 "1" then Ok TEN
  else if (nat_of_ascii "2" <=? nat_of_ascii c0)%nat &&
          (nat_of_ascii c0 <=? nat_of_ascii "9")%nat then
    match valueOfInt (Z.of_nat (nat_of_ascii c0) - Z.of_nat (nat_of_ascii "0")) with
    | Some v => Ok v
    | None => Err Undefined
    end
  else Err (runtime_error "Invalid card value").

(** The suit part of [parseCard], read from [cardStr.back()]. *)
Definition parseSuit (suitChar : ascii) : result Suit :=
  if Ascii.eqb suitChar "C" || Ascii.eqb suitChar "c" then Ok CLUBS
  else if Ascii.eqb suitChar "D" || Ascii.eqb suitChar "d" then Ok DIAMONDS
  else if Ascii.eqb suitChar "H" || Ascii.eqb suitChar "h" then Ok HEARTS
  else if Ascii.eqb suitChar "S" || Ascii.eqb suitChar "s" then Ok SPADES
  else Err (runtime_error "Invalid card suit").

(** The free function [parseCard]. *)
Definition parseCard (cardStr : string) : result Card :=
  if (String.length cardStr <? 2)%nat then
    Err (runtime_error "Invalid card format")
  else
    match String.get 0 cardStr, back cardStr with
    | Some c0, Some suitChar =>
        value ← parseValue c0;
        suit ← parseSuit suitChar;
        Ok (mkCard suit value)
    | _, _ => Err Undefined
    end.

(** ** The random-number oracle *)

Record Rng := mkRng { rand_seq : nat → nat; rand_pos : nat }.

(** One call of [std::rand()]. *)
Definition rand (g : Rng) : nat * Rng :=
  (rand_seq g (rand_pos g), mkRng (rand_seq g) (S (rand_pos g))).

(** ** Deck *)

Module Deck.

(** [Deck::reset]: the nested loop over suits 0..3 and values 2..14. *)
Definition reset : list Card :=
  s ← allSuits; v ← allValues; [mkCard s v].

(** The three assignments exchanging [cards[i]] and [cards[j]]. *)
Definition swap (cards : list Card) (i j : nat) : list Card :=
  match cards !! i, cards !! j with
  | Some ci, Some cj => <[j := ci]> (<[i := cj]> cards)
  | _, _ => cards
  end.

(** The body of the Fisher-Yates loop, for [i] down to 1. *)
Fixpoint shuffle_from (i : nat) (cards : list Card) (g : Rng)
  : list Card * Rng :=
  match i with
  | O => (cards, g)
  | S i' =>
      let '(r, g') := rand g in
      let j := (r `mod` (i + 1))%nat in
      shuffle_from i' (swap cards i j) g'
  end.

(** [Deck::shuffle].  On an empty vector [cards.size() - 1] wraps around
    and the first iteration computes a remainder by [i + 1 = 0]. *)
Definition shuffle (cards : list Card) (g : Rng) : result (list Card * Rng) :=
  match cards with
  | [] => Err Undefined
  | _ => Ok (shuffle_from (length cards - 1) cards g)
  end.

(** [Deck::deal]: throws on an empty deck, otherwise [back] then
    [pop_back]. *)
Definition deal (cards : list Card) : result (Card * list Card) :=
  match last cards with
  | None => Err DeckExhausted
  | Some card => Ok (card, removelast cards)
  end.

(** [Deck::removeCard]: erase the first element equal to [card]. *)
Fixpoint removeCard (card : Card) (cards : list Card) : list Card :=
  match cards with
  | [] => []
  | c :: rest =>
      if cardsEqual c card then rest else c :: removeCard card rest
  end.

Definition cardsLeft (cards : list Card) : Z := Z.of_nat (length cards).

(** [Deck::createCard]: the card, and the deck without it. *)
Definition createCard (suit : Suit) (value : Value) (cards : list Card)
  : Card * list Card :=
  let card := mkCard suit value in (card, removeCard card cards).

End Deck.

(** ** HandEvaluation *)

Record HandEvaluation := mkEval { rank : HandRank; tiebreakers : list Z }.

(** The loop of [operator>]: over the common prefix, the first unequal
    position decides. *)
Fixpoint tiebreakers_gt (xs ys : list Z) : bool :=
  match xs, ys with
  | x :: xs', y :: ys' =>
      if negb (x =? y) then x >? y else tiebreakers_gt xs' ys'
  | _, _ => false
  end.

(** [HandEvaluation::operator>]. *)
Definition eval_gt (a b : HandEvaluation) : bool :=
  if negb (bool_decide (rank a = rank b))
  then rankInt (rank a) >? rankInt (rank b)
  else tiebreakers_gt (tiebreakers a) (tiebreakers b).

(** The loop of [operator==], entered with sequences of equal size. *)
Fixpoint tiebreakers_eq (xs ys : list Z) : bool :=
  match xs, ys with
  | x :: xs', y :: ys' =>
      if negb (x =? y) then false else tiebreakers_eq xs' ys'
  | _, _ => true
  end.

(** [HandEvaluation::operator==]. *)
Definition eval_eq (a b : HandEvaluation) : bool :=
  if negb (bool_decide (rank a = rank b)) then false
  else if negb (length (tiebreakers a) =? length (tiebreakers b))%nat then false
  else tiebreakers_eq (tiebreakers a) (tiebreakers b).

(** ** HandEvaluator *)

Module HandEvaluator.

(** [v[i]] on a vector of ints, for a position and for an [int] index.
    Every read in [evaluateComplete] that is not in range by its guard
    is checked explicitly where it occurs. *)
Definition idx (v : list Z) (i : nat) : Z := default 0 (v !! i).
Definition at_ (v : list Z) (i : Z) : Z := idx v (Z.to_nat i).

(** [v[i]++]. *)
Definition incr (v : list Z) (i : Z) : list Z := alter Z.succ (Z.to_nat i) v.

Definition valueCounts (cards : list Card) : list Z :=
  foldl (λ vc card, incr vc (valueInt (value card))) (replicate 15 0) cards.

Definition suitCounts (cards : list Card) : list Z :=
  foldl (λ sc card, incr sc (suitInt (suit card))) (replicate 4 0) cards.

(** The flush loop over suits 0..3, with its [break]. *)
Fixpoint findFlush (suitCounts : list Z) (suits : list Suit) : bool * Suit :=
  match suits with
  | [] => (false, CLUBS)
  | s :: rest =>
      if at_ suitCounts (suitInt s) >=? 5 then (true, s)
      else findFlush suitCounts rest
  end.

(** Five consecutive ranks starting at [i] are all present. *)
Definition run5 (valueCounts : list Z) (i : Z) : bool :=
  (at_ valueCounts i >? 0) && (at_ valueCounts (i + 1) >? 0) &&
  (at_ valueCounts (i + 2) >? 0) && (at_ valueCounts (i + 3) >? 0) &&
  (at_ valueCounts (i + 4) >? 0).

(** The condition of the Ace-low special case. *)
Definition wheel (valueCounts : list Z) : bool :=
  (at_ valueCounts 14 >? 0) && (at_ valueCounts 2 >? 0) &&
  (at_ valueCounts 3 >? 0) && (at_ valueCounts 4 >? 0) &&
  (at_ valueCounts 5 >? 0).

(** The loop [for (i = 10; i >= 2; i--)] with its [break]; [found] is
    the pair (hasStraight, straightHighCard) on entry. *)
Fixpoint scanStraight (valueCounts : list Z) (starts : list Z)
    (found : bool * Z) : bool * Z :=
  match starts with
  | [] => found
  | i :: rest =>
      if run5 valueCounts i then (true, i + 4)
      else scanStraight valueCounts rest found
  end.

Definition straightStarts : list Z := [10; 9; 8; 7; 6; 5; 4; 3; 2].

(** (hasStraight, straightHighCard). *)
Definition findStraight (valueCounts : list Z) : bool * Z :=
  scanStraight valueCounts straightStarts
    (if wheel valueCounts then (true, 5) else (false, 0)).

(** [std::sort(..., std::greater<int>())]. *)
Definition sortDesc (l : list Z) : list Z := merge_sort Z.ge l.

(** The order [compareCardsByValueDesc] sorts by: no card comes before one
    of greater value. *)
Definition valueGe (a b : Card) : Prop :=
  valueInt (value a) >= valueInt (value b).

#[global] Instance valueGe_dec : RelDecision valueGe.
Proof. intros a b. unfold valueGe. apply _. Defined.

(** [std::sort(..., compareCardsByValueDesc)].  The order the library
    leaves among cards of equal value is not observed: only [value] is
    read from the sorted vector. *)
Definition sortCardsByValueDesc (l : list Card) : list Card :=
  merge_sort valueGe l.

(** [flushCards]: empty unless [hasFlush]. *)
Definition flushCardsOf (hasFlush : bool) (flushSuit : Suit)
    (cards : list Card) : list Card :=
  if hasFlush
  then sortCardsByValueDesc (filter (λ c, suit c = flushSuit) cards)
  else [].

(** The royal check: each of 10..14 is found among the flush cards. *)
Definition isRoyal (flushCards : list Card) : bool :=
  forallb (λ v, existsb (λ c, valueInt (value c) =? v) flushCards)
          [10; 11; 12; 13; 14].

(** [std::unique]: of each run of equal neighbours one element stays. *)
Fixpoint unique (l : list Z) : list Z :=
  match l with
  | [] => []
  | x :: rest =>
      match rest with
      | [] => [x]
      | y :: _ => if x =? y then unique rest else x :: unique rest
      end
  end.

(** [std::find(...) != end()]. *)
Definition contains (l : list Z) (x : Z) : bool := bool_decide (x ∈ l).

(** The loop over [i = 0 .. size - 5] on [flushValues], with its
    [break]. *)
Fixpoint scanFlushValues (flushValues : list Z) (starts : list nat)
    (found : bool * Z) : bool * Z :=
  match starts with
  | [] => found
  | i :: rest =>
      if idx flushValues i =? idx flushValues (i + 4) + 4
      then (true, idx flushValues i)
      else scanFlushValues flushValues rest found
  end.

(** (hasStraightFlush, straightFlushHighCard).  With fewer than five
    distinct flush values the bound [size - 5] wraps around and the
    loop reads [flushValues[4]] past the end. *)
Definition findStraightFlush (hasFlush : bool) (flushCards : list Card)
    (hasStraight : bool) (straightHighCard : Z) : result (bool * Z) :=
  if hasFlush && (5 <=? length flushCards)%nat then
    if hasStraight && (straightHighCard =? 14) && isRoyal flushCards
    then Ok (true, 14)
    else
      let flushValues :=
        unique (sortDesc ((λ c, valueInt (value c)) <$> flushCards)) in
      let found :=
        if contains flushValues 14 && contains flushValues 2 &&
           contains flushValues 3 && contains flushValues 4 &&
           contains flushValues 5
        then (true, 5) else (false, 0) in
      if (length flushValues <? 5)%nat then Err Undefined
      else Ok (scanFlushValues flushValues
                 (seq 0 (length flushValues - 5 + 1)) found)
  else Ok (false, 0).

Definition ranksAsc : list Z := [2; 3; 4; 5; 6; 7; 8; 9; 10; 11; 12; 13; 14].
Definition ranksDesc : list Z := [14; 13; 12; 11; 10; 9; 8; 7; 6; 5; 4; 3; 2].

(** The ranks occurring exactly [n] times, in the order of [ranks]. *)
Definition ranksWithCount (valueCounts : list Z) (n : Z) (ranks : list Z)
  : list Z :=
  filter (λ i, at_ valueCounts i = n) ranks.

Definition quadsOf (vc : list Z) : list Z := sortDesc (ranksWithCount vc 4 ranksAsc).
Definition tripsOf (vc : list Z) : list Z := sortDesc (ranksWithCount vc 3 ranksAsc).
Definition pairsOf (vc : list Z) : list Z := sortDesc (ranksWithCount vc 2 ranksAsc).
Definition highCardsOf (vc : list Z) : list Z := ranksWithCount vc 1 ranksDesc.

Definition nonEmpty {A} (l : list A) : bool :=
  match l with [] => false | _ => true end.

(** The category cascade and the tiebreakers pushed in each branch. *)
Definition resolve (valueCounts : list Z)
    (hasFlush : bool) (flushCards : list Card)
    (hasStraight : bool) (straightHighCard : Z)
    (hasStraightFlush : bool) (straightFlushHighCard : Z)
  : HandEvaluation :=
  let quads := quadsOf valueCounts in
  let trips := tripsOf valueCounts in
  let pairs := pairsOf valueCounts in
  let highCards := highCardsOf valueCounts in
  if hasStraightFlush && (straightFlushHighCard =? 14) then
    mkEval ROYAL_FLUSH [14]
  else if hasStraightFlush then
    mkEval STRAIGHT_FLUSH [straightFlushHighCard]
  else if nonEmpty quads then
    mkEval FOUR_OF_A_KIND
      (idx quads 0 ::
       take 1 (filter (λ i, at_ valueCounts i > 0 ∧ i ≠ idx quads 0) ranksDesc))
  else if nonEmpty trips && (nonEmpty pairs || (1 <? length trips)%nat) then
    mkEval FULL_HOUSE
      [idx trips 0; if nonEmpty pairs then idx pairs 0 else idx trips 1]
  else if hasFlush then
    mkEval FLUSH ((λ c, valueInt (value c)) <$> take 5 flushCards)
  else if hasStraight then
    mkEval STRAIGHT [straightHighCard]
  else if nonEmpty trips then
    mkEval THREE_OF_A_KIND (idx trips 0 :: take 2 highCards)
  else if (2 <=? length pairs)%nat then
    mkEval TWO_PAIR (idx pairs 0 :: idx pairs 1 :: take 1 highCards)
  else if (length pairs =? 1)%nat then
    mkEval PAIR (idx pairs 0 :: take 3 highCards)
  else
    mkEval HIGH_CARD (take 5 (filter (λ i, at_ valueCounts i > 0) ranksDesc)).

(** [HandEvaluator::evaluateComplete]. *)
Definition evaluateComplete (cards : list Card) : result HandEvaluation :=
  let vc := valueCounts cards in
  let sc := suitCounts cards in
  let '(hasFlush, flushSuit) := findFlush sc allSuits in
  let '(hasStraight, straightHighCard) := findStraight vc in
  let flushCards := flushCardsOf hasFlush flushSuit cards in
  '(hasStraightFlush, straightFlushHighCard) ←
    findStraightFlush hasFlush flushCards hasStraight straightHighCard;
  Ok (resolve vc hasFlush flushCards hasStraight straightHighCard
              hasStraightFlush straightFlushHighCard).

(** [while (fullHand.size() < 7) fullHand.push_back(tempDeck.deal())],
    unrolled [missing] times. *)
Fixpoint fillHand (missing : nat) (fullHand deck : list Card)
  : result (list Card) :=
  match missing with
  | O => Ok fullHand
  | S n =>
      '(card, deck') ← Deck.deal deck;
      fillHand n (fullHand ++ [card]) deck'
  end.

(** [HandEvaluator::evaluate]. *)
Definition evaluate (cards : list Card) (g : Rng)
  : result (HandEvaluation * Rng) :=
  if negb (length cards =? 7)%nat then
    let tempDeck := foldl (λ d c, Deck.removeCard c d) Deck.reset cards in
    '(tempDeck, g') ← Deck.shuffle tempDeck g;
    fullHand ← fillHand (7 - length cards) cards tempDeck;
    ev ← evaluateComplete fullHand;
    Ok (ev, g')
  else
    ev ← evaluateComplete cards;
    Ok (ev, g).

End HandEvaluator.

(** ** PokerGame *)

Record PokerGame := mkGame {
  deck : list Card;
  botHoleCards : list Card;
  opponentHoleCards : list Card;
  communityCards : list Card
}.

Module PokerGame.

(** [PokerGame::initialize(knownBotCards, knownCommunityCards)].  All
    four members are overwritten, so the previous game is no input. *)
Definition initialize (knownBotCards knownCommunityCards : list Card)
    (g : Rng) : result (PokerGame * Rng) :=
  let deck0 := Deck.reset in
  let botHoleCards := knownBotCards in
  let communityCards := knownCommunityCards in
  let deck1 := foldl (λ d c, Deck.removeCard c d) deck0 botHoleCards in
  let deck2 := foldl (λ d c, Deck.removeCard c d) deck1 communityCards in
  '(deck3, g') ← Deck.shuffle deck2 g;
  '(o1, deck4) ← Deck.deal deck3;
  '(o2, deck5) ← Deck.deal deck4;
  Ok (mkGame deck5 botHoleCards [o1; o2] communityCards, g').

(** [PokerGame::initialize()], the overload without arguments: a full
    shuffled deck, two cards to the bot, then two to the opponent. *)
Definition initialize0 (g : Rng) : result (PokerGame * Rng) :=
  '(deck1, g') ← Deck.shuffle Deck.reset g;
  '(b1, deck2) ← Deck.deal deck1;
  '(b2, deck3) ← Deck.deal deck2;
  '(o1, deck4) ← Deck.deal deck3;
  '(o2, deck5) ← Deck.deal deck4;
  Ok (mkGame deck5 [b1; b2] [o1; o2] [], g').

(** [communityCards.push_back(deck.deal())]. *)
Definition dealCommunity (game : PokerGame) : result PokerGame :=
  '(card, deck') ← Deck.deal (deck game);
  Ok (mkGame deck' (botHoleCards game) (opponentHoleCards game)
             (communityCards game ++ [card])).

(** [n] rounds of the [while] loop of [dealFlop]. *)
Fixpoint dealCommunityTimes (n : nat) (game : PokerGame) : result PokerGame :=
  match n with
  | O => Ok game
  | S n' => game' ← dealCommunity game; dealCommunityTimes n' game'
  end.

Definition dealFlop (game : PokerGame) : result PokerGame :=
  if (3 <=? length (communityCards game))%nat then Ok game
  else dealCommunityTimes (3 - length (communityCards game)) game.

Definition dealTurn (game : PokerGame) : result PokerGame :=
  if (4 <=? length (communityCards game))%nat then Ok game
  else
    game' ← (if (length (communityCards game) <? 3)%nat
             then dealFlop game else Ok game);
    dealCommunity game'.

Definition dealRiver (game : PokerGame) : result PokerGame :=
  if (5 <=? length (communityCards game))%nat then Ok game
  else
    game' ← (if (length (communityCards game) <? 4)%nat
             then dealTurn game else Ok game);
    dealCommunity game'.

Definition completeBoard (game : PokerGame) : result PokerGame :=
  dealRiver game.

Definition botHand (game : PokerGame) : list Card :=
  botHoleCards game ++ communityCards game.

Definition opponentHand (game : PokerGame) : list Card :=
  opponentHoleCards game ++ communityCards game.

(** [PokerGame::isWinner]. *)
Definition isWinner (game : PokerGame) (g : Rng)
  : result (bool * PokerGame * Rng) :=
  game' ← completeBoard game;
  '(botEval, g1) ← HandEvaluator.evaluate (botHand game') g;
  '(opponentEval, g2) ← HandEvaluator.evaluate (opponentHand game') g1;
  Ok (eval_gt botEval opponentEval, game', g2).

End PokerGame.

(** ** MCTSNode *)

(** The counters of a node; the exploration constant and the UCB1 score
    are read by nothing in the decision loop and are left out.  The
    counters are [int]s in the source and are held here by their values:
    [x++] is [x + 1] as long as the counter stays below 2^31, and every
    statement below that counts visits or wins carries that bound. *)
Record MCTSNode := mkNode { wins : Z; visits : Z }.

Module MCTSNode.

Definition init : MCTSNode := mkNode 0 0.

Definition update (isWin : bool) (node : MCTSNode) : MCTSNode :=
  mkNode (if isWin then wins node + 1 else wins node) (visits node + 1).

Definition getWinProbability (node : MCTSNode) : Q :=
  if visits node =? 0 then 0%Q
  else (inject_Z (wins node) / inject_Z (visits node))%Q.

Definition getVisits (node : MCTSNode) : Z := visits node.
Definition getWins (node : MCTSNode) : Z := wins node.

End MCTSNode.

(** ** PokerBot *)

Definition WIN_PROBABILITY_THRESHOLD : Q := 1 # 2.

Record PokerBot := mkBot {
  game : PokerGame;
  myCards : list Card;
  community : list Card;
  totalRuns : Z;
  winningRuns : Z;
  rootNode : MCTSNode
}.

(** What [printStats] prints after "Decision: ". *)
Inductive Verdict := STAY | FOLD.

Module PokerBot.

Definition setKnownCards (holeCards communityCards : list Card)
    (bot : PokerBot) : PokerBot :=
  mkBot (game bot) holeCards communityCards
        (totalRuns bot) (winningRuns bot) (rootNode bot).

(** [PokerBot::runSingleSimulation]. *)
Definition runSingleSimulation (bot : PokerBot) (g : Rng)
  : result (bool * PokerBot * Rng) :=
  '(game1, g1) ← PokerGame.initialize (myCards bot) (community bot) g;
  game2 ← PokerGame.completeBoard game1;
  '(won, game3, g2) ← PokerGame.isWinner game2 g1;
  Ok (won,
      mkBot game3 (myCards bot) (community bot)
            (totalRuns bot) (winningRuns bot) (rootNode bot),
      g2).

(** The three statements of [runMCTS] that follow a trial.  As for the
    node, the [int] counters are held by their values, which is what
    [++] computes below 2^31. *)
Definition recordTrial (won : bool) (bot : PokerBot) : PokerBot :=
  mkBot (game bot) (myCards bot) (community bot)
        (totalRuns bot + 1)
        (if won then winningRuns bot + 1 else winningRuns bot)
        (MCTSNode.update won (rootNode bot)).

(** The [while (true)] loop of [runMCTS].  [elapsed] lists the values
    [elapsedMs] takes at successive loop heads; the loop leaves at the
    first one that reaches the budget.  [None] when the listed readings
    end before that. *)
Fixpoint runMCTS_loop (msTimeLimit : Z) (elapsed : list Z)
    (bot : PokerBot) (g : Rng) : option (result (PokerBot * Rng)) :=
  match elapsed with
  | [] => None
  | elapsedMs :: later =>
      if elapsedMs >=? msTimeLimit then Some (Ok (bot, g))
      else
        match runSingleSimulation bot g with
        | Ok (won, bot1, g1) =>
            runMCTS_loop msTimeLimit later (recordTrial won bot1) g1
        | Err e => Some (Err e)
        end
  end.

Definition getWinProbability (bot : PokerBot) : Q :=
  MCTSNode.getWinProbability (rootNode bot).

(** [PokerBot::runMCTS]: the counters are reset, the loop runs, and the
    win probability of the final state is returned with it. *)
Definition runMCTS (msTimeLimit : Z) (elapsed : list Z)
    (bot : PokerBot) (g : Rng) : option (result (Q * PokerBot * Rng)) :=
  match runMCTS_loop msTimeLimit elapsed
          (mkBot (game bot) (myCards bot) (community bot) 0 0 MCTSNode.init) g
  with
  | None => None
  | Some (Err e) => Some (Err e)
  | Some (Ok (bot', g')) => Some (Ok (getWinProbability bot', bot', g'))
  end.

Definition shouldStay (bot : PokerBot) : bool :=
  Qle_bool WIN_PROBABILITY_THRESHOLD (getWinProbability bot).

Definition decision (bot : PokerBot) : Verdict :=
  if shouldStay bot then STAY else FOLD.

End PokerBot.

(** * Notions of the specification *)

(** The number of cards of rank [r]. *)
Definition countRank (cards : list Card) (r : Z) : nat :=
  length (filter (λ c, valueInt (value c) = r) cards).

(** The number of cards of suit [s]. *)
Definition countSuit (cards : list Card) (s : Suit) : nat :=
  length (filter (λ c, suit c = s) cards).

(** Some card has rank [r]. *)
Definition hasRank (cards : list Card) (r : Z) : bool :=
  existsb (λ c, valueInt (value c) =? r) cards.

(** The Ace as the card below the Two. *)
Definition aceLow (r : Z) : Z := if r =? 1 then 14 else r.

(** The five consecutive ranks [h-4 .. h] are all present; for [h = 5]
    this is the wheel A-2-3-4-5. *)
Definition straightAt (cards : list Card) (h : Z) : bool :=
  forallb (λ k, hasRank cards (aceLow (h - k))) [0; 1; 2; 3; 4].

(** [h] is the high card of the best straight the cards contain. *)
Definition bestStraight (cards : list Card) (h : Z) : Prop :=
  5 ≤ h ≤ 14 ∧ straightAt cards h = true ∧
  ∀ h', h < h' ≤ 14 → straightAt cards h' = false.

(** Five consecutive ranks of one suit. *)
Definition straightFlushAt (cards : list Card) (s : Suit) (h : Z) : bool :=
  straightAt (filter (λ c, suit c = s) cards) h.

Definition hasStraightFlush (cards : list Card) : Prop :=
  ∃ s h, 5 ≤ h ≤ 14 ∧ straightFlushAt cards s h = true.

(** Decidable forms of "has a straight flush" and "has quads". *)
Definition straightHighs : list Z := [5; 6; 7; 8; 9; 10; 11; 12; 13; 14].

Definition hasStraightFlushb (cards : list Card) : bool :=
  existsb (λ s, existsb (λ h, straightFlushAt cards s h) straightHighs) allSuits.

Definition hasQuadsb (cards : list Card) : bool :=
  existsb (λ r, countRank cards r =? 4)%nat HandEvaluator.ranksAsc.

(** [r] is the highest rank satisfying [P]. *)
Definition highestRank (P : Z → Prop) (r : Z) : Prop :=
  P r ∧ ∀ r', P r' → r' ≤ r.

(** The kicker of two pairs [p0], [p1]: the highest rank among the cards
    that belong to neither pair, whatever its multiplicity. *)
Definition twoPairKicker (cards : list Card) (p0 p1 k : Z) : Prop :=
  highestRank (λ r, (0 < countRank cards r)%nat ∧ r ≠ p0 ∧ r ≠ p1) k.

(** The length of the tiebreaker sequence announced for each category. *)
Definition tiebreakerLength (r : HandRank) : nat :=
  match r with
  | ROYAL_FLUSH | STRAIGHT_FLUSH | STRAIGHT => 1
  | FOUR_OF_A_KIND | FULL_HOUSE => 2
  | THREE_OF_A_KIND | TWO_PAIR => 3
  | PAIR => 4
  | FLUSH | HIGH_CARD => 5
  end.

(** Exactly one of [a > b], [b > a], [a == b]. *)
Definition exactlyOne (a b : HandEvaluation) : Prop :=
  (eval_gt a b = true ∧ eval_gt b a = false ∧ eval_eq a b = false) ∨
  (eval_gt a b = false ∧ eval_gt b a = true ∧ eval_eq a b = false) ∨
  (eval_gt a b = false ∧ eval_gt b a = false ∧ eval_eq a b = true).

(** The first position at which two sequences differ holds [x] and [y]. *)
Definition firstDifference (xs ys : list Z) (x y : Z) : Prop :=
  ∃ i : nat, take i xs = take i ys ∧ xs !! i = Some x ∧ ys !! i = Some y ∧ x ≠ y.

(** A verdict that is neither of the two the bot can print. *)
Definition undecided (d : Verdict) : Prop := d ≠ STAY ∧ d ≠ FOLD.

(** The known cards of a trial: two hole cards, and no board, a flop, a
    turn or a river. *)
Definition knownHand (holeCards communityCards : list Card) : Prop :=
  length holeCards = 2%nat ∧
  length communityCards ∈ [0; 3; 4; 5]%nat ∧
  NoDup (holeCards ++ communityCards).

(** [game'] arises from [game] by dealing community cards: the hole cards
    stay, and the cards [new] appended to the board are the ones popped,
    in this order, from the end of the deck. *)
Definition dealsFrom (game game' : PokerGame) : Prop :=
  botHoleCards game' = botHoleCards game ∧
  opponentHoleCards game' = opponentHoleCards game ∧
  ∃ new, communityCards game' = communityCards game ++ new ∧
         deck game = deck game' ++ reverse new.

(** What a dealing step that brings the board to [n] cards returns: the
    game as it is when the board has [n] cards already; otherwise a game
    dealt from it with a board of exactly [n] cards when the deck holds
    enough cards, and the exception of [Deck::deal] when it does not. *)
Definition dealsUpTo (n : nat) (game : PokerGame) (r : result PokerGame) : Prop :=
  ((n ≤ length (communityCards game))%nat → r = Ok game) ∧
  ((length (communityCards game) < n)%nat →
   (n - length (communityCards game) ≤ length (deck game))%nat →
   ∃ game', r = Ok game' ∧ dealsFrom game game' ∧
            length (communityCards game') = n) ∧
  ((length (communityCards game) < n)%nat →
   (length (deck game) < n - length (communityCards game))%nat →
   r = Err DeckExhausted).

(** The cards a game holds, in the deck and on the table. *)
Definition allCards (game : PokerGame) : list Card :=
  deck game ++ botHoleCards game ++ opponentHoleCards game ++ communityCards game.

(** The cards a trial uses. *)
Definition cardsInPlay (game : PokerGame) : list Card :=
  botHoleCards game ++ opponentHoleCards game ++ communityCards game.

(** The trials of a run of [n] rounds of the loop of [runMCTS], started
    on [bot] with the random state [g]: for each trial, whether it was
    reported won and the game it played, then the bot and the random
    state after the last round. *)
Fixpoint trialsOfRun (n : nat) (bot : PokerBot) (g : Rng)
  : result (list (bool * PokerGame) * PokerBot * Rng) :=
  match n with
  | O => Ok ([], bot, g)
  | S n' =>
      '(won, bot1, g1) ← PokerBot.runSingleSimulation bot g;
      '(later, bot', g') ← trialsOfRun n' (PokerBot.recordTrial won bot1) g1;
      Ok ((won, game bot1) :: later, bot', g')
  end.

(** A trial reported won exactly when the subject's seven cards evaluate
    strictly higher than the opponent's. *)
Definition wonByEvaluation (trial : bool * PokerGame) : Prop :=
  ∃ botEval opponentEval,
    HandEvaluator.evaluateComplete (PokerGame.botHand trial.2) = Ok botEval ∧
    HandEvaluator.evaluateComplete (PokerGame.opponentHand trial.2)
      = Ok opponentEval ∧
    (trial.1 = true ↔ eval_gt botEval opponentEval = true) ∧
    (eval_eq botEval opponentEval = true → trial.1 = false) ∧
    (eval_gt opponentEval botEval = true → trial.1 = false).

(** The number of trials reported won. *)
Definition winsAmong (trials : list (bool * PokerGame)) : Z :=
  Z.of_nat (length (filter (λ trial, trial.1 = true) trials)).

(** The number of ranks held exactly [n] times. *)
Definition ranksHeld (cards : list Card) (n : nat) : nat :=
  length (filter (λ r, countRank cards r = n) HandEvaluator.ranksAsc).

(** The category of a hand by the rules of poker, read off the cards:
    the first of the ten categories, from the best down, whose pattern
    the cards contain. *)
Definition category (cards : list Card) : HandRank :=
  if existsb (λ s, straightFlushAt cards s 14) allSuits then ROYAL_FLUSH
  else if hasStraightFlushb cards then STRAIGHT_FLUSH
  else if (0 <? ranksHeld cards 4)%nat then FOUR_OF_A_KIND
  else if (0 <? ranksHeld cards 3)%nat &&
          ((0 <? ranksHeld cards 2)%nat || (1 <? ranksHeld cards 3)%nat)
  then FULL_HOUSE
  else if existsb (λ s, (5 <=? countSuit cards s)%nat) allSuits then FLUSH
  else if existsb (straightAt cards) straightHighs then STRAIGHT
  else if (0 <? ranksHeld cards 3)%nat then THREE_OF_A_KIND
  else if (2 <=? ranksHeld cards 2)%nat then TWO_PAIR
  else if (ranksHeld cards 2 =? 1)%nat then PAIR
  else HIGH_CARD.

(** The ranks of the cards, and of the cards of a rank other than [r],
    from the highest down, a rank listed once for each card. *)
Definition ranksOf (cards : list Card) : list Z :=
  HandEvaluator.sortDesc ((λ c, valueInt (value c)) <$> cards).

Definition otherRanks (cards : list Card) (r : Z) : list Z :=
  ranksOf (filter (λ c, valueInt (value c) ≠ r) cards).

(** ** Sample inputs *)

Definition rng0 : Rng := mkRng (λ n, n) 0.

Definition idleBot : PokerBot :=
  mkBot (mkGame [] [] [] [])
        [mkCard SPADES ACE; mkCard HEARTS ACE] [] 0 0 MCTSNode.init.

(** A-A K-K Q-Q 2: three pairs and one single card. *)
Definition threePairs : list Card :=
  [mkCard CLUBS ACE; mkCard DIAMONDS ACE; mkCard CLUBS KING;
   mkCard DIAMONDS KING; mkCard CLUBS QUEEN; mkCard DIAMONDS QUEEN;
   mkCard CLUBS TWO].

(** A-2-3-4-5 of mixed suits and a pair of Kings. *)
Definition wheelHand : list Card :=
  [mkCard SPADES ACE; mkCard HEARTS TWO; mkCard SPADES THREE;
   mkCard CLUBS FOUR; mkCard SPADES FIVE; mkCard CLUBS KING;
   mkCard DIAMONDS KING].

(** K-K-K Q-Q-Q 2: two trips and no pair. *)
Definition twoTrips : list Card :=
  [mkCard CLUBS KING; mkCard DIAMONDS KING; mkCard HEARTS KING;
   mkCard CLUBS QUEEN; mkCard DIAMONDS QUEEN; mkCard HEARTS QUEEN;
   mkCard CLUBS TWO].

(** * Properties *)

(** ** Card encoding *)

Lemma toInt_range c : 0 ≤ toInt c ≤ 51.
Proof. destruct c as [[] []]; vm_compute; split; discriminate. Qed.

Lemma fromInt_toInt c : fromInt (toInt c) = Some c.
Proof. by destruct c as [[] []]. Qed.

Lemma toInt_fromInt n :
  0 ≤ n ≤ 51 → ∃ c, fromInt n = Some c ∧ toInt c = n.
Proof.
  intros Hn.
  assert (Hcases : n ∈ (Z.of_nat <$> seq 0 52)).
  { apply list_elem_of_fmap. exists (Z.to_nat n). split; [lia|].
    apply elem_of_seq. lia. }
  vm_compute in Hcases.
  repeat (apply elem_of_cons in Hcases as [-> | Hcases];
          [eexists; split; reflexivity|]).
  by apply elem_of_nil in Hcases.
Qed.

Lemma toInt_inj a b : toInt a = toInt b → a = b.
Proof.
  intros H. apply (inj Some). by rewrite <- !fromInt_toInt, H.
Qed.

Lemma cardsEqual_spec a b : cardsEqual a b = true ↔ a = b.
Proof.
  unfold cardsEqual. rewrite Z.eqb_eq. split; [apply toInt_inj | by intros ->].
Qed.

(** C9.  The encoding is a bijection between the cards and 0..51:
    [toInt] lands in 0..51 and [fromInt] undoes it, and on every integer
    of 0..51 [fromInt] yields a card that [toInt] maps back to it. *)
Theorem card_encoding_bijection :
  (∀ c, 0 ≤ toInt c ≤ 51 ∧ fromInt (toInt c) = Some c) ∧
  (∀ n, 0 ≤ n ≤ 51 → ∃ c, fromInt n = Some c ∧ toInt c = n).
Proof.
  split.
  - intros c. split; [apply toInt_range | apply fromInt_toInt].
  - apply toInt_fromInt.
Qed.

Lemma card_encoding_bijection_witness :
  0 ≤ 37 ≤ 51 ∧ ∃ c, fromInt 37 = Some c ∧ toInt c = 37.
Proof.
  split; [lia | apply (proj2 card_encoding_bijection 37); lia].
Defined.

(** ** Deck::deal *)

Lemma deal_snoc front card : Deck.deal (front ++ [card]) = Ok (card, front).
Proof. unfold Deck.deal. by rewrite last_snoc, removelast_last. Qed.

Lemma deal_nil : Deck.deal [] = Err DeckExhausted.
Proof. reflexivity. Qed.

Lemma deal_Err cards e : Deck.deal cards = Err e → cards = [] ∧ e = DeckExhausted.
Proof.
  destruct cards as [|c cards _] using rev_ind; [by inversion 1|].
  by rewrite deal_snoc.
Qed.

Lemma deal_spec_nonempty cards :
  cards ≠ [] →
  ∃ card rest, Deck.deal cards = Ok (card, rest) ∧ cards = rest ++ [card].
Proof.
  intros Hne. destruct cards as [|c cards _] using rev_ind; [done|].
  exists c, cards. by rewrite deal_snoc.
Qed.

(** C8.  [deal] fails exactly on the empty deck, and then with
    DeckExhausted; on a non-empty deck it returns the card at the end of
    the sequence and leaves the cards before it, so a one-card deck yields
    its card and becomes empty. *)
Theorem deal_spec (cards : list Card) :
  (Deck.deal cards = Err DeckExhausted ↔ cards = []) ∧
  (∀ e, Deck.deal cards = Err e → e = DeckExhausted) ∧
  (cards ≠ [] →
   ∃ card rest, Deck.deal cards = Ok (card, rest) ∧ cards = rest ++ [card]) ∧
  (∀ front card, cards = front ++ [card] → Deck.deal cards = Ok (card, front)) ∧
  (∀ card, cards = [card] → Deck.deal cards = Ok (card, [])).
Proof.
  split_and!.
  - split; [by intros [? _]%deal_Err | by intros ->].
  - by intros e [_ ->]%deal_Err.
  - apply deal_spec_nonempty.
  - intros front card ->. apply deal_snoc.
  - intros card ->. apply (deal_snoc []).
Qed.

Lemma deal_spec_witness :
  Deck.deal [mkCard HEARTS TEN; mkCard SPADES ACE]
  = Ok (mkCard SPADES ACE, [mkCard HEARTS TEN]) ∧
  Deck.deal [mkCard SPADES ACE] = Ok (mkCard SPADES ACE, []).
Proof.
  split.
  - apply (proj1 (proj2 (proj2 (proj2 (deal_spec _)))) [mkCard HEARTS TEN]).
    reflexivity.
  - apply (proj2 (proj2 (proj2 (proj2 (deal_spec _))))). reflexivity.
Defined.

(** ** The comparison on HandEvaluation *)

Lemma rankInt_inj r1 r2 : rankInt r1 = rankInt r2 → r1 = r2.
Proof. by destruct r1, r2. Qed.

Lemma tiebreakers_gt_first_difference xs ys :
  tiebreakers_gt xs ys = true ↔
  ∃ x y, firstDifference xs ys x y ∧ x > y.
Proof.
  revert ys. induction xs as [|x xs IH]; intros [|y ys]; simpl.
  1-3: split; [done|]; intros (? & ? & (i & _ & Hx & Hy & _) & _);
       by destruct i.
  destruct (Z.eqb_spec x y) as [->|Hne]; simpl.
  - rewrite IH. split.
    + intros (x' & y' & (i & Ht & Hx & Hy & Hd) & Hgt).
      exists x', y'. split; [|done]. exists (S i). simpl. by rewrite Ht.
    + intros (x' & y' & (i & Ht & Hx & Hy & Hd) & Hgt).
      destruct i as [|i]; simplify_eq/=.
      exists x', y'. split; [|done]. by exists i.
  - rewrite Z.gtb_gt. split.
    + intros Hgt. exists x, y. split; [|done]. by exists 0%nat.
    + intros (x' & y' & (i & Ht & Hx & Hy & Hd) & Hgt).
      by destruct i as [|i]; simplify_eq/=.
Qed.

Lemma tiebreakers_trichotomy xs ys :
  length xs = length ys →
  (tiebreakers_gt xs ys = true ∧ tiebreakers_gt ys xs = false ∧
   tiebreakers_eq xs ys = false) ∨
  (tiebreakers_gt xs ys = false ∧ tiebreakers_gt ys xs = true ∧
   tiebreakers_eq xs ys = false) ∨
  (tiebreakers_gt xs ys = false ∧ tiebreakers_gt ys xs = false ∧
   tiebreakers_eq xs ys = true).
Proof.
  revert ys. induction xs as [|x xs IH]; intros [|y ys] Hlen; simplify_eq/=.
  { by right; right. }
  rewrite (Z.eqb_sym y x).
  destruct (Z.eqb_spec x y) as [->|Hne]; simpl; [by apply IH|].
  destruct (Z.gtb_spec x y), (Z.gtb_spec y x); try lia;
    first [by left | by right; left].
Qed.

Lemma tiebreakers_eq_true xs ys :
  length xs = length ys → tiebreakers_eq xs ys = true → xs = ys.
Proof.
  revert ys. induction xs as [|x xs IH]; intros [|y ys] Hlen; simplify_eq/=.
  { done. }
  destruct (Z.eqb_spec x y) as [->|Hne]; simpl; [|done].
  intros. f_equal. by apply IH.
Qed.

Lemma tiebreakers_eq_refl xs : tiebreakers_eq xs xs = true.
Proof. induction xs as [|x xs IH]; simpl; [done|]. by rewrite Z.eqb_refl. Qed.

Lemma eval_eq_true a b : eval_eq a b = true ↔ a = b.
Proof.
  unfold eval_eq. split.
  - destruct a as [ra ta], b as [rb tb]; simpl.
    case_bool_decide; simpl; [|done].
    destruct (Nat.eqb_spec (length ta) (length tb)); simpl; [|done].
    intros ?%tiebreakers_eq_true; [by subst|done].
  - intros ->. rewrite bool_decide_eq_true_2, Nat.eqb_refl by done. simpl.
    apply tiebreakers_eq_refl.
Qed.

Lemma eval_gt_lexicographic a b :
  eval_gt a b = true ↔
  rankInt (rank a) > rankInt (rank b) ∨
  (rank a = rank b ∧
   ∃ x y, firstDifference (tiebreakers a) (tiebreakers b) x y ∧ x > y).
Proof.
  unfold eval_gt. case_bool_decide as Hr; simpl.
  - rewrite tiebreakers_gt_first_difference, Hr. split; [by right|].
    intros [?|[_ ?]]; [lia|done].
  - rewrite Z.gtb_gt. split; [by left|]. by intros [?|[? _]].
Qed.

Lemma eval_trichotomy a b :
  (rank a = rank b → length (tiebreakers a) = length (tiebreakers b)) →
  exactlyOne a b.
Proof.
  intros Hlen. unfold exactlyOne, eval_gt, eval_eq.
  rewrite (bool_decide_ext (rank b = rank a) (rank a = rank b)) by done.
  case_bool_decide as Hr; simpl.
  - specialize (Hlen Hr). rewrite Hlen, Nat.eqb_refl. simpl.
    by apply tiebreakers_trichotomy.
  - assert (rankInt (rank a) ≠ rankInt (rank b)) by (by intros ?%rankInt_inj).
    destruct (Z.gtb_spec (rankInt (rank a)) (rankInt (rank b))),
             (Z.gtb_spec (rankInt (rank b)) (rankInt (rank a)));
      try lia; first [by left | by right; left].
Qed.

(** C6 as stated fails: two evaluations of one category whose tiebreaker
    sequences agree on the shorter one are neither greater than one
    another nor equal. *)
Lemma trichotomy_fails_on_unequal_lengths :
  ¬ exactlyOne (mkEval PAIR [5]) (mkEval PAIR [5; 3]).
Proof. by intros [(? & _)|[(_ & ? & _)|(_ & _ & ?)]]. Qed.

(** ** Zero completed trials *)

Lemma no_visits_probability node :
  visits node = 0 → MCTSNode.getWinProbability node = 0%Q.
Proof. unfold MCTSNode.getWinProbability. by intros ->. Qed.

Lemma no_visits_fold bot :
  visits (rootNode bot) = 0 →
  PokerBot.getWinProbability bot = 0%Q ∧
  PokerBot.shouldStay bot = false ∧ PokerBot.decision bot = FOLD.
Proof.
  intros Hv. unfold PokerBot.decision, PokerBot.shouldStay,
    PokerBot.getWinProbability.
  by rewrite (no_visits_probability _ Hv).
Qed.

(** C2 as stated fails: a run whose budget is spent at the first reading
    of the clock completes no trial, and its verdict is FOLD. *)
Lemma zero_trials_not_undecided :
  PokerBot.runMCTS 0 [0] idleBot rng0 = Some (Ok (0%Q, idleBot, rng0)) ∧
  totalRuns idleBot = 0 ∧
  PokerBot.shouldStay idleBot = false ∧
  PokerBot.decision idleBot = FOLD ∧
  ¬ undecided (PokerBot.decision idleBot).
Proof. split_and!; [done..|]. by intros [_ ?]. Qed.

(** C2, amended.  When the budget is already reached at the first reading
    of the clock, [runMCTS] returns with no trial run: the counters are 0,
    the win probability is 0, [shouldStay] is false and the verdict is
    FOLD, the same verdict as for a hand that lost every trial. *)
Theorem zero_trials_fold (msTimeLimit elapsedMs : Z) (later : list Z)
    (bot : PokerBot) (g : Rng) :
  msTimeLimit ≤ elapsedMs →
  ∃ bot',
    PokerBot.runMCTS msTimeLimit (elapsedMs :: later) bot g
    = Some (Ok (0%Q, bot', g)) ∧
    totalRuns bot' = 0 ∧ winningRuns bot' = 0 ∧
    MCTSNode.getVisits (rootNode bot') = 0 ∧
    PokerBot.getWinProbability bot' = 0%Q ∧
    PokerBot.shouldStay bot' = false ∧
    PokerBot.decision bot' = FOLD.
Proof.
  intros Hle. eexists. unfold PokerBot.runMCTS. simpl.
  destruct (Z.geb_spec elapsedMs msTimeLimit); [|lia].
  split_and!; try done.
Qed.

Lemma zero_trials_fold_witness :
  ∃ bot',
    PokerBot.runMCTS 0 [0; 4; 9] idleBot rng0 = Some (Ok (0%Q, bot', rng0)) ∧
    totalRuns bot' = 0 ∧ winningRuns bot' = 0 ∧
    MCTSNode.getVisits (rootNode bot') = 0 ∧
    PokerBot.getWinProbability bot' = 0%Q ∧
    PokerBot.shouldStay bot' = false ∧
    PokerBot.decision bot' = FOLD.
Proof. apply (zero_trials_fold 0 0 [4; 9] idleBot rng0). lia. Defined.

(** ** The count vectors of evaluateComplete *)

Lemma length_incr v i : length (HandEvaluator.incr v i) = length v.
Proof. apply length_alter. Qed.

Lemma at_incr v i j :
  0 ≤ i → 0 ≤ j → (Z.to_nat i < length v)%nat →
  HandEvaluator.at_ (HandEvaluator.incr v i) j
  = if decide (i = j) then HandEvaluator.at_ v j + 1 else HandEvaluator.at_ v j.
Proof.
  intros Hi Hj Hlen. unfold HandEvaluator.at_, HandEvaluator.idx, HandEvaluator.incr.
  case_decide as Hij.
  - subst j. rewrite list_lookup_alter_eq.
    destruct (lookup_lt_is_Some_2 v (Z.to_nat i) Hlen) as [x ->]. simpl. lia.
  - rewrite list_lookup_alter_ne; [done|lia].
Qed.

(** Counting by a fold of increments: slot [j] grows by the number of
    elements whose key is [j]. *)
Lemma at_count_fold (key : Card → Z) (cards : list Card) (v : list Z) (j : Z) :
  (∀ c, 0 ≤ key c ∧ (Z.to_nat (key c) < length v)%nat) → 0 ≤ j →
  HandEvaluator.at_ (foldl (λ v c, HandEvaluator.incr v (key c)) v cards) j
  = HandEvaluator.at_ v j + Z.of_nat (length (filter (λ c, key c = j) cards)).
Proof.
  intros Hkey Hj. revert v Hkey.
  induction cards as [|c cards IH]; intros v Hkey; simpl; [lia|].
  destruct (Hkey c) as [Hc0 Hc1].
  rewrite IH by (intros c'; rewrite length_incr; apply Hkey).
  rewrite at_incr by done. rewrite filter_cons.
  repeat case_decide; simpl; lia.
Qed.

Lemma valueInt_range v : 2 ≤ valueInt v ≤ 14.
Proof. destruct v; simpl; lia. Qed.

Lemma suitInt_range s : 0 ≤ suitInt s ≤ 3.
Proof. destruct s; simpl; lia. Qed.

Lemma suitInt_inj s1 s2 : suitInt s1 = suitInt s2 → s1 = s2.
Proof. by destruct s1, s2. Qed.

Lemma valueInt_inj v1 v2 : valueInt v1 = valueInt v2 → v1 = v2.
Proof. by destruct v1, v2. Qed.

Lemma valueCounts_at cards r :
  0 ≤ r →
  HandEvaluator.at_ (HandEvaluator.valueCounts cards) r
  = Z.of_nat (countRank cards r).
Proof.
  intros Hr. unfold HandEvaluator.valueCounts, countRank.
  rewrite (at_count_fold (λ c, valueInt (value c))); [|simpl|done].
  - unfold HandEvaluator.at_, HandEvaluator.idx.
    destruct (decide (r < 15)).
    + rewrite lookup_replicate_2 by lia. simpl. lia.
    + rewrite (proj1 (lookup_replicate_None _ _ _)) by lia. simpl. lia.
  - intros c. pose proof (valueInt_range (value c)). lia.
Qed.

Lemma suitCounts_at cards s :
  HandEvaluator.at_ (HandEvaluator.suitCounts cards) (suitInt s)
  = Z.of_nat (countSuit cards s).
Proof.
  pose proof (suitInt_range s) as Hs.
  unfold HandEvaluator.suitCounts, countSuit.
  rewrite (at_count_fold (λ c, suitInt (suit c))); [|simpl|lia].
  - unfold HandEvaluator.at_, HandEvaluator.idx.
    rewrite lookup_replicate_2 by lia. simpl.
    rewrite Z.add_0_l. do 2 f_equal. apply list_filter_iff.
    intros c. split; [apply suitInt_inj | by intros ->].
  - intros c. pose proof (suitInt_range (suit c)). lia.
Qed.

(** ** Straight detection *)

Lemma hasRank_countRank cards r :
  hasRank cards r = true ↔ (0 < countRank cards r)%nat.
Proof.
  unfold hasRank, countRank. induction cards as [|c cards IH]; simpl; [lia|].
  rewrite filter_cons, orb_true_iff, IH, Z.eqb_eq.
  case_decide; simpl; [lia|]. intuition lia.
Qed.

Lemma at_pos_hasRank cards r :
  0 ≤ r →
  (HandEvaluator.at_ (HandEvaluator.valueCounts cards) r >? 0)
  = hasRank cards r.
Proof.
  intros Hr. rewrite valueCounts_at by done.
  apply eq_true_iff_eq. rewrite hasRank_countRank, Z.gtb_gt. lia.
Qed.

Lemma run5_straightAt cards i h :
  2 ≤ i → h = i + 4 →
  HandEvaluator.run5 (HandEvaluator.valueCounts cards) i = straightAt cards h.
Proof.
  intros Hi ->. unfold HandEvaluator.run5, straightAt, aceLow. simpl.
  rewrite !at_pos_hasRank by lia.
  repeat match goal with
  | |- context [?a =? 1] => destruct (Z.eqb_spec a 1); [lia|]
  end.
  replace (i + 4 - 0) with (i + 4) by lia.
  replace (i + 4 - 1) with (i + 3) by lia.
  replace (i + 4 - 2) with (i + 2) by lia.
  replace (i + 4 - 3) with (i + 1) by lia.
  replace (i + 4 - 4) with i by lia.
  by destruct (hasRank cards i), (hasRank cards (i + 1)),
    (hasRank cards (i + 2)), (hasRank cards (i + 3)), (hasRank cards (i + 4)).
Qed.

Lemma wheel_straightAt cards :
  HandEvaluator.wheel (HandEvaluator.valueCounts cards) = straightAt cards 5.
Proof.
  unfold HandEvaluator.wheel, straightAt, aceLow. simpl.
  rewrite !at_pos_hasRank by lia.
  change (5 - 0) with 5. change (5 - 1) with 4. change (5 - 2) with 3.
  change (5 - 3) with 2.
  by destruct (hasRank cards 14), (hasRank cards 2), (hasRank cards 3),
    (hasRank cards 4), (hasRank cards 5).
Qed.

Lemma findStraight_spec cards :
  match HandEvaluator.findStraight (HandEvaluator.valueCounts cards) with
  | (true, h) => bestStraight cards h
  | (false, h) => h = 0 ∧ ∀ h', 5 ≤ h' ≤ 14 → straightAt cards h' = false
  end.
Proof.
  unfold HandEvaluator.findStraight, HandEvaluator.straightStarts. simpl.
  rewrite (run5_straightAt cards 10 14), (run5_straightAt cards 9 13),
    (run5_straightAt cards 8 12), (run5_straightAt cards 7 11),
    (run5_straightAt cards 6 10), (run5_straightAt cards 5 9),
    (run5_straightAt cards 4 8), (run5_straightAt cards 3 7),
    (run5_straightAt cards 2 6), wheel_straightAt by done.
  change (10 + 4) with 14. change (9 + 4) with 13. change (8 + 4) with 12.
  change (7 + 4) with 11. change (6 + 4) with 10. change (5 + 4) with 9.
  change (4 + 4) with 8. change (3 + 4) with 7. change (2 + 4) with 6.
  unfold bestStraight.
  assert (Hcases : ∀ h' : Z, 5 ≤ h' ≤ 14 →
    h' = 5 ∨ h' = 6 ∨ h' = 7 ∨ h' = 8 ∨ h' = 9 ∨ h' = 10 ∨ h' = 11 ∨
    h' = 12 ∨ h' = 13 ∨ h' = 14) by lia.
  repeat
    (match goal with
     | |- context [if straightAt cards ?h then _ else _] =>
         destruct (straightAt cards h) eqn:?
     end;
     [ split; [lia|split; [done|]];
       intros h' Hh'; destruct (Hcases h') as [?|?]; [lia|..];
       destruct_or?; subst; first [done|lia]
     | ]).
  split; [done|]. intros h' Hh'. destruct (Hcases h' Hh'); destruct_or?; by subst.
Qed.

Lemma bestStraight_unique cards h1 h2 :
  bestStraight cards h1 → bestStraight cards h2 → h1 = h2.
Proof.
  intros (Hr1 & Hs1 & Hm1) (Hr2 & Hs2 & Hm2).
  destruct (Z.lt_total h1 h2) as [Hlt|[->|Hlt]]; [|done|].
  - rewrite Hm1 in Hs2 by lia. done.
  - rewrite Hm2 in Hs1 by lia. done.
Qed.


(** ** Sorting and the flush cards *)

#[local] Instance Zge_total : Total Z.ge.
Proof. intros x y. lia. Qed.

#[local] Instance Zge_trans : Transitive Z.ge.
Proof. intros x y z. lia. Qed.

#[local] Instance valueGe_total : Total HandEvaluator.valueGe.
Proof. intros x y. unfold HandEvaluator.valueGe. lia. Qed.

#[local] Instance valueGe_trans : Transitive HandEvaluator.valueGe.
Proof. intros x y z. unfold HandEvaluator.valueGe. lia. Qed.

Lemma sortDesc_perm l : HandEvaluator.sortDesc l ≡ₚ l.
Proof. apply merge_sort_Permutation. Qed.

Lemma sortDesc_sorted l : StronglySorted Z.ge (HandEvaluator.sortDesc l).
Proof. apply StronglySorted_merge_sort; apply _. Qed.

Lemma length_sortDesc l : length (HandEvaluator.sortDesc l) = length l.
Proof. by rewrite sortDesc_perm. Qed.

Lemma elem_of_sortDesc l x : x ∈ HandEvaluator.sortDesc l ↔ x ∈ l.
Proof. by rewrite sortDesc_perm. Qed.

Lemma sortCards_perm l : HandEvaluator.sortCardsByValueDesc l ≡ₚ l.
Proof. apply merge_sort_Permutation. Qed.

Lemma sortCards_sorted l :
  StronglySorted HandEvaluator.valueGe (HandEvaluator.sortCardsByValueDesc l).
Proof. apply StronglySorted_merge_sort; apply _. Qed.

Lemma unique_NoDup l : NoDup l → HandEvaluator.unique l = l.
Proof.
  induction 1 as [|x l Hx Hl IH]; simpl; [done|].
  destruct l as [|y l]; [done|].
  destruct (Z.eqb_spec x y) as [->|_]; [|by rewrite IH].
  exfalso. apply Hx. left.
Qed.

Lemma flushCardsOf_perm s cards :
  HandEvaluator.flushCardsOf true s cards ≡ₚ filter (λ c, suit c = s) cards.
Proof. apply sortCards_perm. Qed.

Lemma same_suit_values_NoDup cards s :
  NoDup cards →
  NoDup ((λ c, valueInt (value c)) <$> filter (λ c, suit c = s) cards).
Proof.
  intros Hnd. apply NoDup_fmap_2_strong; [|by apply NoDup_filter].
  intros [s1 v1] [s2 v2] [Hs1 _]%list_elem_of_filter [Hs2 _]%list_elem_of_filter Hv.
  simpl in *. apply valueInt_inj in Hv. congruence.
Qed.

(** For distinct cards the flush values are the values of the flush
    cards: [std::unique] removes nothing. *)
Lemma flushValues_NoDup cards s :
  NoDup cards →
  let values := HandEvaluator.sortDesc
    ((λ c, valueInt (value c)) <$> HandEvaluator.flushCardsOf true s cards) in
  HandEvaluator.unique values = values ∧ NoDup values ∧
  length values = length (HandEvaluator.flushCardsOf true s cards).
Proof.
  intros Hnd values.
  assert (NoDup values) as Hv.
  { unfold values. rewrite sortDesc_perm, flushCardsOf_perm.
    by apply same_suit_values_NoDup. }
  split_and!; [by apply unique_NoDup|done|].
  unfold values. by rewrite length_sortDesc, length_fmap.
Qed.

Lemma findFlush_spec cards :
  match HandEvaluator.findFlush (HandEvaluator.suitCounts cards) allSuits with
  | (true, s) => (5 ≤ countSuit cards s)%nat
  | (false, s) => s = CLUBS ∧ ∀ s', (countSuit cards s' < 5)%nat
  end.
Proof.
  unfold allSuits, HandEvaluator.findFlush. rewrite !suitCounts_at.
  repeat match goal with
  | |- context [Z.of_nat ?n >=? 5] => destruct (Z.geb_spec (Z.of_nat n) 5); [lia|]
  end.
  split; [done|]. intros []; lia.
Qed.

(** [evaluateComplete] stays within defined behaviour on distinct cards. *)
Lemma evaluateComplete_defined cards :
  NoDup cards → ∃ ev, HandEvaluator.evaluateComplete cards = Ok ev.
Proof.
  intros Hnd. unfold HandEvaluator.evaluateComplete.
  destruct (HandEvaluator.findFlush _ _) as [hasFlush s].
  destruct (HandEvaluator.findStraight _) as [hasStraight h].
  unfold HandEvaluator.findStraightFlush.
  destruct hasFlush; [|by eexists].
  rewrite andb_true_l.
  destruct (flushValues_NoDup cards s Hnd) as (-> & _ & ->).
  destruct (Nat.leb_spec 5 (length (HandEvaluator.flushCardsOf true s cards)));
    [|by eexists].
  destruct (_ && HandEvaluator.isRoyal _); [by eexists|].
  destruct (Nat.ltb_spec (length (HandEvaluator.flushCardsOf true s cards)) 5);
    [lia|].
  destruct (HandEvaluator.scanFlushValues _ _ _). by eexists.
Qed.

(** ** The shape of an evaluation *)

Lemma evaluateComplete_inv cards ev :
  HandEvaluator.evaluateComplete cards = Ok ev →
  ∃ hasFlush flushSuit hasStraight straightHighCard hasSF sfHighCard,
    HandEvaluator.findFlush (HandEvaluator.suitCounts cards) allSuits
      = (hasFlush, flushSuit) ∧
    HandEvaluator.findStraight (HandEvaluator.valueCounts cards)
      = (hasStraight, straightHighCard) ∧
    HandEvaluator.findStraightFlush hasFlush
      (HandEvaluator.flushCardsOf hasFlush flushSuit cards)
      hasStraight straightHighCard = Ok (hasSF, sfHighCard) ∧
    ev = HandEvaluator.resolve (HandEvaluator.valueCounts cards) hasFlush
           (HandEvaluator.flushCardsOf hasFlush flushSuit cards)
           hasStraight straightHighCard hasSF sfHighCard.
Proof.
  unfold HandEvaluator.evaluateComplete.
  destruct (HandEvaluator.findFlush _ _) as [hasFlush s].
  destruct (HandEvaluator.findStraight _) as [hasStraight h].
  destruct (HandEvaluator.findStraightFlush _ _ _ _) as [[hasSF sfh]|e] eqn:Hsf;
    simpl; [|done].
  intros [= <-]. by exists hasFlush, s, hasStraight, h, hasSF, sfh.
Qed.




(** ** Counting the ranks of distinct cards *)

Lemma countRank_le_4 cards r : NoDup cards → (countRank cards r ≤ 4)%nat.
Proof.
  intros Hnd. unfold countRank.
  rewrite <- (length_fmap suit).
  change 4%nat with (length allSuits).
  apply submseteq_length, NoDup_submseteq;
    [|intros [] _; apply (bool_decide_unpack _); by vm_compute].
  apply NoDup_fmap_2_strong; [|by apply NoDup_filter].
  intros [s1 v1] [s2 v2] [Hv1 _]%list_elem_of_filter [Hv2 _]%list_elem_of_filter Hs.
  simpl in *. rewrite <- Hv2 in Hv1. apply valueInt_inj in Hv1. congruence.
Qed.

Lemma countRank_cons c cards r :
  countRank (c :: cards) r
  = ((if decide (valueInt (value c) = r) then 1 else 0) + countRank cards r)%nat.
Proof. unfold countRank. rewrite filter_cons. by case_decide. Qed.

Lemma sum_countRank_cons c cards ranks :
  NoDup ranks →
  sum_list_with (countRank (c :: cards)) ranks
  = ((if decide (valueInt (value c) ∈ ranks) then 1 else 0)
     + sum_list_with (countRank cards) ranks)%nat.
Proof.
  induction 1 as [|r ranks Hr Hnd IH]; simpl sum_list_with.
  - by rewrite decide_False by apply not_elem_of_nil.
  - rewrite IH, countRank_cons.
    destruct (decide (valueInt (value c) = r)) as [Heq|Hne],
      (decide (valueInt (value c) ∈ ranks)) as [Hin|Hnin],
      (decide (valueInt (value c) ∈ r :: ranks)) as [Hin'|Hnin'];
      try lia; exfalso;
      first [ by subst; apply Hr
            | apply Hnin'; rewrite elem_of_cons; by auto
            | by apply elem_of_cons in Hin' as [?|?] ].
Qed.

Lemma ranksAsc_NoDup : NoDup HandEvaluator.ranksAsc.
Proof. apply (bool_decide_unpack _). by vm_compute. Qed.

Lemma valueInt_in_ranksAsc v : valueInt v ∈ HandEvaluator.ranksAsc.
Proof. destruct v; apply (bool_decide_unpack _); by vm_compute. Qed.

Lemma ranksAsc_nonneg : Forall (λ r, 0 ≤ r) HandEvaluator.ranksAsc.
Proof. unfold HandEvaluator.ranksAsc. repeat constructor; lia. Qed.

Lemma ranksDesc_reverse : HandEvaluator.ranksDesc = reverse HandEvaluator.ranksAsc.
Proof. reflexivity. Qed.

(** Every card has one of the thirteen ranks. *)
Lemma sum_countRank cards :
  sum_list_with (countRank cards) HandEvaluator.ranksAsc = length cards.
Proof.
  induction cards as [|c cards IH].
  - reflexivity.
  - rewrite sum_countRank_cons by apply ranksAsc_NoDup.
    rewrite decide_True by apply valueInt_in_ranksAsc. by rewrite IH.
Qed.

(** With at most four cards of a rank, the cards split into quads, trips,
    pairs and single cards. *)
Lemma ranksWithCount_decomposition cards ranks :
  NoDup cards → Forall (λ r, 0 ≤ r) ranks →
  let vc := HandEvaluator.valueCounts cards in
  sum_list_with (countRank cards) ranks
  = (4 * length (HandEvaluator.ranksWithCount vc 4 ranks)
     + 3 * length (HandEvaluator.ranksWithCount vc 3 ranks)
     + 2 * length (HandEvaluator.ranksWithCount vc 2 ranks)
     + length (HandEvaluator.ranksWithCount vc 1 ranks))%nat.
Proof.
  intros Hnd Hranks vc. unfold HandEvaluator.ranksWithCount.
  induction Hranks as [|r ranks Hr _ IH]; [done|].
  rewrite !filter_cons. simpl sum_list_with. rewrite IH. unfold vc.
  rewrite valueCounts_at by done.
  pose proof (countRank_le_4 cards r Hnd).
  repeat case_decide; simpl; lia.
Qed.

Lemma length_highCardsOf vc :
  length (HandEvaluator.highCardsOf vc)
  = length (HandEvaluator.ranksWithCount vc 1 HandEvaluator.ranksAsc).
Proof.
  unfold HandEvaluator.highCardsOf, HandEvaluator.ranksWithCount.
  by rewrite ranksDesc_reverse, filter_reverse, length_reverse.
Qed.

Lemma rank_group_sizes cards :
  NoDup cards →
  let vc := HandEvaluator.valueCounts cards in
  (4 * length (HandEvaluator.quadsOf vc) + 3 * length (HandEvaluator.tripsOf vc)
   + 2 * length (HandEvaluator.pairsOf vc) + length (HandEvaluator.highCardsOf vc)
   = length cards)%nat.
Proof.
  intros Hnd vc.
  unfold HandEvaluator.quadsOf, HandEvaluator.tripsOf, HandEvaluator.pairsOf.
  rewrite !length_sortDesc, length_highCardsOf.
  rewrite <- (sum_countRank cards).
  symmetry. by apply ranksWithCount_decomposition, ranksAsc_nonneg.
Qed.

Lemma elem_of_ranksWithCount cards n ranks r :
  Forall (λ r, 0 ≤ r) ranks →
  r ∈ HandEvaluator.ranksWithCount (HandEvaluator.valueCounts cards) n ranks ↔
  Z.of_nat (countRank cards r) = n ∧ r ∈ ranks.
Proof.
  intros Hranks. unfold HandEvaluator.ranksWithCount.
  rewrite list_elem_of_filter. split.
  - intros [Hc Hr]. split; [|done].
    rewrite <- valueCounts_at; [done|]. by eapply Forall_forall in Hranks.
  - intros [Hc Hr]. split; [|done].
    rewrite valueCounts_at; [done|]. by eapply Forall_forall in Hranks.
Qed.

Lemma length_filter_mono {A} (P Q : A → Prop)
    `{!∀ x, Decision (P x)} `{!∀ x, Decision (Q x)} (l : list A) :
  (∀ x, P x → Q x) → (length (filter P l) ≤ length (filter Q l))%nat.
Proof.
  intros HPQ. induction l as [|x l IH]; [done|].
  rewrite !filter_cons. repeat case_decide; simpl; try lia. naive_solver.
Qed.

Lemma sum_list_with_single (f : Z → nat) (r0 : Z) (ranks : list Z) :
  NoDup ranks → (∀ r, r ∈ ranks → r ≠ r0 → f r = 0%nat) →
  (sum_list_with f ranks ≤ f r0)%nat.
Proof.
  induction 1 as [|r ranks Hr Hnd IH]; intros Hzero; simpl; [lia|].
  destruct (decide (r = r0)) as [->|Hne].
  - assert (sum_list_with f ranks = 0%nat) as ->; [|lia].
    clear IH Hnd. induction ranks as [|r ranks IH]; [done|]. simpl.
    apply not_elem_of_cons in Hr as [Hne Hr].
    rewrite IH; [|done|].
    + rewrite Hzero; [done| |done]. right. left.
    + intros r' [->|Hr']%elem_of_cons Hne'; [done|].
      apply Hzero; [|done]. right. by right.
  - rewrite (Hzero r); [|left|done]. apply IH.
    intros r' ??. apply Hzero; [by right|done].
Qed.

(** ** The length of the tiebreaker sequence *)

Lemma resolve_tiebreaker_length vc hasFlush flushCards hasStraight h hasSF sfh :
  (4 * length (HandEvaluator.quadsOf vc) + 3 * length (HandEvaluator.tripsOf vc)
   + 2 * length (HandEvaluator.pairsOf vc) + length (HandEvaluator.highCardsOf vc)
   = 7)%nat →
  (HandEvaluator.nonEmpty (HandEvaluator.quadsOf vc) = true →
   (1 ≤ length (filter (λ i, (HandEvaluator.at_ vc i > 0)%Z ∧
                             i ≠ HandEvaluator.idx (HandEvaluator.quadsOf vc) 0)
                       HandEvaluator.ranksDesc))%nat) →
  (length (HandEvaluator.highCardsOf vc)
   ≤ length (filter (λ i, (HandEvaluator.at_ vc i > 0)%Z)
                    HandEvaluator.ranksDesc))%nat →
  (hasFlush = true → (5 ≤ length flushCards)%nat) →
  let ev := HandEvaluator.resolve vc hasFlush flushCards hasStraight h hasSF sfh in
  length (tiebreakers ev) = tiebreakerLength (rank ev).
Proof.
  intros Hsum Hkicker Hhigh Hflush. unfold HandEvaluator.resolve.
  destruct (hasSF && (sfh =? 14)); [done|].
  destruct hasSF; [done|].
  destruct (HandEvaluator.quadsOf vc) as [|q quads].
  2: { simpl in *. rewrite length_take. specialize (Hkicker eq_refl). lia. }
  destruct (HandEvaluator.tripsOf vc) as [|t0 [|t1 trips]],
    (HandEvaluator.pairsOf vc) as [|p0 [|p1 pairs]]; simpl in *; try done;
    try lia;
    (destruct hasFlush;
     [specialize (Hflush eq_refl); simpl; rewrite length_fmap, length_take; lia|]);
    (destruct hasStraight; [done|]); simpl;
    rewrite ?length_take; lia.
Qed.

Lemma quad_kicker_exists cards :
  NoDup cards → length cards = 7%nat →
  let vc := HandEvaluator.valueCounts cards in
  HandEvaluator.nonEmpty (HandEvaluator.quadsOf vc) = true →
  (1 ≤ length (filter (λ i, (HandEvaluator.at_ vc i > 0)%Z ∧
                            i ≠ HandEvaluator.idx (HandEvaluator.quadsOf vc) 0)
                      HandEvaluator.ranksDesc))%nat.
Proof.
  intros Hnd Hlen vc _.
  set (q0 := HandEvaluator.idx (HandEvaluator.quadsOf vc) 0).
  destruct (filter _ HandEvaluator.ranksDesc) as [|r l] eqn:Hfilter; [|simpl; lia].
  exfalso.
  assert (sum_list_with (countRank cards) HandEvaluator.ranksAsc
          ≤ countRank cards q0)%nat as Hle.
  { apply sum_list_with_single; [apply ranksAsc_NoDup|].
    intros r Hr Hne.
    assert (r ∈ HandEvaluator.ranksDesc) as Hr'
      by (by rewrite ranksDesc_reverse, elem_of_reverse).
    pose proof (filter_nil_not_elem_of _ _ r Hfilter) as Hnot.
    assert (0 ≤ r) by (by eapply Forall_forall in Hr; [|apply ranksAsc_nonneg]).
    destruct (decide (countRank cards r = 0%nat)) as [|Hpos]; [done|].
    exfalso. apply Hnot; [|done]. split; [|done].
    unfold vc. rewrite valueCounts_at by done. lia. }
  rewrite sum_countRank in Hle. pose proof (countRank_le_4 cards q0 Hnd). lia.
Qed.

Lemma highCards_among_present vc :
  (length (HandEvaluator.highCardsOf vc)
   ≤ length (filter (λ i, (HandEvaluator.at_ vc i > 0)%Z)
                    HandEvaluator.ranksDesc))%nat.
Proof.
  unfold HandEvaluator.highCardsOf, HandEvaluator.ranksWithCount.
  apply length_filter_mono. intros r. lia.
Qed.

Lemma flushCards_length cards s :
  HandEvaluator.findFlush (HandEvaluator.suitCounts cards) allSuits = (true, s) →
  (5 ≤ length (HandEvaluator.flushCardsOf true s cards))%nat.
Proof.
  intros Hf. pose proof (findFlush_spec cards) as Hspec. rewrite Hf in Hspec.
  by rewrite flushCardsOf_perm.
Qed.

Lemma evaluateComplete_tiebreaker_length cards ev :
  NoDup cards → length cards = 7%nat →
  HandEvaluator.evaluateComplete cards = Ok ev →
  length (tiebreakers ev) = tiebreakerLength (rank ev).
Proof.
  intros Hnd Hlen (hf & s & hs & h & sf & sfh & Hflush & _ & _ & ->)%evaluateComplete_inv.
  apply resolve_tiebreaker_length.
  - by rewrite rank_group_sizes.
  - by apply quad_kicker_exists.
  - apply highCards_among_present.
  - intros ->. by apply flushCards_length.
Qed.

(** C10, amended.  Every hand of seven distinct cards has an evaluation,
    and the length of its tiebreaker sequence is fixed by its category: 1 for
    ROYAL_FLUSH, STRAIGHT_FLUSH and STRAIGHT, 2 for FOUR_OF_A_KIND and
    FULL_HOUSE, 3 for THREE_OF_A_KIND and TWO_PAIR, 4 for PAIR, 5 for
    FLUSH and HIGH_CARD; in particular the sequence is never empty. *)
Theorem tiebreaker_length_by_category (cards : list Card) :
  NoDup cards → length cards = 7%nat →
  ∃ ev, HandEvaluator.evaluateComplete cards = Ok ev ∧
        length (tiebreakers ev) = tiebreakerLength (rank ev) ∧
        tiebreakers ev ≠ [].
Proof.
  intros Hnd Hlen. destruct (evaluateComplete_defined cards Hnd) as [ev Hev].
  exists ev. split; [done|].
  pose proof (evaluateComplete_tiebreaker_length cards ev Hnd Hlen Hev) as Hl.
  split; [done|]. intros Hnil. rewrite Hnil in Hl. by destruct (rank ev).
Qed.

Lemma tiebreaker_length_by_category_witness :
  ∃ ev, HandEvaluator.evaluateComplete threePairs = Ok ev ∧
        length (tiebreakers ev) = tiebreakerLength (rank ev) ∧
        tiebreakers ev ≠ [].
Proof.
  apply (tiebreaker_length_by_category threePairs);
    [apply (bool_decide_unpack _); by vm_compute | reflexivity].
Defined.

(** C10 as stated fails on seven cards that are not distinct: five Aces
    and two Kings evaluate to PAIR with one tiebreaker where the category
    announces four; the evaluator may also leave defined behaviour. *)
Lemma repeated_cards_short_sequence :
  let cards :=
    [mkCard SPADES ACE; mkCard SPADES ACE; mkCard HEARTS ACE; mkCard HEARTS ACE;
     mkCard DIAMONDS ACE; mkCard SPADES KING; mkCard HEARTS KING] in
  length cards = 7%nat ∧
  HandEvaluator.evaluateComplete cards = Ok (mkEval PAIR [13]) ∧
  length (tiebreakers (mkEval PAIR [13])) ≠ tiebreakerLength PAIR.
Proof. split_and!; [reflexivity|by vm_compute|by vm_compute]. Qed.

Lemma repeated_cards_undefined :
  HandEvaluator.evaluateComplete (replicate 7 (mkCard SPADES ACE)) = Err Undefined.
Proof. by vm_compute. Qed.

(** Two evaluations of seven distinct cards each are comparable: the
    amended total order applies to everything the evaluator produces. *)
Lemma evaluations_trichotomy cards1 cards2 ev1 ev2 :
  NoDup cards1 → length cards1 = 7%nat →
  NoDup cards2 → length cards2 = 7%nat →
  HandEvaluator.evaluateComplete cards1 = Ok ev1 →
  HandEvaluator.evaluateComplete cards2 = Ok ev2 →
  exactlyOne ev1 ev2.
Proof.
  intros Hnd1 Hl1 Hnd2 Hl2 He1 He2. apply eval_trichotomy. intros Hr.
  rewrite (evaluateComplete_tiebreaker_length cards1 ev1),
    (evaluateComplete_tiebreaker_length cards2 ev2) by done.
  by rewrite Hr.
Qed.

(** ** Soundness of straight-flush detection *)

Lemma hasRank_elem_of cards r :
  hasRank cards r = true ↔ ∃ c, c ∈ cards ∧ valueInt (value c) = r.
Proof.
  unfold hasRank. rewrite existsb_exists. split.
  - intros (c & Hc%list_elem_of_In & ?%Z.eqb_eq). by exists c.
  - intros (c & Hc%list_elem_of_In & ?%Z.eqb_eq). by exists c.
Qed.

Lemma hasRank_perm cards1 cards2 r :
  cards1 ≡ₚ cards2 → hasRank cards1 r = hasRank cards2 r.
Proof.
  intros Hp. apply eq_true_iff_eq. rewrite !hasRank_elem_of.
  by setoid_rewrite Hp.
Qed.

Lemma hasRank_values cards r :
  hasRank cards r = true ↔ r ∈ (λ c, valueInt (value c)) <$> cards.
Proof.
  rewrite hasRank_elem_of, list_elem_of_fmap. split.
  - intros (c & ? & <-). by exists c.
  - intros (c & -> & ?). by exists c.
Qed.

Lemma straightAt_intro cards h :
  6 ≤ h →
  hasRank cards h = true → hasRank cards (h - 1) = true →
  hasRank cards (h - 2) = true → hasRank cards (h - 3) = true →
  hasRank cards (h - 4) = true →
  straightAt cards h = true.
Proof.
  intros Hh H0 H1 H2 H3 H4. unfold straightAt, aceLow. simpl.
  repeat match goal with
  | |- context [?a =? 1] => destruct (Z.eqb_spec a 1); [lia|]
  end.
  replace (h - 0) with h by lia. by rewrite H0, H1, H2, H3, H4.
Qed.

Lemma isRoyal_straightAt flushCards :
  HandEvaluator.isRoyal flushCards = straightAt flushCards 14.
Proof.
  unfold HandEvaluator.isRoyal, straightAt, aceLow. simpl.
  change (existsb (λ c, valueInt (value c) =? ?v) flushCards)
    with (hasRank flushCards v).
  change (14 - 0) with 14. change (14 - 1) with 13. change (14 - 2) with 12.
  change (14 - 3) with 11. change (14 - 4) with 10.
  by destruct (hasRank flushCards 10), (hasRank flushCards 11),
    (hasRank flushCards 12), (hasRank flushCards 13), (hasRank flushCards 14).
Qed.

Lemma StronglySorted_lookup_ge (l : list Z) (i j : nat) (x y : Z) :
  StronglySorted Z.ge l → l !! i = Some x → l !! j = Some y → (i < j)%nat →
  x >= y.
Proof.
  intros Hs. revert i j. induction Hs as [|a l Hs IH Hall]; intros i j Hi Hj Hlt.
  - done.
  - destruct j as [|j]; [lia|]. destruct i as [|i]; simplify_eq/=.
    + eapply Forall_forall in Hall; [done|]. by eapply list_elem_of_lookup_2.
    + eapply IH; [done..|lia].
Qed.

Lemma sorted_NoDup_lookup_gt (l : list Z) (i j : nat) (x y : Z) :
  StronglySorted Z.ge l → NoDup l → l !! i = Some x → l !! j = Some y →
  (i < j)%nat → x > y.
Proof.
  intros Hs Hnd Hi Hj Hlt.
  pose proof (StronglySorted_lookup_ge l i j x y Hs Hi Hj Hlt).
  destruct (decide (x = y)) as [->|]; [|lia].
  pose proof (NoDup_lookup l i j y Hnd Hi Hj). lia.
Qed.

Lemma scanFlushValues_inv fv starts found b h :
  HandEvaluator.scanFlushValues fv starts found = (b, h) →
  found = (b, h) ∨
  ∃ i, i ∈ starts ∧ b = true ∧ h = HandEvaluator.idx fv i ∧
       HandEvaluator.idx fv i = HandEvaluator.idx fv (i + 4) + 4.
Proof.
  induction starts as [|i starts IH]; simpl; [by left|].
  destruct (Z.eqb_spec (HandEvaluator.idx fv i) (HandEvaluator.idx fv (i + 4) + 4))
    as [Heq|_].
  - intros [= <- <-]. right. exists i. split_and!; [left|done..].
  - intros [?|(i' & ? & ?)]%IH; [by left|]. right. exists i'. split; [by right|done].
Qed.

(** Five entries of a strictly descending vector that span a difference
    of four are five consecutive ranks. *)
Lemma descending_run (fv : list Z) (i : nat) :
  StronglySorted Z.ge fv → NoDup fv → (i + 4 < length fv)%nat →
  HandEvaluator.idx fv i = HandEvaluator.idx fv (i + 4) + 4 →
  ∀ k, 0 ≤ k ≤ 4 → HandEvaluator.idx fv i - k ∈ fv.
Proof.
  intros Hs Hnd Hlen Heq.
  assert (∀ k, (k ≤ 4)%nat → ∃ x, fv !! (i + k)%nat = Some x) as Hget.
  { intros k Hk. apply lookup_lt_is_Some_2. lia. }
  destruct (Hget 0%nat) as [x0 H0]; [lia|].
  destruct (Hget 1%nat) as [x1 H1]; [lia|].
  destruct (Hget 2%nat) as [x2 H2]; [lia|].
  destruct (Hget 3%nat) as [x3 H3]; [lia|].
  destruct (Hget 4%nat) as [x4 H4]; [lia|].
  assert (x0 > x1) by (eapply (sorted_NoDup_lookup_gt fv); [done..|lia]).
  assert (x1 > x2) by (eapply (sorted_NoDup_lookup_gt fv); [done..|lia]).
  assert (x2 > x3) by (eapply (sorted_NoDup_lookup_gt fv); [done..|lia]).
  assert (x3 > x4) by (eapply (sorted_NoDup_lookup_gt fv); [done..|lia]).
  unfold HandEvaluator.idx in *. rewrite Nat.add_0_r in H0.
  rewrite H0, H4 in Heq. simpl in Heq. rewrite H0. simpl.
  intros k Hk.
  assert (k = 0 ∨ k = 1 ∨ k = 2 ∨ k = 3 ∨ k = 4) as Hcases by lia.
  destruct_or!; subst k.
  - replace (x0 - 0) with x0 by lia. by eapply list_elem_of_lookup_2.
  - replace (x0 - 1) with x1 by lia. by eapply list_elem_of_lookup_2.
  - replace (x0 - 2) with x2 by lia. by eapply list_elem_of_lookup_2.
  - replace (x0 - 3) with x3 by lia. by eapply list_elem_of_lookup_2.
  - replace (x0 - 4) with x4 by lia. by eapply list_elem_of_lookup_2.
Qed.

Lemma straightAt_perm cards1 cards2 h :
  cards1 ≡ₚ cards2 → straightAt cards1 h = straightAt cards2 h.
Proof.
  intros Hp. unfold straightAt. simpl.
  by rewrite !(hasRank_perm cards1 cards2) by done.
Qed.

Lemma straightAt_wheel_intro cards :
  hasRank cards 14 = true → hasRank cards 2 = true → hasRank cards 3 = true →
  hasRank cards 4 = true → hasRank cards 5 = true →
  straightAt cards 5 = true.
Proof.
  intros H14 H2 H3 H4 H5. unfold straightAt, aceLow. simpl.
  change (5 - 0) with 5. change (5 - 1) with 4. change (5 - 2) with 3.
  change (5 - 3) with 2. simpl. by rewrite H14, H2, H3, H4, H5.
Qed.

Lemma contains_true l x : HandEvaluator.contains l x = true ↔ x ∈ l.
Proof. unfold HandEvaluator.contains. apply bool_decide_eq_true. Qed.

(** A straight flush the evaluator reports is one the cards contain. *)
Lemma findStraightFlush_sound cards s hasStraight h sfh :
  NoDup cards →
  HandEvaluator.findStraightFlush true (HandEvaluator.flushCardsOf true s cards)
    hasStraight h = Ok (true, sfh) →
  5 ≤ sfh ≤ 14 ∧ straightFlushAt cards s sfh = true.
Proof.
  intros Hnd. unfold HandEvaluator.findStraightFlush, straightFlushAt.
  rewrite andb_true_l.
  destruct (flushValues_NoDup cards s Hnd) as (Huniq & Hvnd & Hvlen).
  set (fc := HandEvaluator.flushCardsOf true s cards) in *.
  assert (Hfc : fc ≡ₚ filter (λ c, suit c = s) cards) by apply flushCardsOf_perm.
  rewrite <- (straightAt_perm _ _ _ Hfc).
  destruct (5 <=? length fc)%nat; [|done].
  destruct (_ && HandEvaluator.isRoyal fc) eqn:Hroyal.
  { intros [= <-]. split; [lia|].
    apply andb_prop in Hroyal as [_ Hroyal]. by rewrite <- isRoyal_straightAt. }
  rewrite Huniq. clear Huniq.
  set (values := HandEvaluator.sortDesc ((λ c, valueInt (value c)) <$> fc)) in *.
  assert (Hmem : ∀ x, x ∈ values → hasRank fc x = true ∧ 2 ≤ x ≤ 14).
  { intros x Hx. unfold values in Hx. rewrite elem_of_sortDesc in Hx.
    split; [by apply hasRank_values|].
    apply list_elem_of_fmap in Hx as (c & -> & _). apply valueInt_range. }
  destruct (length values <? 5)%nat eqn:Hlen; [done|].
  apply Nat.ltb_ge in Hlen.
  intros [= Hscan]. apply scanFlushValues_inv in Hscan
    as [Hfound | (i & Hi & _ & -> & Heq)].
  - destruct (_ && HandEvaluator.contains values 5) eqn:Hwheel; [|done].
    injection Hfound as <-. split; [lia|].
    repeat (apply andb_prop in Hwheel as [Hwheel ?]).
    apply straightAt_wheel_intro; by apply Hmem, contains_true.
  - apply elem_of_seq in Hi.
    pose proof (descending_run values i (sortDesc_sorted _) Hvnd) as Hrun.
    specialize (Hrun ltac:(lia) Heq).
    pose proof (Hmem _ (Hrun 0 ltac:(lia))) as [Hk0 ?].
    pose proof (Hmem _ (Hrun 1 ltac:(lia))) as [Hk1 ?].
    pose proof (Hmem _ (Hrun 2 ltac:(lia))) as [Hk2 ?].
    pose proof (Hmem _ (Hrun 3 ltac:(lia))) as [Hk3 ?].
    pose proof (Hmem _ (Hrun 4 ltac:(lia))) as [Hk4 ?].
    split; [lia|]. apply straightAt_intro; [lia|try done..].
    by replace (HandEvaluator.idx values i - 0) with (HandEvaluator.idx values i)
      in Hk0 by lia.
Qed.

(** Without a straight flush among distinct cards the evaluator raises
    no straight-flush flag. *)
Lemma no_straight_flush_flag cards ev :
  NoDup cards → ¬ hasStraightFlush cards →
  HandEvaluator.evaluateComplete cards = Ok ev →
  ∃ hasFlush flushCards hasStraight h sfh,
    ev = HandEvaluator.resolve (HandEvaluator.valueCounts cards) hasFlush
           flushCards hasStraight h false sfh.
Proof.
  intros Hnd Hno (hf & s & hs & h & sf & sfh & _ & _ & Hsf & ->)%evaluateComplete_inv.
  destruct sf; [|by eexists _, _, _, _, _].
  exfalso. apply Hno. destruct hf; [|done].
  apply findStraightFlush_sound in Hsf as [? ?]; [|done]. by exists s, sfh.
Qed.

(** ** Quads, trips and pairs *)

Lemma countRank_pos_rank cards r :
  (0 < countRank cards r)%nat → r ∈ HandEvaluator.ranksAsc.
Proof.
  intros Hpos%hasRank_countRank. apply hasRank_elem_of in Hpos as (c & _ & <-).
  apply valueInt_in_ranksAsc.
Qed.

Lemma elem_of_group cards (n : nat) r :
  (0 < n)%nat →
  r ∈ HandEvaluator.sortDesc
        (HandEvaluator.ranksWithCount (HandEvaluator.valueCounts cards)
           (Z.of_nat n) HandEvaluator.ranksAsc) ↔
  countRank cards r = n.
Proof.
  intros Hn. rewrite elem_of_sortDesc, elem_of_ranksWithCount by apply ranksAsc_nonneg.
  split; [intros [? _]; lia|]. intros <-. split; [done|].
  by apply (countRank_pos_rank cards).
Qed.

Lemma group_NoDup vc n :
  NoDup (HandEvaluator.sortDesc
           (HandEvaluator.ranksWithCount vc n HandEvaluator.ranksAsc)).
Proof. rewrite sortDesc_perm. apply NoDup_filter, ranksAsc_NoDup. Qed.

Lemma sortDesc_first l t rest :
  HandEvaluator.sortDesc l = t :: rest → highestRank (λ r, r ∈ l) t.
Proof.
  intros Heq. pose proof (sortDesc_sorted l) as Hs. rewrite Heq in Hs.
  apply StronglySorted_inv in Hs as [_ Hall]. split.
  - rewrite <- elem_of_sortDesc, Heq. left.
  - intros r. rewrite <- elem_of_sortDesc, Heq.
    intros [->|Hr]%elem_of_cons; [lia|].
    eapply Forall_forall in Hall; [|done]. lia.
Qed.

Lemma sortDesc_second l t x rest :
  NoDup l → HandEvaluator.sortDesc l = t :: x :: rest →
  highestRank (λ r, r ∈ l ∧ r ≠ t) x.
Proof.
  intros Hnd Heq. pose proof (sortDesc_sorted l) as Hs.
  rewrite <- sortDesc_perm, Heq in Hnd. rewrite Heq in Hs.
  apply StronglySorted_inv in Hs as [Hs _].
  apply StronglySorted_inv in Hs as [_ Hall].
  apply NoDup_cons in Hnd as [Ht _]. split.
  - split.
    + rewrite <- elem_of_sortDesc, Heq. right. left.
    + intros ->. apply Ht. left.
  - intros r [Hr Hne]. rewrite <- elem_of_sortDesc, Heq in Hr.
    apply elem_of_cons in Hr as [->|Hr]; [done|].
    apply elem_of_cons in Hr as [->|Hr]; [lia|].
    eapply Forall_forall in Hall; [|done]. lia.
Qed.

Lemma resolve_FULL_HOUSE vc hasFlush flushCards hasStraight h sfh :
  HandEvaluator.quadsOf vc = [] →
  let ev := HandEvaluator.resolve vc hasFlush flushCards hasStraight h false sfh in
  let trips := HandEvaluator.tripsOf vc in
  let pairs := HandEvaluator.pairsOf vc in
  (rank ev = FULL_HOUSE ↔
     trips ≠ [] ∧ (pairs ≠ [] ∨ (1 < length trips)%nat)) ∧
  (rank ev = FULL_HOUSE →
     tiebreakers ev
     = [HandEvaluator.idx trips 0;
        if HandEvaluator.nonEmpty pairs then HandEvaluator.idx pairs 0
        else HandEvaluator.idx trips 1]).
Proof.
  intros Hq. unfold HandEvaluator.resolve. rewrite Hq. simpl.
  destruct (HandEvaluator.tripsOf vc) as [|t0 [|t1 trips]],
    (HandEvaluator.pairsOf vc) as [|p0 [|p1 pairs]]; simpl;
    repeat (match goal with
            | |- context [if ?b then _ else _] => destruct b
            end; simpl);
    (split; [split; [try done|]|try done]);
    try (intros [? [?|?]]; first [done|lia]);
    intros _; split; first [done | by left | right; lia].
Qed.

Lemma hasStraightFlushb_spec cards :
  hasStraightFlushb cards = true ↔ hasStraightFlush cards.
Proof.
  unfold hasStraightFlushb, hasStraightFlush. rewrite existsb_exists. split.
  - intros (s & _ & (h & Hh & Hsf)%existsb_exists). exists s, h. split; [|done].
    apply list_elem_of_In in Hh. unfold straightHighs in Hh.
    repeat (apply elem_of_cons in Hh as [->|Hh]; [lia|]).
    by apply elem_of_nil in Hh.
  - intros (s & h & Hh & Hsf). exists s. split.
    + apply list_elem_of_In. destruct s; apply (bool_decide_unpack _); by vm_compute.
    + apply existsb_exists. exists h. split; [|done].
      apply list_elem_of_In.
      assert (h = 5 ∨ h = 6 ∨ h = 7 ∨ h = 8 ∨ h = 9 ∨ h = 10 ∨ h = 11 ∨
              h = 12 ∨ h = 13 ∨ h = 14) as Hcases by lia.
      destruct_or!; subst h; apply (bool_decide_unpack _); by vm_compute.
Qed.

Lemma hasQuadsb_spec cards :
  hasQuadsb cards = false ↔ ∀ r, countRank cards r ≠ 4%nat.
Proof.
  unfold hasQuadsb. split.
  - intros Hnone r Hr.
    assert (existsb (λ r, countRank cards r =? 4)%nat HandEvaluator.ranksAsc = true)
      as Hsome; [|congruence].
    apply existsb_exists. exists r. split; [|by apply Nat.eqb_eq].
    apply list_elem_of_In, (countRank_pos_rank cards). lia.
  - intros Hnone. apply not_true_is_false.
    intros (r & _ & Hr%Nat.eqb_eq)%existsb_exists. by apply (Hnone r).
Qed.

Lemma highestRank_iff (P Q : Z → Prop) r :
  (∀ r, P r ↔ Q r) → highestRank P r → highestRank Q r.
Proof.
  intros HPQ [HP Hmax]. split; [by apply HPQ|].
  intros r' ?%HPQ. by apply Hmax.
Qed.

Lemma elem_of_group_unsorted cards (n : nat) r :
  (0 < n)%nat →
  r ∈ HandEvaluator.ranksWithCount (HandEvaluator.valueCounts cards)
        (Z.of_nat n) HandEvaluator.ranksAsc ↔
  countRank cards r = n.
Proof. intros Hn. by rewrite <- (elem_of_group cards n r), elem_of_sortDesc. Qed.

Lemma elem_of_tripsOf cards r :
  r ∈ HandEvaluator.tripsOf (HandEvaluator.valueCounts cards) ↔
  countRank cards r = 3%nat.
Proof. apply (elem_of_group cards 3). lia. Qed.

Lemma elem_of_pairsOf cards r :
  r ∈ HandEvaluator.pairsOf (HandEvaluator.valueCounts cards) ↔
  countRank cards r = 2%nat.
Proof. apply (elem_of_group cards 2). lia. Qed.

Lemma elem_of_quadsOf cards r :
  r ∈ HandEvaluator.quadsOf (HandEvaluator.valueCounts cards) ↔
  countRank cards r = 4%nat.
Proof. apply (elem_of_group cards 4). lia. Qed.

Lemma nonempty_elem_of {A} (l : list A) : l ≠ [] ↔ ∃ x, x ∈ l.
Proof.
  destruct l as [|x l]; split; try done.
  - by intros [x ?%elem_of_nil].
  - intros _. exists x. left.
Qed.

Lemma two_elements {A} (l : list A) :
  NoDup l → (1 < length l)%nat ↔ ∃ x y, x ≠ y ∧ x ∈ l ∧ y ∈ l.
Proof.
  intros Hnd. split.
  - destruct l as [|x [|y l]]; simpl; [lia..|]. intros _.
    exists x, y. split_and!; [|left|right; left].
    apply NoDup_cons in Hnd as [Hx _]. intros ->. apply Hx. left.
  - intros (x & y & Hne & Hx & Hy).
    destruct l as [|a [|b l]]; simpl; [|exfalso|lia].
    + by apply elem_of_nil in Hx.
    + apply list_elem_of_singleton in Hx, Hy. congruence.
Qed.

Lemma full_house_of_counts cards ev :
  NoDup cards →
  (∀ r, countRank cards r ≠ 4%nat) → ¬ hasStraightFlush cards →
  HandEvaluator.evaluateComplete cards = Ok ev →
  (rank ev = FULL_HOUSE ↔
     (∃ t, countRank cards t = 3%nat) ∧
     ((∃ p, countRank cards p = 2%nat) ∨
      (∃ t1 t2, t1 ≠ t2 ∧ countRank cards t1 = 3%nat ∧
                countRank cards t2 = 3%nat))) ∧
  (rank ev = FULL_HOUSE →
     ∃ t x, tiebreakers ev = [t; x] ∧
       highestRank (λ r, countRank cards r = 3%nat) t ∧
       ((∃ p, countRank cards p = 2%nat) →
        highestRank (λ r, countRank cards r = 2%nat) x) ∧
       ((∀ p, countRank cards p ≠ 2%nat) →
        highestRank (λ r, countRank cards r = 3%nat ∧ r ≠ t) x)).
Proof.
  intros Hnd Hnq Hnsf Hev.
  destruct (no_straight_flush_flag cards ev Hnd Hnsf Hev)
    as (hf & fc & hs & h & sfh & ->).
  set (vc := HandEvaluator.valueCounts cards).
  assert (Hq : HandEvaluator.quadsOf vc = []).
  { destruct (HandEvaluator.quadsOf vc) as [|q l] eqn:E; [done|].
    exfalso. apply (Hnq q), elem_of_quadsOf. fold vc. rewrite E. left. }
  destruct (resolve_FULL_HOUSE vc hf fc hs h sfh Hq) as [Hiff Htb].
  assert (Htrips : HandEvaluator.tripsOf vc ≠ [] ↔ ∃ t, countRank cards t = 3%nat).
  { rewrite nonempty_elem_of. unfold vc. by setoid_rewrite elem_of_tripsOf. }
  assert (Hpairs : HandEvaluator.pairsOf vc ≠ [] ↔ ∃ p, countRank cards p = 2%nat).
  { rewrite nonempty_elem_of. unfold vc. by setoid_rewrite elem_of_pairsOf. }
  assert (Htwo : (1 < length (HandEvaluator.tripsOf vc))%nat ↔
                 ∃ t1 t2, t1 ≠ t2 ∧ countRank cards t1 = 3%nat ∧
                          countRank cards t2 = 3%nat).
  { rewrite two_elements by apply group_NoDup.
    unfold vc. by setoid_rewrite elem_of_tripsOf. }
  split; [by rewrite Hiff, Htrips, Hpairs, Htwo|].
  intros Hfh. specialize (Htb Hfh). apply Hiff in Hfh as [Ht Hsecond].
  rewrite Htb. clear Htb Hiff.
  unfold HandEvaluator.tripsOf in *.
  destruct (HandEvaluator.sortDesc (HandEvaluator.ranksWithCount vc 3 _))
    as [|t0 trips] eqn:Et; [done|].
  eexists t0, _. split; [done|].
  split; [|split].
  - apply sortDesc_first in Et. revert Et. apply highestRank_iff.
    intros r. apply (elem_of_group_unsorted cards 3). lia.
  - intros Hp%Hpairs. unfold HandEvaluator.pairsOf in *.
    destruct (HandEvaluator.sortDesc (HandEvaluator.ranksWithCount vc 2 _))
      as [|p0 pairs] eqn:Ep; [done|]. simpl.
    apply sortDesc_first in Ep. revert Ep. apply highestRank_iff.
    intros r. apply (elem_of_group_unsorted cards 2). lia.
  - intros Hnp.
    assert (HandEvaluator.pairsOf vc = []) as Hp.
    { destruct (HandEvaluator.pairsOf vc) eqn:Ep; [done|].
      exfalso. destruct (proj1 Hpairs) as [p Hp]; [done|].
      by apply (Hnp p). }
    rewrite Hp in *. simpl.
    destruct Hsecond as [?|Hlen]; [done|].
    destruct trips as [|t1 trips]; [simpl in Hlen; lia|]. simpl.
    apply sortDesc_second in Et; [|apply NoDup_filter, ranksAsc_NoDup].
    revert Et. apply highestRank_iff. intros r.
    pose proof (elem_of_group_unsorted cards 3 r ltac:(lia)) as Hg.
    split; (intros [? ?]; split; [by apply Hg|done]).
Qed.

(** C5.  For distinct cards with no rank held four times and no straight
    flush, the category is FULL_HOUSE exactly when some rank is held three
    times and, besides, some rank is held twice or a second rank is held
    three times.  The tiebreakers are then the highest rank held three
    times followed by the highest rank held twice or, when no rank is held
    twice, by the second highest rank held three times. *)
Theorem full_house_resolution (cards : list Card) :
  NoDup cards → length cards = 7%nat →
  (∀ r, countRank cards r ≠ 4%nat) → ¬ hasStraightFlush cards →
  ∃ ev, HandEvaluator.evaluateComplete cards = Ok ev ∧
    (rank ev = FULL_HOUSE ↔
       (∃ t, countRank cards t = 3%nat) ∧
       ((∃ p, countRank cards p = 2%nat) ∨
        (∃ t1 t2, t1 ≠ t2 ∧ countRank cards t1 = 3%nat ∧
                  countRank cards t2 = 3%nat))) ∧
    (rank ev = FULL_HOUSE →
       ∃ t x, tiebreakers ev = [t; x] ∧
         highestRank (λ r, countRank cards r = 3%nat) t ∧
         ((∃ p, countRank cards p = 2%nat) →
          highestRank (λ r, countRank cards r = 2%nat) x) ∧
         ((∀ p, countRank cards p ≠ 2%nat) →
          highestRank (λ r, countRank cards r = 3%nat ∧ r ≠ t) x)).
Proof.
  intros Hnd _ Hnq Hnsf.
  destruct (evaluateComplete_defined cards Hnd) as [ev Hev].
  exists ev. split; [done|]. by apply full_house_of_counts.
Qed.

Lemma full_house_resolution_witness :
  ∃ ev, HandEvaluator.evaluateComplete twoTrips = Ok ev ∧
    (rank ev = FULL_HOUSE ↔
       (∃ t, countRank twoTrips t = 3%nat) ∧
       ((∃ p, countRank twoTrips p = 2%nat) ∨
        (∃ t1 t2, t1 ≠ t2 ∧ countRank twoTrips t1 = 3%nat ∧
                  countRank twoTrips t2 = 3%nat))) ∧
    (rank ev = FULL_HOUSE →
       ∃ t x, tiebreakers ev = [t; x] ∧
         highestRank (λ r, countRank twoTrips r = 3%nat) t ∧
         ((∃ p, countRank twoTrips p = 2%nat) →
          highestRank (λ r, countRank twoTrips r = 2%nat) x) ∧
         ((∀ p, countRank twoTrips p ≠ 2%nat) →
          highestRank (λ r, countRank twoTrips r = 3%nat ∧ r ≠ t) x)).
Proof.
  apply (full_house_resolution twoTrips).
  - apply (bool_decide_unpack _). by vm_compute.
  - reflexivity.
  - apply hasQuadsb_spec. by vm_compute.
  - intros Hsf%hasStraightFlushb_spec. by vm_compute in Hsf.
Defined.

(** Two trips and no pair: a full house on the two trip ranks. *)
Lemma two_trips_full_house :
  HandEvaluator.evaluateComplete twoTrips = Ok (mkEval FULL_HOUSE [13; 12]).
Proof. by vm_compute. Qed.

(** ** The deck *)

Lemma reset_NoDup : NoDup Deck.reset.
Proof. apply (bool_decide_unpack _). by vm_compute. Qed.

Lemma reset_length : length Deck.reset = 52%nat.
Proof. reflexivity. Qed.

Lemma elem_of_reset c : c ∈ Deck.reset.
Proof. destruct c as [[] []]; apply (bool_decide_unpack _); by vm_compute. Qed.

Lemma removeCard_perm card cards :
  card ∈ cards → cards ≡ₚ card :: Deck.removeCard card cards.
Proof.
  induction cards as [|c cards IH]; [by intros ?%elem_of_nil|].
  intros Hin. simpl. destruct (cardsEqual c card) eqn:Heq.
  - by apply cardsEqual_spec in Heq as ->.
  - apply elem_of_cons in Hin as [->|Hin].
    + assert (cardsEqual c c = true) by (by apply cardsEqual_spec). congruence.
    + rewrite (IH Hin) at 1. apply perm_swap.
Qed.

Lemma removeCard_absent card cards :
  card ∉ cards → Deck.removeCard card cards = cards.
Proof.
  induction cards as [|c cards IH]; [done|].
  intros [Hne Hnin]%not_elem_of_cons. simpl.
  destruct (cardsEqual c card) eqn:Heq.
  - by apply cardsEqual_spec in Heq.
  - by rewrite IH.
Qed.

(** Removing distinct cards that are all in the deck takes out exactly
    these cards. *)
Lemma removeCards_perm known cards :
  NoDup known → (∀ c, c ∈ known → c ∈ cards) →
  cards ≡ₚ known ++ foldl (λ d c, Deck.removeCard c d) cards known.
Proof.
  intros Hnd. revert cards.
  induction Hnd as [|c known Hc Hnd IH]; intros cards Hsub; [done|]. simpl.
  pose proof (removeCard_perm c cards (Hsub c ltac:(left))) as Hp.
  rewrite <- IH; [done|].
  intros k Hk. assert (k ∈ c :: Deck.removeCard c cards) as Hk'.
  { rewrite <- Hp. apply Hsub. by right. }
  apply elem_of_cons in Hk' as [->|?]; done.
Qed.

Lemma insert_swap_head (l : list Card) (j : nat) (x y : Card) :
  l !! j = Some y → y :: <[j:=x]> l ≡ₚ x :: l.
Proof.
  revert j. induction l as [|a l IH]; intros [|j] Hj; simplify_eq/=.
  - apply perm_swap.
  - rewrite perm_swap, (IH j Hj). apply perm_swap.
Qed.

Lemma swap_perm cards i j : Deck.swap cards i j ≡ₚ cards.
Proof.
  unfold Deck.swap.
  destruct (cards !! i) as [ci|] eqn:Hi; [|done].
  destruct (cards !! j) as [cj|] eqn:Hj; [|done].
  revert i j Hi Hj. induction cards as [|a l IH]; intros [|i] [|j] Hi Hj;
    simplify_eq/=.
  - done.
  - by apply insert_swap_head.
  - by apply insert_swap_head.
  - by rewrite IH.
Qed.

Lemma shuffle_from_perm i cards g :
  (Deck.shuffle_from i cards g).1 ≡ₚ cards.
Proof.
  revert cards g. induction i as [|i IH]; intros cards g; [done|].
  simpl. by rewrite IH, swap_perm.
Qed.

Lemma shuffle_spec cards g :
  cards ≠ [] →
  ∃ cards' g', Deck.shuffle cards g = Ok (cards', g') ∧ cards' ≡ₚ cards.
Proof.
  intros Hne. destruct cards as [|c cards]; [done|]. unfold Deck.shuffle.
  destruct (Deck.shuffle_from _ _ _) as [cards' g'] eqn:Hs.
  exists cards', g'. split; [done|].
  change cards' with (cards', g').1. rewrite <- Hs. apply shuffle_from_perm.
Qed.

(** ** Dealing the board *)

Lemma dealsFrom_refl game : dealsFrom game game.
Proof.
  split_and!; [done..|]. exists []. by rewrite !app_nil_r.
Qed.

Lemma dealsFrom_trans g1 g2 g3 :
  dealsFrom g1 g2 → dealsFrom g2 g3 → dealsFrom g1 g3.
Proof.
  intros (Hb1 & Ho1 & new1 & Hc1 & Hd1) (Hb2 & Ho2 & new2 & Hc2 & Hd2).
  split_and!; [congruence..|]. exists (new1 ++ new2).
  rewrite Hc2, Hc1, Hd1, Hd2, reverse_app. by rewrite !app_assoc.
Qed.

Lemma dealsFrom_lengths g g' :
  dealsFrom g g' →
  (length (deck g') + length (communityCards g')
   = length (deck g) + length (communityCards g))%nat.
Proof.
  intros (_ & _ & new & -> & ->). rewrite !length_app, length_reverse. lia.
Qed.

Lemma dealsFrom_allCards g g' : dealsFrom g g' → allCards g' ≡ₚ allCards g.
Proof.
  intros (Hb & Ho & new & Hc & Hd). unfold allCards.
  rewrite Hb, Ho, Hc, Hd, reverse_Permutation. solve_Permutation.
Qed.

Lemma dealCommunity_spec game :
  deck game ≠ [] →
  ∃ game', PokerGame.dealCommunity game = Ok game' ∧ dealsFrom game game' ∧
           length (communityCards game') = S (length (communityCards game)).
Proof.
  intros (card & rest & Hdeal & Hdeck)%deal_spec_nonempty.
  unfold PokerGame.dealCommunity. rewrite Hdeal. simpl.
  eexists. split; [done|]. split.
  - split_and!; [done..|]. by exists [card].
  - simpl. rewrite length_app. simpl. lia.
Qed.

Lemma dealCommunityTimes_spec n game :
  (n ≤ length (deck game))%nat →
  ∃ game', PokerGame.dealCommunityTimes n game = Ok game' ∧
           dealsFrom game game' ∧
           length (communityCards game') = (length (communityCards game) + n)%nat.
Proof.
  revert game. induction n as [|n IH]; intros game Hn; simpl.
  - exists game. split_and!; [done|apply dealsFrom_refl|lia].
  - destruct (dealCommunity_spec game) as (g1 & -> & Hd1 & Hl1).
    { destruct (deck game); [simpl in Hn; lia|done]. }
    simpl. pose proof (dealsFrom_lengths _ _ Hd1).
    destruct (IH g1) as (g2 & -> & Hd2 & Hl2); [lia|].
    exists g2. split_and!; [done|by eapply dealsFrom_trans|lia].
Qed.

Lemma dealFlop_spec game :
  (3 - length (communityCards game) ≤ length (deck game))%nat →
  ∃ game', PokerGame.dealFlop game = Ok game' ∧ dealsFrom game game' ∧
           length (communityCards game') = (length (communityCards game) `max` 3)%nat.
Proof.
  intros Hn. unfold PokerGame.dealFlop.
  destruct (Nat.leb_spec 3 (length (communityCards game))).
  - exists game. split_and!; [done|apply dealsFrom_refl|lia].
  - destruct (dealCommunityTimes_spec _ game Hn) as (g1 & -> & Hd1 & Hl1).
    exists g1. split_and!; [done..|lia].
Qed.

Lemma dealTurn_spec game :
  (4 - length (communityCards game) ≤ length (deck game))%nat →
  ∃ game', PokerGame.dealTurn game = Ok game' ∧ dealsFrom game game' ∧
           length (communityCards game') = (length (communityCards game) `max` 4)%nat.
Proof.
  intros Hn. unfold PokerGame.dealTurn.
  destruct (Nat.leb_spec 4 (length (communityCards game))).
  { exists game. split_and!; [done|apply dealsFrom_refl|lia]. }
  assert (∃ g1, (if (length (communityCards game) <? 3)%nat
                 then PokerGame.dealFlop game else Ok game) = Ok g1 ∧
                dealsFrom game g1 ∧ length (communityCards g1) = 3%nat)
    as (g1 & -> & Hd1 & Hl1).
  { destruct (Nat.ltb_spec (length (communityCards game)) 3).
    - destruct (dealFlop_spec game) as (g1 & ? & ? & ?); [lia|].
      exists g1. split_and!; [done..|lia].
    - exists game. split_and!; [done|apply dealsFrom_refl|lia]. }
  simpl. pose proof (dealsFrom_lengths _ _ Hd1).
  destruct (dealCommunity_spec g1) as (g2 & -> & Hd2 & Hl2).
  { destruct (deck g1); [simpl in *; lia|done]. }
  exists g2. split_and!; [done|by eapply dealsFrom_trans|lia].
Qed.

Lemma dealRiver_spec game :
  (5 - length (communityCards game) ≤ length (deck game))%nat →
  ∃ game', PokerGame.dealRiver game = Ok game' ∧ dealsFrom game game' ∧
           length (communityCards game') = (length (communityCards game) `max` 5)%nat.
Proof.
  intros Hn. unfold PokerGame.dealRiver.
  destruct (Nat.leb_spec 5 (length (communityCards game))).
  { exists game. split_and!; [done|apply dealsFrom_refl|lia]. }
  assert (∃ g1, (if (length (communityCards game) <? 4)%nat
                 then PokerGame.dealTurn game else Ok game) = Ok g1 ∧
                dealsFrom game g1 ∧ length (communityCards g1) = 4%nat)
    as (g1 & -> & Hd1 & Hl1).
  { destruct (Nat.ltb_spec (length (communityCards game)) 4).
    - destruct (dealTurn_spec game) as (g1 & ? & ? & ?); [lia|].
      exists g1. split_and!; [done..|lia].
    - exists game. split_and!; [done|apply dealsFrom_refl|lia]. }
  simpl. pose proof (dealsFrom_lengths _ _ Hd1).
  destruct (dealCommunity_spec g1) as (g2 & -> & Hd2 & Hl2).
  { destruct (deck g1); [simpl in *; lia|done]. }
  exists g2. split_and!; [done|by eapply dealsFrom_trans|lia].
Qed.

Lemma completeBoard_full game :
  (5 ≤ length (communityCards game))%nat →
  PokerGame.completeBoard game = Ok game.
Proof.
  intros Hn. unfold PokerGame.completeBoard, PokerGame.dealRiver.
  by destruct (Nat.leb_spec 5 (length (communityCards game))); [|lia].
Qed.

(** ** Setting up a trial *)

Lemma initialize_spec hole board g :
  NoDup (hole ++ board) → (length (hole ++ board) ≤ 50)%nat →
  ∃ game g',
    PokerGame.initialize hole board g = Ok (game, g') ∧
    botHoleCards game = hole ∧ communityCards game = board ∧
    length (opponentHoleCards game) = 2%nat ∧
    allCards game ≡ₚ Deck.reset.
Proof.
  intros Hnd Hlen. unfold PokerGame.initialize.
  rewrite <- foldl_app.
  set (deck2 := foldl _ Deck.reset (hole ++ board)).
  assert (Hp : Deck.reset ≡ₚ (hole ++ board) ++ deck2).
  { apply removeCards_perm; [done|]. intros c _. apply elem_of_reset. }
  assert (Hl2 : (length deck2 = 52 - length (hole ++ board))%nat).
  { apply Permutation_length in Hp. rewrite length_app, reset_length in Hp. lia. }
  destruct (shuffle_spec deck2 g) as (deck3 & g' & -> & Hp3).
  { intros Hnil. rewrite Hnil in Hl2. simpl in Hl2. lia. }
  simpl. pose proof (Permutation_length Hp3) as Hl3.
  destruct (deal_spec_nonempty deck3) as (o1 & deck4 & -> & Hd3).
  { intros Hnil. rewrite Hnil in Hl3. simpl in Hl3. lia. }
  simpl. rewrite Hd3, length_app in Hl3. simpl in Hl3.
  destruct (deal_spec_nonempty deck4) as (o2 & deck5 & -> & Hd4).
  { intros Hnil. rewrite Hnil in Hl3. simpl in Hl3. lia. }
  simpl. eexists _, _. split; [done|]. split_and!; [done..|].
  unfold allCards. simpl. rewrite Hp, <- Hp3, Hd3, Hd4. solve_Permutation.
Qed.

(** ** One simulation trial *)

Lemma evaluate_seven cards g :
  length cards = 7%nat → NoDup cards →
  ∃ ev, HandEvaluator.evaluateComplete cards = Ok ev ∧
        HandEvaluator.evaluate cards g = Ok (ev, g).
Proof.
  intros Hlen Hnd. destruct (evaluateComplete_defined cards Hnd) as [ev Hev].
  exists ev. split; [done|]. unfold HandEvaluator.evaluate.
  rewrite Hlen. simpl. by rewrite Hev.
Qed.

Lemma knownHand_board_length hole board :
  knownHand hole board → (length board ≤ 5)%nat.
Proof.
  intros (_ & Hb & _). repeat (apply elem_of_cons in Hb as [->|Hb]; [lia|]).
  by apply elem_of_nil in Hb.
Qed.

Lemma runSingleSimulation_spec bot g :
  knownHand (myCards bot) (community bot) →
  ∃ won gm g' botEval opponentEval,
    PokerBot.runSingleSimulation bot g
    = Ok (won,
          mkBot gm (myCards bot) (community bot)
                (totalRuns bot) (winningRuns bot) (rootNode bot),
          g') ∧
    botHoleCards gm = myCards bot ∧
    length (opponentHoleCards gm) = 2%nat ∧
    length (communityCards gm) = 5%nat ∧
    community bot `prefix_of` communityCards gm ∧
    allCards gm ≡ₚ Deck.reset ∧
    HandEvaluator.evaluateComplete (PokerGame.botHand gm) = Ok botEval ∧
    HandEvaluator.evaluateComplete (PokerGame.opponentHand gm) = Ok opponentEval ∧
    won = eval_gt botEval opponentEval.
Proof.
  intros Hknown. pose proof (knownHand_board_length _ _ Hknown) as Hboard.
  destruct Hknown as (Hhole & _ & Hnd).
  unfold PokerBot.runSingleSimulation.
  destruct (initialize_spec (myCards bot) (community bot) g Hnd)
    as (g1 & rng1 & -> & Hb1 & Hc1 & Ho1 & Hall1).
  { rewrite length_app. lia. }
  simpl.
  pose proof (Permutation_length Hall1) as Hlen1.
  unfold allCards in Hlen1. rewrite !length_app, reset_length in Hlen1.
  rewrite Hb1, Hc1, Ho1, Hhole in Hlen1.
  destruct (dealRiver_spec g1) as (g2 & Hriver & Hd2 & Hl2).
  { rewrite Hc1. lia. }
  unfold PokerGame.completeBoard at 1. rewrite Hriver. simpl.
  rewrite Hc1 in Hl2.
  replace (length (community bot) `max` 5)%nat with 5%nat in Hl2 by lia.
  unfold PokerGame.isWinner. rewrite completeBoard_full by lia. simpl.
  pose proof (dealsFrom_allCards _ _ Hd2) as Hall2. rewrite Hall1 in Hall2.
  assert (NoDup (allCards g2)) as Hnd2 by (rewrite Hall2; apply reset_NoDup).
  destruct Hd2 as (Hb2 & Ho2 & new & Hc2 & _).
  rewrite Hb1 in Hb2. rewrite Hc1 in Hc2.
  assert (length (opponentHoleCards g2) = 2%nat) as Hol2 by (by rewrite Ho2).
  destruct (evaluate_seven (PokerGame.botHand g2) rng1) as (botEval & HbE & ->).
  { unfold PokerGame.botHand. rewrite length_app, Hb2, Hhole, Hl2. done. }
  { apply (sublist_NoDup _ (allCards g2)); [done|].
    unfold PokerGame.botHand, allCards.
    apply sublist_inserts_l, sublist_app; [done|]. by apply sublist_inserts_l. }
  simpl.
  destruct (evaluate_seven (PokerGame.opponentHand g2) rng1) as (oppEval & HoE & ->).
  { unfold PokerGame.opponentHand. rewrite length_app, Hol2, Hl2. done. }
  { apply (sublist_NoDup _ (allCards g2)); [done|].
    unfold PokerGame.opponentHand, allCards.
    by do 2 apply sublist_inserts_l. }
  simpl. exists (eval_gt botEval oppEval), g2, rng1, botEval, oppEval.
  split_and!; try done. rewrite Hc2. by apply prefix_app_r.
Qed.

(** C4.  In a trial started from two hole cards and a board of 0, 3, 4
    or 5 cards, all distinct, the simulation runs to its end and the nine
    cards it uses (the two hole cards, the two opponent cards drawn and
    the five board cards, which extend the known board) are pairwise
    distinct cards of the 52-card deck; together with the 43 cards left
    in the deck they are exactly the 52 cards. *)
Theorem trial_cards_distinct (bot : PokerBot) (g : Rng) :
  knownHand (myCards bot) (community bot) →
  ∃ won bot' g',
    PokerBot.runSingleSimulation bot g = Ok (won, bot', g') ∧
    botHoleCards (game bot') = myCards bot ∧
    length (opponentHoleCards (game bot')) = 2%nat ∧
    length (communityCards (game bot')) = 5%nat ∧
    community bot `prefix_of` communityCards (game bot') ∧
    length (cardsInPlay (game bot')) = 9%nat ∧
    NoDup (cardsInPlay (game bot')) ∧
    (∀ c, c ∈ cardsInPlay (game bot') → c ∈ Deck.reset) ∧
    deck (game bot') ++ cardsInPlay (game bot') ≡ₚ Deck.reset ∧
    length (deck (game bot')) = 43%nat.
Proof.
  intros Hknown.
  destruct (runSingleSimulation_spec bot g Hknown)
    as (won & gm & g' & _ & _ & -> & Hb & Ho & Hc & Hpre & Hall & _).
  eexists won, _, g'. split; [done|]. simpl.
  destruct Hknown as (Hhole & _).
  assert (length (cardsInPlay gm) = 9%nat) as Hnine.
  { unfold cardsInPlay. rewrite !length_app, Hb, Ho, Hc, Hhole. done. }
  split_and!; try done.
  - apply (sublist_NoDup _ (allCards gm)).
    + rewrite Hall. apply reset_NoDup.
    + by apply (sublist_inserts_l (deck gm)).
  - intros c _. apply elem_of_reset.
  - apply Permutation_length in Hall. unfold allCards in Hall.
    fold (cardsInPlay gm) in Hall.
    rewrite length_app, Hnine, reset_length in Hall. lia.
Qed.

Lemma trial_cards_distinct_witness :
  ∃ won bot' g',
    PokerBot.runSingleSimulation idleBot rng0 = Ok (won, bot', g') ∧
    botHoleCards (game bot') = myCards idleBot ∧
    length (opponentHoleCards (game bot')) = 2%nat ∧
    length (communityCards (game bot')) = 5%nat ∧
    community idleBot `prefix_of` communityCards (game bot') ∧
    length (cardsInPlay (game bot')) = 9%nat ∧
    NoDup (cardsInPlay (game bot')) ∧
    (∀ c, c ∈ cardsInPlay (game bot') → c ∈ Deck.reset) ∧
    deck (game bot') ++ cardsInPlay (game bot') ≡ₚ Deck.reset ∧
    length (deck (game bot')) = 43%nat.
Proof.
  apply (trial_cards_distinct idleBot rng0).
  split_and!; [reflexivity | left | apply (bool_decide_unpack _); by vm_compute].
Defined.

(** ** Recording a trial *)

Lemma tiebreakers_gt_irrefl xs : tiebreakers_gt xs xs = false.
Proof. induction xs as [|x xs IH]; simpl; [done|]. by rewrite Z.eqb_refl. Qed.

Lemma tiebreakers_gt_asym xs ys :
  tiebreakers_gt xs ys = true → tiebreakers_gt ys xs = false.
Proof.
  revert ys. induction xs as [|x xs IH]; intros [|y ys]; simpl; try done.
  rewrite (Z.eqb_sym y x).
  destruct (Z.eqb_spec x y) as [->|Hne]; simpl; [apply IH|].
  rewrite Z.gtb_gt. intros Hgt. apply not_true_is_false. rewrite Z.gtb_gt. lia.
Qed.

Lemma eval_gt_irrefl a : eval_gt a a = false.
Proof.
  unfold eval_gt. rewrite bool_decide_eq_true_2 by done. simpl.
  apply tiebreakers_gt_irrefl.
Qed.

Lemma eval_gt_asym a b : eval_gt a b = true → eval_gt b a = false.
Proof.
  unfold eval_gt.
  rewrite (bool_decide_ext (rank b = rank a) (rank a = rank b)) by done.
  case_bool_decide; simpl; [apply tiebreakers_gt_asym|].
  rewrite Z.gtb_gt. intros Hgt. apply not_true_is_false. rewrite Z.gtb_gt. lia.
Qed.

(** Whatever the known cards are, a trial that returns reports the
    comparison of the two evaluations it computed, and leaves the
    counters as they were. *)
Lemma runSingleSimulation_inv bot g won bot' g' :
  PokerBot.runSingleSimulation bot g = Ok (won, bot', g') →
  ∃ gm g1 g2 botEval opponentEval,
    bot' = mkBot gm (myCards bot) (community bot)
                 (totalRuns bot) (winningRuns bot) (rootNode bot) ∧
    HandEvaluator.evaluate (PokerGame.botHand gm) g1 = Ok (botEval, g2) ∧
    HandEvaluator.evaluate (PokerGame.opponentHand gm) g2
      = Ok (opponentEval, g') ∧
    won = eval_gt botEval opponentEval.
Proof.
  unfold PokerBot.runSingleSimulation.
  destruct (PokerGame.initialize _ _ _) as [[gm1 g1]|]; simpl; [|done].
  destruct (PokerGame.completeBoard gm1) as [gm2|]; simpl; [|done].
  unfold PokerGame.isWinner.
  destruct (PokerGame.completeBoard gm2) as [gm3|]; simpl; [|done].
  destruct (HandEvaluator.evaluate (PokerGame.botHand gm3) g1)
    as [[botEval g2]|] eqn:Hb; simpl; [|done].
  destruct (HandEvaluator.evaluate (PokerGame.opponentHand gm3) g2)
    as [[oppEval g3]|] eqn:Ho; simpl; [|done].
  intros [= <- <- <-]. by exists gm3, g1, g2, botEval, oppEval.
Qed.

Lemma recordTrial_win_iff won bot :
  let after := PokerBot.recordTrial won bot in
  totalRuns after = totalRuns bot + 1 ∧
  visits (rootNode after) = visits (rootNode bot) + 1 ∧
  (winningRuns after = winningRuns bot + 1 ↔ won = true) ∧
  (winningRuns after = winningRuns bot ↔ won = false) ∧
  (wins (rootNode after) = wins (rootNode bot) + 1 ↔ won = true) ∧
  (wins (rootNode after) = wins (rootNode bot) ↔ won = false).
Proof. destruct won; simpl; split_and!; (done || lia || (split; (done || lia))). Qed.

Lemma runMCTS_loop_step msTimeLimit elapsedMs later bot g won bot' g' :
  elapsedMs < msTimeLimit →
  PokerBot.runSingleSimulation bot g = Ok (won, bot', g') →
  PokerBot.runMCTS_loop msTimeLimit (elapsedMs :: later) bot g
  = PokerBot.runMCTS_loop msTimeLimit later (PokerBot.recordTrial won bot') g'.
Proof.
  intros Hlt Hrun. simpl. destruct (Z.geb_spec elapsedMs msTimeLimit); [lia|].
  by rewrite Hrun.
Qed.

(** The loop of [runMCTS] on a known hand: one trial for each reading of
    the clock below the limit, each recorded, and the exit at the first
    reading that has reached it. *)
Lemma runMCTS_loop_trials msTimeLimit before now later bot g :
  knownHand (myCards bot) (community bot) →
  Forall (λ t, t < msTimeLimit) before → msTimeLimit ≤ now →
  ∃ trials bot' g',
    trialsOfRun (length before) bot g = Ok (trials, bot', g') ∧
    PokerBot.runMCTS_loop msTimeLimit (before ++ now :: later) bot g
    = Some (Ok (bot', g')) ∧
    length trials = length before ∧
    totalRuns bot' = totalRuns bot + Z.of_nat (length trials) ∧
    visits (rootNode bot') = visits (rootNode bot) + Z.of_nat (length trials) ∧
    winningRuns bot' = winningRuns bot + winsAmong trials ∧
    wins (rootNode bot') = wins (rootNode bot) + winsAmong trials ∧
    Forall wonByEvaluation trials.
Proof.
  intros Hknown Hbefore Hnow. revert bot g Hknown.
  induction Hbefore as [|t before Ht _ IH]; intros bot g Hknown.
  - exists [], bot, g. simpl.
    destruct (Z.geb_spec now msTimeLimit); [|lia].
    unfold winsAmong. simpl.
    split_and!; [done|done|done|lia|lia|lia|lia|constructor].
  - destruct (runSingleSimulation_spec bot g Hknown)
      as (won & gm & g1 & botEval & oppEval & Hrun & _ & _ & _ & _ & _ &
          HbE & HoE & Hwon).
    simpl app. rewrite (runMCTS_loop_step _ _ _ _ _ _ _ _ Ht Hrun).
    cbn [length trialsOfRun]. rewrite Hrun. simpl.
    destruct (IH (PokerBot.recordTrial won
                    (mkBot gm (myCards bot) (community bot) (totalRuns bot)
                           (winningRuns bot) (rootNode bot))) g1 Hknown)
      as (trials & bot' & g' & -> & -> & Hl & Ht' & Hv' & Hw' & Hn' & Hall).
    simpl. exists ((won, gm) :: trials), bot', g'.
    simpl in Ht', Hv', Hw', Hn'.
    assert (winsAmong ((won, gm) :: trials)
            = (if won then 1 else 0) + winsAmong trials) as Hcount.
    { unfold winsAmong. rewrite filter_cons. simpl. destruct won; simpl; lia. }
    split_and!; [done|done|simpl; by rewrite Hl|simpl; lia|simpl; lia| | |].
    + rewrite Hw', Hcount. destruct won; lia.
    + rewrite Hn', Hcount. destruct won; simpl; lia.
    + constructor; [|done]. exists botEval, oppEval. simpl.
      split_and!; [done|done|by rewrite Hwon| |].
      * intros ->%eval_eq_true. rewrite Hwon. apply eval_gt_irrefl.
      * intros Hloss%eval_gt_asym. by rewrite Hwon.
Qed.

(** C7.  A trial that returns reports a win exactly when the subject's
    evaluation is greater than the opponent's under [operator>]; when the
    two evaluations are equal, or the opponent's is greater, it reports no
    win.  On a known hand the trial does return, and the evaluations are
    those of the two seven-card hands.  A run on a known hand plays one
    trial for each reading of the clock below the limit, fewer than 2^31
    so that the [int] counters do not overflow, and returns at the first
    reading that has reached it: the runs recorded are the trials played,
    the wins recorded are the trials in which the subject's evaluation
    was greater, and a tied trial is counted like a lost one. *)
Theorem trial_win_iff_strictly_greater (bot : PokerBot) (g : Rng) :
  (∀ won bot' g',
     PokerBot.runSingleSimulation bot g = Ok (won, bot', g') →
     ∃ g1 g2 botEval opponentEval,
       HandEvaluator.evaluate (PokerGame.botHand (game bot')) g1
         = Ok (botEval, g2) ∧
       HandEvaluator.evaluate (PokerGame.opponentHand (game bot')) g2
         = Ok (opponentEval, g') ∧
       (won = true ↔ eval_gt botEval opponentEval = true) ∧
       (eval_eq botEval opponentEval = true → won = false) ∧
       (eval_gt opponentEval botEval = true → won = false)) ∧
  (knownHand (myCards bot) (community bot) →
   ∃ won bot' g' botEval opponentEval,
     PokerBot.runSingleSimulation bot g = Ok (won, bot', g') ∧
     HandEvaluator.evaluateComplete (PokerGame.botHand (game bot'))
       = Ok botEval ∧
     HandEvaluator.evaluateComplete (PokerGame.opponentHand (game bot'))
       = Ok opponentEval ∧
     won = eval_gt botEval opponentEval) ∧
  (knownHand (myCards bot) (community bot) →
   ∀ msTimeLimit before now later,
     Forall (λ t, t < msTimeLimit) before → msTimeLimit ≤ now →
     Z.of_nat (length before) < 2 ^ 31 →
     ∃ trials p bot' g',
       PokerBot.runMCTS msTimeLimit (before ++ now :: later) bot g
       = Some (Ok (p, bot', g')) ∧
       trialsOfRun (length before)
         (mkBot (game bot) (myCards bot) (community bot) 0 0 MCTSNode.init) g
       = Ok (trials, bot', g') ∧
       length trials = length before ∧
       Forall wonByEvaluation trials ∧
       totalRuns bot' = Z.of_nat (length trials) ∧
       MCTSNode.getVisits (rootNode bot') = Z.of_nat (length trials) ∧
       winningRuns bot' = winsAmong trials ∧
       MCTSNode.getWins (rootNode bot') = winsAmong trials).
Proof.
  split_and!.
  - intros won bot' g' Hrun.
    destruct (runSingleSimulation_inv _ _ _ _ _ Hrun)
      as (gm & g1 & g2 & botEval & oppEval & -> & Hb & Ho & Hwon).
    exists g1, g2, botEval, oppEval. split_and!; [done..| | |].
    + by rewrite Hwon.
    + intros ->%eval_eq_true. rewrite Hwon. apply eval_gt_irrefl.
    + intros Hloss%eval_gt_asym. by rewrite Hwon.
  - intros Hknown.
    destruct (runSingleSimulation_spec bot g Hknown)
      as (won & gm & g' & botEval & oppEval & Hrun & _ & _ & _ & _ & _ &
          HbE & HoE & Hwon).
    by eexists won, _, g', botEval, oppEval.
  - intros Hknown msTimeLimit before now later Hbefore Hnow _.
    unfold PokerBot.runMCTS.
    destruct (runMCTS_loop_trials msTimeLimit before now later
                (mkBot (game bot) (myCards bot) (community bot) 0 0
                       MCTSNode.init) g Hknown Hbefore Hnow)
      as (trials & bot' & g' & Htrials & -> & Hl & Ht & Hv & Hw & Hn & Hall).
    simpl in Ht, Hv, Hw, Hn.
    eexists trials, _, bot', g'.
    unfold MCTSNode.getVisits, MCTSNode.getWins.
    split_and!; [done|done|done|done|lia..].
Qed.

Lemma trial_win_iff_strictly_greater_witness :
  (∃ won bot' g' botEval opponentEval,
     PokerBot.runSingleSimulation idleBot rng0 = Ok (won, bot', g') ∧
     HandEvaluator.evaluateComplete (PokerGame.botHand (game bot'))
       = Ok botEval ∧
     HandEvaluator.evaluateComplete (PokerGame.opponentHand (game bot'))
       = Ok opponentEval ∧
     won = eval_gt botEval opponentEval) ∧
  (∃ trials p bot' g',
     PokerBot.runMCTS 10 ([0; 4] ++ 11 :: [15]) idleBot rng0
     = Some (Ok (p, bot', g')) ∧
     trialsOfRun (length [0; 4])
       (mkBot (game idleBot) (myCards idleBot) (community idleBot) 0 0
              MCTSNode.init) rng0
     = Ok (trials, bot', g') ∧
     length trials = length [0; 4] ∧
     Forall wonByEvaluation trials ∧
     totalRuns bot' = Z.of_nat (length trials) ∧
     MCTSNode.getVisits (rootNode bot') = Z.of_nat (length trials) ∧
     winningRuns bot' = winsAmong trials ∧
     MCTSNode.getWins (rootNode bot') = winsAmong trials).
Proof.
  assert (knownHand (myCards idleBot) (community idleBot)) as Hknown.
  { split; [done|]. split; apply (bool_decide_unpack _); by vm_compute. }
  destruct (trial_win_iff_strictly_greater idleBot rng0) as (_ & Htrial & Hrun).
  split; [exact (Htrial Hknown)|].
  apply (Hrun Hknown 10 [0; 4] 11 [15]).
  - repeat constructor; lia.
  - lia.
  - simpl. lia.
Defined.

(** A board on which both players play the same five cards: the trial is
    a tie and is recorded as no win. *)
Lemma tie_is_no_win :
  let board := [mkCard CLUBS ACE; mkCard DIAMONDS KING; mkCard HEARTS QUEEN;
                mkCard SPADES JACK; mkCard CLUBS TEN] in
  let botEval := mkEval STRAIGHT [14] in
  HandEvaluator.evaluateComplete
    ([mkCard CLUBS TWO; mkCard DIAMONDS THREE] ++ board) = Ok botEval ∧
  HandEvaluator.evaluateComplete
    ([mkCard HEARTS TWO; mkCard SPADES THREE] ++ board) = Ok botEval ∧
  eval_eq botEval botEval = true ∧ eval_gt botEval botEval = false.
Proof. by vm_compute. Qed.

(** ** Two pair *)

Lemma resolve_TWO_PAIR vc hasFlush flushCards hasStraight h hasSF sfh :
  let ev := HandEvaluator.resolve vc hasFlush flushCards hasStraight h hasSF sfh in
  rank ev = TWO_PAIR →
  tiebreakers ev
  = HandEvaluator.idx (HandEvaluator.pairsOf vc) 0
    :: HandEvaluator.idx (HandEvaluator.pairsOf vc) 1
    :: take 1 (HandEvaluator.highCardsOf vc) ∧
  (2 ≤ length (HandEvaluator.pairsOf vc))%nat ∧
  HandEvaluator.tripsOf vc = [] ∧ HandEvaluator.quadsOf vc = [].
Proof.
  unfold HandEvaluator.resolve.
  destruct (hasSF && (sfh =? 14)); [done|]. destruct hasSF; [done|].
  destruct (HandEvaluator.quadsOf vc); [|done].
  destruct (HandEvaluator.tripsOf vc) as [|t0 [|t1 trips]],
    (HandEvaluator.pairsOf vc) as [|p0 [|p1 pairs]]; simpl;
    destruct hasFlush; try done; destruct hasStraight; try done.
  intros _. split_and!; [done|lia|done..].
Qed.

Lemma ranksDesc_sorted : StronglySorted Z.ge HandEvaluator.ranksDesc.
Proof.
  unfold HandEvaluator.ranksDesc.
  repeat (apply SSorted_cons; [|repeat constructor; lia]). constructor.
Qed.

Lemma filter_sorted_head (P : Z → Prop) `{!∀ x, Decision (P x)} l x rest :
  StronglySorted Z.ge l → filter P l = x :: rest →
  highestRank (λ r, P r ∧ r ∈ l) x.
Proof.
  intros Hs. induction Hs as [|a l Hs IH Hall]; [done|].
  rewrite filter_cons. case_decide as Ha.
  - intros [= <- <-]. split; [split; [done|left]|].
    intros r [_ [->|Hr]%elem_of_cons]; [lia|].
    eapply Forall_forall in Hall; [|done]. lia.
  - intros [[HP Hx] Hmax]%IH. split; [split; [done|by right]|].
    intros r [HPr [->|Hr]%elem_of_cons]; [done|]. by apply Hmax.
Qed.

(** What the evaluator returns for two pair: the two highest paired ranks,
    then the highest rank that occurs exactly once. *)
Lemma two_pair_tiebreakers cards ev :
  NoDup cards → length cards = 7%nat →
  HandEvaluator.evaluateComplete cards = Ok ev → rank ev = TWO_PAIR →
  ∃ p0 p1 k, tiebreakers ev = [p0; p1; k] ∧
    highestRank (λ r, countRank cards r = 2%nat) p0 ∧
    highestRank (λ r, countRank cards r = 2%nat ∧ r ≠ p0) p1 ∧
    highestRank (λ r, countRank cards r = 1%nat) k.
Proof.
  intros Hnd Hlen Hev Hrank.
  apply evaluateComplete_inv in Hev as (hf & s & hs & h & sf & sfh & _ & _ & _ & ->).
  apply resolve_TWO_PAIR in Hrank as (-> & Hp & Ht & Hq).
  pose proof (rank_group_sizes cards Hnd) as Hsum. simpl in Hsum.
  rewrite Ht, Hq, Hlen in Hsum. simpl in Hsum.
  unfold HandEvaluator.pairsOf in *.
  destruct (HandEvaluator.sortDesc _) as [|p0 [|p1 pairs]] eqn:Ep;
    [simpl in Hp; lia..|].
  unfold HandEvaluator.highCardsOf, HandEvaluator.ranksWithCount in *.
  destruct (filter _ HandEvaluator.ranksDesc) as [|k high] eqn:Ek;
    [simpl in Hsum; lia|].
  exists p0, p1, k. split; [done|]. split_and!.
  - apply sortDesc_first in Ep. revert Ep. apply highestRank_iff.
    intros r. apply (elem_of_group_unsorted cards 2). lia.
  - apply sortDesc_second in Ep; [|apply NoDup_filter, ranksAsc_NoDup].
    revert Ep. apply highestRank_iff. intros r.
    pose proof (elem_of_group_unsorted cards 2 r ltac:(lia)) as Hg.
    split; (intros [? ?]; split; [by apply Hg|done]).
  - apply filter_sorted_head in Ek; [|apply ranksDesc_sorted].
    revert Ek. apply highestRank_iff. intros r. split.
    + intros [Hc Hr]. rewrite valueCounts_at in Hc; [lia|].
      rewrite ranksDesc_reverse, elem_of_reverse in Hr.
      by eapply Forall_forall in Hr; [|apply ranksAsc_nonneg].
    + intros Hc.
      assert (r ∈ HandEvaluator.ranksAsc) as Hr
        by (apply (countRank_pos_rank cards); lia).
      split; [|by rewrite ranksDesc_reverse, elem_of_reverse].
      rewrite valueCounts_at; [lia|].
      by eapply Forall_forall in Hr; [|apply ranksAsc_nonneg].
Qed.

(** C1.  On A-A K-K Q-Q 2 the evaluator answers TWO_PAIR with
    tiebreakers 14, 13, 2: its kicker is the single Two, although the
    highest rank outside the two pairs is the Queen of the third pair. *)
Theorem two_pair_kicker_skips_third_pair :
  HandEvaluator.evaluateComplete threePairs = Ok (mkEval TWO_PAIR [14; 13; 2]) ∧
  twoPairKicker threePairs 14 13 12 ∧
  ¬ twoPairKicker threePairs 14 13 2.
Proof.
  split; [by vm_compute|].
  assert (twoPairKicker threePairs 14 13 12) as Hk.
  { split; [split_and!; [vm_compute; lia|done..]|].
    intros r ((c & Hc & <-)%hasRank_countRank%hasRank_elem_of & H14 & H13).
    unfold threePairs in Hc.
    repeat (apply elem_of_cons in Hc as [->|Hc]; [simpl in *; lia|]).
    by apply elem_of_nil in Hc. }
  split; [done|]. intros [_ Hmax]. destruct Hk as [H12 _].
  specialize (Hmax 12 H12). lia.
Qed.

(** The slip decides showdowns: on the board A-A K-K 2, a pair of Queens
    in the hole is ranked below a Jack kicker. *)
Lemma third_pair_loses_showdown :
  let board := [mkCard CLUBS ACE; mkCard DIAMONDS ACE; mkCard CLUBS KING;
                mkCard DIAMONDS KING; mkCard CLUBS TWO] in
  let botEval := mkEval TWO_PAIR [14; 13; 2] in
  let opponentEval := mkEval TWO_PAIR [14; 13; 11] in
  HandEvaluator.evaluateComplete
    ([mkCard CLUBS QUEEN; mkCard DIAMONDS QUEEN] ++ board) = Ok botEval ∧
  HandEvaluator.evaluateComplete
    ([mkCard CLUBS JACK; mkCard DIAMONDS THREE] ++ board) = Ok opponentEval ∧
  eval_gt botEval opponentEval = false ∧ eval_gt opponentEval botEval = true.
Proof. by vm_compute. Qed.

(** ** Card text *)

Lemma parseCard_toString c : parseCard (toString c) = Ok c.
Proof. by destruct c as [[] []]. Qed.

Lemma back_append mid cl :
  back (String.append mid (String cl EmptyString)) = Some cl.
Proof.
  induction mid as [|c mid IH]; [done|]. simpl.
  destruct (String.append mid _) eqn:E; [by destruct mid|done].
Qed.

Lemma back_nonempty c rest : ∃ cl, back (String c rest) = Some cl.
Proof.
  revert c. induction rest as [|c' rest IH]; intros c; [by exists c|].
  simpl. apply (IH c').
Qed.

Lemma parseValue_defined c0 : parseValue c0 ≠ Err Undefined.
Proof. destruct c0 as [[] [] [] [] [] [] [] []]; by vm_compute. Qed.

Lemma parseSuit_defined cl : parseSuit cl ≠ Err Undefined.
Proof. destruct cl as [[] [] [] [] [] [] [] []]; by vm_compute. Qed.

Lemma parseCard_two c0 mid cl :
  parseCard (String c0 (String.append mid (String cl EmptyString)))
  = (value ← parseValue c0; suit ← parseSuit cl; Ok (mkCard suit value)).
Proof.
  unfold parseCard.
  assert ((String.length
             (String c0 (String.append mid (String cl EmptyString))) <? 2)%nat
          = false) as ->.
  { apply Nat.ltb_ge. simpl. destruct mid; simpl; lia. }
  change (String.get 0 (String c0 ?r)) with (Some c0).
  assert (back (String c0 (String.append mid (String cl EmptyString))) = Some cl)
    as ->; [|done].
  apply (back_append (String c0 mid)).
Qed.

(** X1.  Printing a card and parsing the text gives the card back, for
    each of the 52 cards. *)
Theorem parseCard_toString_roundtrip (c : Card) :
  parseCard (toString c) = Ok c.
Proof. apply parseCard_toString. Qed.

(** X2.  [parseCard] rejects every text of fewer than two characters with
    "Invalid card format"; on longer texts it reads the first character as
    the value and the last as the suit and ignores what stands between
    them, reporting a bad value before a bad suit; it never leaves defined
    behaviour. *)
Theorem parseCard_first_and_last (cardStr : string) :
  ((String.length cardStr < 2)%nat →
   parseCard cardStr = Err (runtime_error "Invalid card format")) ∧
  (∀ c0 mid cl,
     cardStr = String c0 (String.append mid (String cl EmptyString)) →
     parseCard cardStr = parseCard (String c0 (String cl EmptyString)) ∧
     (parseValue c0 = Err (runtime_error "Invalid card value") →
      parseCard cardStr = Err (runtime_error "Invalid card value")) ∧
     (∀ v s, parseValue c0 = Ok v → parseSuit cl = Ok s →
             parseCard cardStr = Ok (mkCard s v))) ∧
  parseCard cardStr ≠ Err Undefined.
Proof.
  split_and!.
  - intros Hlen. unfold parseCard. by apply Nat.ltb_lt in Hlen as ->.
  - intros c0 mid cl ->. rewrite parseCard_two. split_and!.
    + symmetry. apply (parseCard_two c0 EmptyString cl).
    + by intros ->.
    + by intros v s -> ->.
  - unfold parseCard. destruct (String.length cardStr <? 2)%nat eqn:Hlen; [done|].
    destruct cardStr as [|c0 rest]; [done|].
    destruct (back_nonempty c0 rest) as [cl ->].
    change (String.get 0 (String c0 rest)) with (Some c0). cbv beta iota.
    pose proof (parseValue_defined c0). pose proof (parseSuit_defined cl).
    destruct (parseValue c0) as [v|[]]; simpl; try done;
      destruct (parseSuit cl) as [s|[]]; simpl; done.
Qed.

Lemma parseCard_first_and_last_witness :
  parseCard "K" = Err (runtime_error "Invalid card format") ∧
  parseCard "10h" = parseCard "1h" ∧
  parseCard "10h" = Ok (mkCard HEARTS TEN).
Proof.
  destruct (parseCard_first_and_last "K") as (Hshort & _).
  destruct (parseCard_first_and_last "10h") as (_ & Hlong & _).
  destruct (Hlong "1"%char "0"%string "h"%char eq_refl) as (Hmid & _ & Hok).
  split_and!.
  - apply Hshort. simpl. lia.
  - exact Hmid.
  - apply Hok; reflexivity.
Defined.

(** ** Card indices and equality *)

Lemma suitOfInt_Some z s : suitOfInt z = Some s → z = suitInt s.
Proof.
  destruct z as [|p|p]; simpl; [by intros [= <-]| |done].
  repeat (destruct p as [p|p|]; simpl; try done); by intros [= <-].
Qed.

Lemma valueOfInt_Some z v : valueOfInt z = Some v → z = valueInt v.
Proof.
  destruct z as [|p|p]; simpl; [done| |done].
  repeat (destruct p as [p|p|]; simpl; try done); by intros [= <-].
Qed.

Lemma fromInt_Some n c : fromInt n = Some c → toInt c = n.
Proof.
  unfold fromInt, toInt.
  destruct (suitOfInt (n ÷ 13)) as [s|] eqn:Hs; [|done].
  destruct (valueOfInt (n `rem` 13 + 2)) as [v|] eqn:Hv; [|done].
  intros [= <-]. simpl.
  apply suitOfInt_Some in Hs. apply valueOfInt_Some in Hv.
  pose proof (Z.quot_rem' n 13). lia.
Qed.

(** X3.  [fromInt] yields a card exactly on the indices 0..51, and that
    card is the one [toInt] maps to the index; a negative index or one
    above 51 names no card. *)
Theorem fromInt_valid_range (n : Z) :
  (0 ≤ n ≤ 51 ↔ ∃ c, fromInt n = Some c) ∧
  (∀ c, fromInt n = Some c → toInt c = n) ∧
  (n < 0 ∨ 51 < n → fromInt n = None).
Proof.
  assert (Hin : (∃ c, fromInt n = Some c) → 0 ≤ n ≤ 51).
  { intros [c Hc%fromInt_Some]. subst n. apply toInt_range. }
  split_and!.
  - split; [|done]. intros (c & Hc & _)%toInt_fromInt. by exists c.
  - apply fromInt_Some.
  - intros Hout. destruct (fromInt n) as [c|] eqn:Hc; [|done].
    assert (0 ≤ n ≤ 51) by (apply Hin; by exists c). lia.
Qed.

Lemma fromInt_valid_range_witness :
  fromInt 52 = None ∧ fromInt (-1) = None ∧ toInt (mkCard SPADES ACE) = 51.
Proof.
  split_and!.
  - apply (proj2 (proj2 (fromInt_valid_range 52))). right. lia.
  - apply (proj2 (proj2 (fromInt_valid_range (-1)))). left. lia.
  - apply (proj1 (proj2 (fromInt_valid_range 51))). reflexivity.
Defined.

(** X4.  [cardsEqual] (equality of the integer codes) and [operator==]
    (equality of suit and value) decide the same relation: both hold
    exactly when the two cards are the same. *)
Theorem cardsEqual_agrees_with_operator_eq (a b : Card) :
  cardsEqual a b = card_eq a b ∧ (cardsEqual a b = true ↔ a = b).
Proof.
  split; [|apply cardsEqual_spec].
  apply eq_true_iff_eq. rewrite cardsEqual_spec. unfold card_eq.
  rewrite andb_true_iff, !bool_decide_eq_true.
  destruct a, b; simpl. split; [by intros [= -> ->]|by intros [-> ->]].
Qed.

(** ** The fresh deck, removal and shuffling *)

Lemma reset_lookup c : Deck.reset !! Z.to_nat (toInt c) = Some c.
Proof. by destruct c as [[] []]. Qed.

(** X5.  A fresh deck holds each of the 52 cards exactly once, and each
    card stands at the position given by its integer code. *)
Theorem reset_full_deck :
  length Deck.reset = 52%nat ∧ NoDup Deck.reset ∧
  (∀ c, c ∈ Deck.reset) ∧
  (∀ c, Deck.reset !! Z.to_nat (toInt c) = Some c).
Proof.
  split_and!; [reflexivity|apply reset_NoDup|apply elem_of_reset|apply reset_lookup].
Qed.

Lemma removeCard_sublist card cards :
  Deck.removeCard card cards `sublist_of` cards.
Proof.
  induction cards as [|c cards IH]; simpl; [done|].
  destruct (cardsEqual c card); [by apply sublist_cons|by apply sublist_skip].
Qed.

Lemma removeCard_NoDup card cards :
  NoDup cards → NoDup (Deck.removeCard card cards) ∧ card ∉ Deck.removeCard card cards.
Proof.
  intros Hnd. split; [by eapply sublist_NoDup, removeCard_sublist|].
  destruct (decide (card ∈ cards)) as [Hin|Hnin].
  - rewrite (removeCard_perm card cards Hin) in Hnd.
    by apply NoDup_cons in Hnd as [? _].
  - by rewrite removeCard_absent.
Qed.

(** X6.  [removeCard] leaves a deck without the card unchanged; from a deck
    with the card it takes out one copy, the first, keeping the other
    cards in order, so the size drops by one.  From a deck without
    repeats the card is gone afterwards.  [createCard] returns the card
    asked for together with the deck so reduced. *)
Theorem removeCard_spec (card : Card) (cards : list Card) :
  (card ∉ cards → Deck.removeCard card cards = cards) ∧
  (card ∈ cards →
   cards ≡ₚ card :: Deck.removeCard card cards ∧
   S (length (Deck.removeCard card cards)) = length cards) ∧
  (∀ front rest, cards = front ++ card :: rest → card ∉ front →
     Deck.removeCard card cards = front ++ rest) ∧
  Deck.removeCard card cards `sublist_of` cards ∧
  (NoDup cards →
   NoDup (Deck.removeCard card cards) ∧ card ∉ Deck.removeCard card cards) ∧
  Deck.createCard (suit card) (value card) cards
  = (card, Deck.removeCard card cards).
Proof.
  split_and!.
  - apply removeCard_absent.
  - intros Hin. pose proof (removeCard_perm card cards Hin) as Hp.
    split; [done|]. by rewrite Hp at 2.
  - intros front rest -> Hfront.
    induction front as [|c front IH]; simpl.
    + by rewrite (proj2 (cardsEqual_spec card card) eq_refl).
    + apply not_elem_of_cons in Hfront as [Hne Hfront].
      destruct (cardsEqual c card) eqn:Heq.
      * by apply cardsEqual_spec in Heq.
      * by rewrite IH.
  - apply removeCard_sublist.
  - apply removeCard_NoDup.
  - by destruct card.
Qed.

Lemma removeCard_spec_witness :
  Deck.removeCard (mkCard CLUBS THREE) Deck.reset
  = [mkCard CLUBS TWO] ++ drop 2 Deck.reset ∧
  NoDup (Deck.removeCard (mkCard CLUBS THREE) Deck.reset) ∧
  mkCard CLUBS THREE ∉ Deck.removeCard (mkCard CLUBS THREE) Deck.reset.
Proof.
  destruct (removeCard_spec (mkCard CLUBS THREE) Deck.reset)
    as (_ & _ & Hfirst & _ & Hnd & _).
  split.
  - apply Hfirst; [reflexivity|].
    apply (bool_decide_unpack _). by vm_compute.
  - apply Hnd. apply (bool_decide_unpack _). by vm_compute.
Defined.

Lemma shuffle_from_rng i cards g :
  rand_seq (Deck.shuffle_from i cards g).2 = rand_seq g ∧
  rand_pos (Deck.shuffle_from i cards g).2 = (rand_pos g + i)%nat.
Proof.
  revert cards g. induction i as [|i IH]; intros cards g; simpl; [split; [done|lia]|].
  match goal with
  | |- context [Deck.shuffle_from i ?c ?g'] => destruct (IH c g') as [-> ->]
  end.
  simpl. split; [done|lia].
Qed.

(** X7.  Shuffling a non-empty deck returns the same cards in some order:
    the size and the absence of repeats are kept, and a one-card deck is
    returned as it is.  It calls [std::rand] once for every card but one;
    on the empty deck it leaves defined behaviour. *)
Theorem shuffle_permutes (cards : list Card) (g : Rng) :
  (cards ≠ [] →
   ∃ cards' g',
     Deck.shuffle cards g = Ok (cards', g') ∧
     cards' ≡ₚ cards ∧ length cards' = length cards ∧
     (NoDup cards → NoDup cards') ∧
     rand_seq g' = rand_seq g ∧
     rand_pos g' = (rand_pos g + (length cards - 1))%nat) ∧
  (∀ c, cards = [c] → Deck.shuffle cards g = Ok ([c], g)) ∧
  (cards = [] → Deck.shuffle cards g = Err Undefined).
Proof.
  split_and!.
  - intros Hne. destruct cards as [|c cards]; [done|]. unfold Deck.shuffle.
    pose proof (shuffle_from_perm (length (c :: cards) - 1) (c :: cards) g) as Hp.
    pose proof (shuffle_from_rng (length (c :: cards) - 1) (c :: cards) g) as [Hs Hn].
    destruct (Deck.shuffle_from _ _ _) as [cards' g']. simpl in Hp, Hs, Hn.
    exists cards', g'. split_and!; try done.
    + by rewrite Hp.
    + by rewrite Hp.
  - by intros c ->.
  - by intros ->.
Qed.

Lemma shuffle_permutes_witness :
  ∃ cards' g',
    Deck.shuffle Deck.reset rng0 = Ok (cards', g') ∧
    cards' ≡ₚ Deck.reset ∧ length cards' = length Deck.reset ∧
    (NoDup Deck.reset → NoDup cards') ∧
    rand_seq g' = rand_seq rng0 ∧
    rand_pos g' = (rand_pos rng0 + (length Deck.reset - 1))%nat.
Proof. by apply (proj1 (shuffle_permutes Deck.reset rng0)). Defined.

Lemma shuffle_from_S i cards g :
  Deck.shuffle_from (S i) cards g
  = Deck.shuffle_from i
      (Deck.swap cards (S i) (rand_seq g (rand_pos g) `mod` (S i + 1))%nat)
      (mkRng (rand_seq g) (S (rand_pos g))).
Proof. reflexivity. Qed.

(** One round of the loop, seen on the part of the deck that is still to
    be arranged: [curP] ends up as [tgtP] when the random numbers are
    chosen suitably. *)
Lemma shuffle_from_reaches i (curP tgtP suffix : list Card) :
  length curP = S i → curP ≡ₚ tgtP →
  ∃ f : nat → nat,
    (∀ k, (f k ≤ i)%nat) ∧
    ∀ g, (∀ k, (k < i)%nat → rand_seq g (rand_pos g + k) = f k) →
         (Deck.shuffle_from i (curP ++ suffix) g).1 = tgtP ++ suffix.
Proof.
  revert curP tgtP suffix. induction i as [|i IH]; intros curP tgtP suffix Hlen Hp.
  - exists (λ _, 0%nat). split; [done|]. intros g _. simpl.
    destruct curP as [|a [|??]]; simplify_eq/=.
    apply Permutation_singleton_l in Hp. by subst.
  - destruct tgtP as [|t tgtP' _] using rev_ind.
    { apply Permutation_length in Hp. simpl in Hp. lia. }
    destruct curP as [|l curP0 _] using rev_ind; [done|].
    rewrite length_app in Hlen. simpl in Hlen.
    assert (t ∈ curP0 ++ [l]) as Ht by (rewrite Hp, elem_of_app; right; left).
    assert (∃ j curP',
      (j < S (S i))%nat ∧ curP' ≡ₚ tgtP' ∧ length curP' = S i ∧
      Deck.swap ((curP0 ++ [l]) ++ suffix) (S i) j = curP' ++ t :: suffix)
      as (j & curP' & Hj & Hp' & Hlen' & Hswap).
    { assert (((curP0 ++ [l]) ++ suffix) !! S i = Some l) as Hl.
      { rewrite <- app_assoc. rewrite lookup_app_r by lia.
        by replace (S i - length curP0)%nat with 0%nat by lia. }
      apply elem_of_app in Ht as [Ht|Ht%list_elem_of_singleton].
      - apply list_elem_of_lookup in Ht as [j Hjt].
        pose proof (lookup_lt_Some _ _ _ Hjt).
        exists j, (<[j:=l]> curP0). split_and!; [lia| |by rewrite length_insert; lia|].
        + apply (Permutation_cons_inv (a:=t)).
          rewrite (insert_swap_head curP0 j l t Hjt).
          etransitivity; [apply Permutation_cons_append|].
          rewrite Hp. symmetry. apply Permutation_cons_append.
        + unfold Deck.swap. rewrite Hl.
          rewrite <- app_assoc, (lookup_app_l _ _ j), Hjt by lia.
          replace (S i) with (length curP0 + 0)%nat by lia.
          rewrite insert_app_r. simpl. by rewrite insert_app_l by lia.
      - subst t. exists (S i), curP0. split_and!; [lia| |lia|].
        + by apply (Permutation_app_inv_r [l]).
        + unfold Deck.swap. rewrite Hl.
          rewrite !(list_insert_id _ _ _ Hl). by rewrite <- app_assoc. }
    destruct (IH curP' tgtP' (t :: suffix) Hlen' Hp') as (f' & Hbound & Hf').
    exists (λ k, match k with O => j | S k' => f' k' end).
    split; [intros [|k']; [lia|specialize (Hbound k'); lia]|].
    intros g Hg. rewrite shuffle_from_S.
    pose proof (Hg 0%nat ltac:(lia)) as Hg0. rewrite Nat.add_0_r in Hg0.
    rewrite Hg0, (Nat.mod_small j) by lia. rewrite Hswap.
    rewrite Hf'; [by rewrite <- app_assoc|].
    intros k Hk. simpl. specialize (Hg (S k) ltac:(lia)).
    by replace (rand_pos g + S k)%nat with (S (rand_pos g + k)) in Hg by lia.
Qed.

(** X8.  Every arrangement of a non-empty deck is the outcome of
    [shuffle] for some values returned by [std::rand], all of them
    smaller than the number of cards. *)
Theorem shuffle_reaches_every_order (cards target : list Card) :
  cards ≠ [] → target ≡ₚ cards →
  ∃ g g', (∀ k, (rand_seq g k < length cards)%nat) ∧
          Deck.shuffle cards g = Ok (target, g').
Proof.
  intros Hne Hp. destruct cards as [|c cards]; [done|]. clear Hne.
  destruct (shuffle_from_reaches (length cards) (c :: cards) target [])
    as (f & Hbound & Hf); [done|done|].
  exists (mkRng f 0). unfold Deck.shuffle.
  replace (length (c :: cards) - 1)%nat with (length cards) by (simpl; lia).
  specialize (Hf (mkRng f 0) ltac:(done)). rewrite !app_nil_r in Hf.
  destruct (Deck.shuffle_from _ _ _) as [cards' g']. simpl in Hf. subst cards'.
  exists g'. split; [|done]. intros k. specialize (Hbound k). simpl. lia.
Qed.

Lemma shuffle_reaches_every_order_witness :
  ∃ g g',
    (∀ k, (rand_seq g k
           < length [mkCard CLUBS TWO; mkCard HEARTS KING; mkCard SPADES ACE])%nat) ∧
    Deck.shuffle [mkCard CLUBS TWO; mkCard HEARTS KING; mkCard SPADES ACE] g
    = Ok ([mkCard SPADES ACE; mkCard CLUBS TWO; mkCard HEARTS KING], g').
Proof.
  apply shuffle_reaches_every_order; [done|].
  apply (Permutation_cons_append [_; _]).
Defined.

(** ** Dealing steps, failing and succeeding *)

Lemma dealCommunity_fail game :
  deck game = [] → PokerGame.dealCommunity game = Err DeckExhausted.
Proof. unfold PokerGame.dealCommunity. by intros ->. Qed.

Lemma dealCommunityTimes_fail n game :
  (length (deck game) < n)%nat →
  PokerGame.dealCommunityTimes n game = Err DeckExhausted.
Proof.
  revert game. induction n as [|n IH]; intros game Hn; [lia|]. simpl.
  destruct (decide (deck game = [])) as [Hnil|Hne].
  - by rewrite dealCommunity_fail.
  - destruct (dealCommunity_spec game Hne) as (g1 & -> & Hd & Hl). simpl.
    apply IH. apply dealsFrom_lengths in Hd. lia.
Qed.

Lemma dealFlop_dealsUpTo game : dealsUpTo 3 game (PokerGame.dealFlop game).
Proof.
  split_and!.
  - intros Hn. unfold PokerGame.dealFlop.
    by destruct (Nat.leb_spec 3 (length (communityCards game))); [|lia].
  - intros Hlt Hdeck. destruct (dealFlop_spec game Hdeck) as (g' & ? & ? & ?).
    exists g'. split_and!; [done..|lia].
  - intros Hlt Hdeck. unfold PokerGame.dealFlop.
    destruct (Nat.leb_spec 3 (length (communityCards game))); [lia|].
    by apply dealCommunityTimes_fail.
Qed.

Lemma dealTurn_dealsUpTo game : dealsUpTo 4 game (PokerGame.dealTurn game).
Proof.
  split_and!.
  - intros Hn. unfold PokerGame.dealTurn.
    by destruct (Nat.leb_spec 4 (length (communityCards game))); [|lia].
  - intros Hlt Hdeck. destruct (dealTurn_spec game Hdeck) as (g' & ? & ? & ?).
    exists g'. split_and!; [done..|lia].
  - intros Hlt Hdeck. unfold PokerGame.dealTurn.
    destruct (Nat.leb_spec 4 (length (communityCards game))); [lia|].
    destruct (Nat.ltb_spec (length (communityCards game)) 3).
    + destruct (dealFlop_dealsUpTo game) as (_ & Hok & Hfail).
      destruct (decide (length (deck game) < 3 - length (communityCards game))%nat).
      * by rewrite Hfail.
      * destruct Hok as (g1 & -> & Hd & Hl); [lia..|]. simpl.
        apply dealCommunity_fail. apply dealsFrom_lengths in Hd.
        destruct (deck g1); [done|simpl in *; lia].
    + simpl. apply dealCommunity_fail.
      destruct (deck game); [done|simpl in *; lia].
Qed.

Lemma dealRiver_dealsUpTo game : dealsUpTo 5 game (PokerGame.dealRiver game).
Proof.
  split_and!.
  - intros Hn. unfold PokerGame.dealRiver.
    by destruct (Nat.leb_spec 5 (length (communityCards game))); [|lia].
  - intros Hlt Hdeck. destruct (dealRiver_spec game Hdeck) as (g' & ? & ? & ?).
    exists g'. split_and!; [done..|lia].
  - intros Hlt Hdeck. unfold PokerGame.dealRiver.
    destruct (Nat.leb_spec 5 (length (communityCards game))); [lia|].
    destruct (Nat.ltb_spec (length (communityCards game)) 4).
    + destruct (dealTurn_dealsUpTo game) as (_ & Hok & Hfail).
      destruct (decide (length (deck game) < 4 - length (communityCards game))%nat).
      * by rewrite Hfail.
      * destruct Hok as (g1 & -> & Hd & Hl); [lia..|]. simpl.
        apply dealCommunity_fail. apply dealsFrom_lengths in Hd.
        destruct (deck g1); [done|simpl in *; lia].
    + simpl. apply dealCommunity_fail.
      destruct (deck game); [done|simpl in *; lia].
Qed.

(** X9.  [dealFlop], [dealTurn] and [dealRiver] bring the board to 3, 4
    and 5 cards: a board that has that many cards already is left as it
    is; a shorter one is filled up with cards popped from the end of the
    deck, the hole cards staying untouched; and when the deck holds too
    few cards the call throws "No cards left in the deck".
    [completeBoard] is [dealRiver], and running it twice is running it
    once. *)
Theorem board_dealing_steps (game : PokerGame) :
  dealsUpTo 3 game (PokerGame.dealFlop game) ∧
  dealsUpTo 4 game (PokerGame.dealTurn game) ∧
  dealsUpTo 5 game (PokerGame.dealRiver game) ∧
  PokerGame.completeBoard game = PokerGame.dealRiver game ∧
  (∀ game', PokerGame.completeBoard game = Ok game' →
            PokerGame.completeBoard game' = Ok game').
Proof.
  split_and!; [apply dealFlop_dealsUpTo|apply dealTurn_dealsUpTo|
               apply dealRiver_dealsUpTo|done|].
  intros game' Hc. apply completeBoard_full.
  destruct (dealRiver_dealsUpTo game) as (Hfull & Hok & Hfail).
  unfold PokerGame.completeBoard in Hc.
  destruct (decide (5 ≤ length (communityCards game))%nat) as [Hge|Hlt].
  - rewrite Hfull in Hc by done. by simplify_eq.
  - destruct (decide (5 - length (communityCards game) ≤ length (deck game))%nat).
    + destruct Hok as (g1 & Hg1 & _ & Hl); [lia..|]. rewrite Hg1 in Hc.
      simplify_eq. lia.
    + rewrite Hfail in Hc by lia. done.
Qed.

Lemma board_dealing_steps_witness :
  (∃ game', PokerGame.dealFlop (mkGame Deck.reset [] [] []) = Ok game' ∧
            dealsFrom (mkGame Deck.reset [] [] []) game' ∧
            length (communityCards game') = 3%nat) ∧
  PokerGame.dealRiver (mkGame [mkCard CLUBS TWO; mkCard CLUBS THREE] [] [] [])
  = Err DeckExhausted.
Proof.
  destruct (board_dealing_steps (mkGame Deck.reset [] [] [])) as ((_ & Hok & _) & _).
  destruct (board_dealing_steps
              (mkGame [mkCard CLUBS TWO; mkCard CLUBS THREE] [] [] []))
    as (_ & _ & (_ & _ & Hfail) & _).
  split; [apply Hok|apply Hfail]; simpl; lia.
Defined.

(** ** Setting up a game *)

Lemma shuffle_spec_rng cards g :
  cards ≠ [] →
  ∃ cards' g',
    Deck.shuffle cards g = Ok (cards', g') ∧ cards' ≡ₚ cards ∧
    rand_seq g' = rand_seq g ∧
    rand_pos g' = (rand_pos g + (length cards - 1))%nat.
Proof.
  intros Hne. destruct cards as [|c cards]; [done|]. unfold Deck.shuffle.
  destruct (Deck.shuffle_from _ _ _) as [cards' g'] eqn:Hs.
  exists cards', g'. split; [done|].
  pose proof (shuffle_from_perm (length (c :: cards) - 1) (c :: cards) g) as Hp.
  pose proof (shuffle_from_rng (length (c :: cards) - 1) (c :: cards) g) as Hr.
  rewrite Hs in Hp, Hr. simpl in Hp, Hr. done.
Qed.

Lemma elem_of_removeCard x card cards :
  NoDup cards → x ∈ Deck.removeCard card cards ↔ x ∈ cards ∧ x ≠ card.
Proof.
  intros Hnd. destruct (decide (card ∈ cards)) as [Hin|Hnin].
  - pose proof (removeCard_perm card cards Hin) as Hp.
    destruct (removeCard_NoDup card cards Hnd) as [_ Hgone].
    split.
    + intros Hx. split; [rewrite Hp; by right|]. by intros ->.
    + intros [Hx Hne]. rewrite Hp in Hx.
      by apply elem_of_cons in Hx as [?|?].
  - rewrite removeCard_absent by done. split; [|by intros [? _]].
    intros Hx. split; [done|]. by intros ->.
Qed.

Lemma length_removeCard card cards :
  (length cards ≤ S (length (Deck.removeCard card cards)))%nat.
Proof.
  induction cards as [|c cards IH]; simpl; [lia|].
  destruct (cardsEqual c card); simpl; lia.
Qed.

(** Removing a list of cards, repeats allowed, from a deck without
    repeats. *)
Lemma removeCards_spec known cards :
  NoDup cards →
  NoDup (foldl (λ d c, Deck.removeCard c d) cards known) ∧
  (∀ x, x ∈ foldl (λ d c, Deck.removeCard c d) cards known
        ↔ x ∈ cards ∧ x ∉ known) ∧
  (length cards
   ≤ length known + length (foldl (λ d c, Deck.removeCard c d) cards known))%nat.
Proof.
  revert cards. induction known as [|k known IH]; intros cards Hnd; simpl.
  - split_and!; [done| |lia]. intros x. split; [|by intros [? _]].
    intros Hx. split; [done|]. apply not_elem_of_nil.
  - destruct (removeCard_NoDup k cards Hnd) as [Hnd' _].
    destruct (IH _ Hnd') as (IH1 & IH2 & IH3).
    split_and!; [done| |].
    + intros x. rewrite IH2, elem_of_removeCard, not_elem_of_cons by done.
      tauto.
    + pose proof (length_removeCard k cards). lia.
Qed.

(** X10.  [initialize(known)] sets up a trial whenever at most 50 cards
    are known, whether or not a known card is listed twice: the bot's
    hole cards and the board are the known cards as given, the opponent
    gets two cards, and the opponent's cards together with the cards
    left in the deck are exactly the cards that are not known, each
    once.  With 51 distinct known cards the second opponent card cannot
    be dealt, with 52 the empty deck is shuffled. *)
Theorem initialize_deals_unknown_cards (hole board : list Card) (g : Rng) :
  ((length (hole ++ board) ≤ 50)%nat →
   ∃ game g',
     PokerGame.initialize hole board g = Ok (game, g') ∧
     botHoleCards game = hole ∧ communityCards game = board ∧
     length (opponentHoleCards game) = 2%nat ∧
     NoDup (deck game ++ opponentHoleCards game) ∧
     (∀ c, c ∈ deck game ++ opponentHoleCards game ↔ c ∉ hole ++ board)) ∧
  (NoDup (hole ++ board) → length (hole ++ board) = 51%nat →
   PokerGame.initialize hole board g = Err DeckExhausted) ∧
  (NoDup (hole ++ board) → length (hole ++ board) = 52%nat →
   PokerGame.initialize hole board g = Err Undefined).
Proof.
  unfold PokerGame.initialize. rewrite <- foldl_app.
  set (deck2 := foldl _ Deck.reset (hole ++ board)).
  split_and!.
  - intros Hlen.
    destruct (removeCards_spec (hole ++ board) Deck.reset reset_NoDup)
      as (Hnd2 & Hin2 & Hl2).
    fold deck2 in Hnd2, Hin2, Hl2. rewrite reset_length in Hl2.
    destruct (shuffle_spec deck2 g) as (deck3 & g' & -> & Hp3).
    { intros Hnil. rewrite Hnil in Hl2. simpl in Hl2. lia. }
    simpl. pose proof (Permutation_length Hp3) as Hl3.
    destruct (deal_spec_nonempty deck3) as (o1 & deck4 & -> & Hd3).
    { intros Hnil. rewrite Hnil in Hl3. simpl in Hl3. lia. }
    simpl. rewrite Hd3, length_app in Hl3. simpl in Hl3.
    destruct (deal_spec_nonempty deck4) as (o2 & deck5 & -> & Hd4).
    { intros Hnil. rewrite Hnil in Hl3. simpl in Hl3. lia. }
    simpl. eexists _, _. split; [done|]. split_and!; [done..| |]; simpl.
    + assert (deck5 ++ [o1; o2] ≡ₚ deck2) as ->; [|done].
      rewrite <- Hp3, Hd3, Hd4. solve_Permutation.
    + intros c. assert (deck5 ++ [o1; o2] ≡ₚ deck2) as ->.
      { rewrite <- Hp3, Hd3, Hd4. solve_Permutation. }
      rewrite Hin2. pose proof (elem_of_reset c). tauto.
  - intros Hnd Hlen.
    assert (Hp : Deck.reset ≡ₚ (hole ++ board) ++ deck2).
    { apply removeCards_perm; [done|]. intros c _. apply elem_of_reset. }
    apply Permutation_length in Hp. rewrite length_app, reset_length, Hlen in Hp.
    destruct deck2 as [|c [|??]]; simpl in Hp; [lia| |lia]. reflexivity.
  - intros Hnd Hlen.
    assert (Hp : Deck.reset ≡ₚ (hole ++ board) ++ deck2).
    { apply removeCards_perm; [done|]. intros c _. apply elem_of_reset. }
    apply Permutation_length in Hp. rewrite length_app, reset_length, Hlen in Hp.
    destruct deck2 as [|c ?]; simpl in Hp; [|lia]. reflexivity.
Qed.

Lemma initialize_deals_unknown_cards_witness :
  ∃ game g',
    PokerGame.initialize [mkCard SPADES ACE; mkCard SPADES ACE]
                         [mkCard HEARTS KING] rng0 = Ok (game, g') ∧
    botHoleCards game = [mkCard SPADES ACE; mkCard SPADES ACE] ∧
    communityCards game = [mkCard HEARTS KING] ∧
    length (opponentHoleCards game) = 2%nat ∧
    NoDup (deck game ++ opponentHoleCards game) ∧
    (∀ c, c ∈ deck game ++ opponentHoleCards game
          ↔ c ∉ [mkCard SPADES ACE; mkCard SPADES ACE] ++ [mkCard HEARTS KING]).
Proof.
  apply (proj1 (initialize_deals_unknown_cards
                  [mkCard SPADES ACE; mkCard SPADES ACE]
                  [mkCard HEARTS KING] rng0)).
  simpl. lia.
Defined.

(** X11.  [initialize()] never fails: it deals two cards to the bot and
    two to the opponent from a shuffled full deck, leaves the board empty
    and 48 cards in the deck, and the four cards dealt together with the
    deck are the 52 cards, each once.  The shuffle makes 51 calls of
    [std::rand]. *)
Theorem initialize0_spec (g : Rng) :
  ∃ game g',
    PokerGame.initialize0 g = Ok (game, g') ∧
    length (botHoleCards game) = 2%nat ∧
    length (opponentHoleCards game) = 2%nat ∧
    communityCards game = [] ∧
    length (deck game) = 48%nat ∧
    allCards game ≡ₚ Deck.reset ∧
    NoDup (cardsInPlay game) ∧
    rand_seq g' = rand_seq g ∧ rand_pos g' = (rand_pos g + 51)%nat.
Proof.
  unfold PokerGame.initialize0.
  destruct (shuffle_spec_rng Deck.reset g) as (deck1 & g' & -> & Hp & Hseq & Hpos);
    [done|].
  simpl. pose proof (Permutation_length Hp) as Hl. rewrite reset_length in Hl.
  destruct (deal_spec_nonempty deck1) as (b1 & deck2 & -> & Hd1).
  { intros Hnil. by rewrite Hnil in Hl. }
  simpl. rewrite Hd1, length_app in Hl. simpl in Hl.
  destruct (deal_spec_nonempty deck2) as (b2 & deck3 & -> & Hd2).
  { intros Hnil. rewrite Hnil in Hl. simpl in Hl. lia. }
  simpl. rewrite Hd2, length_app in Hl. simpl in Hl.
  destruct (deal_spec_nonempty deck3) as (o1 & deck4 & -> & Hd3).
  { intros Hnil. rewrite Hnil in Hl. simpl in Hl. lia. }
  simpl. rewrite Hd3, length_app in Hl. simpl in Hl.
  destruct (deal_spec_nonempty deck4) as (o2 & deck5 & -> & Hd4).
  { intros Hnil. rewrite Hnil in Hl. simpl in Hl. lia. }
  simpl. rewrite Hd4, length_app in Hl. simpl in Hl.
  assert (Hall : deck5 ++ [b1; b2] ++ [o1; o2] ++ [] ≡ₚ Deck.reset).
  { rewrite <- Hp, Hd1, Hd2, Hd3, Hd4. solve_Permutation. }
  eexists _, _. split; [done|]. simpl.
  split_and!; [done|done|done|lia|done| |done|by rewrite Hpos].
  unfold cardsInPlay. simpl.
  pose proof reset_NoDup as Hnd. rewrite <- Hall in Hnd.
  by apply NoDup_app in Hnd as (_ & _ & ?).
Qed.

(** ** Evaluating fewer than seven cards *)

Lemma fillHand_spec k hand cards :
  (k ≤ length cards)%nat →
  ∃ drawn rest,
    HandEvaluator.fillHand k hand cards = Ok (hand ++ drawn) ∧
    cards = rest ++ reverse drawn ∧ length drawn = k.
Proof.
  revert hand cards. induction k as [|k IH]; intros hand cards Hk; simpl.
  - exists [], cards. by rewrite !app_nil_r.
  - destruct (deal_spec_nonempty cards) as (c & cards' & -> & Hc).
    { intros ->. simpl in Hk. lia. }
    simpl. destruct (IH (hand ++ [c]) cards') as (drawn & rest & -> & Hr & Hl).
    { rewrite Hc, length_app in Hk. simpl in Hk. lia. }
    exists (c :: drawn), rest. split_and!.
    + by rewrite <- app_assoc.
    + rewrite Hc, Hr, reverse_cons. by rewrite app_assoc.
    + simpl. by rewrite Hl.
Qed.

(** X12.  [evaluate] on fewer than seven distinct cards completes the
    hand with cards drawn from a shuffled deck of the other cards: it
    returns the evaluation of the given cards followed by the drawn
    ones, seven distinct cards in all, and the shuffle calls [std::rand]
    once for every card of that deck but one.  On seven cards it is
    [evaluateComplete], and no random number is used. *)
Theorem evaluate_completes_short_hand (cards : list Card) (g : Rng) :
  (NoDup cards → (length cards < 7)%nat →
   ∃ drawn ev g',
     HandEvaluator.evaluate cards g = Ok (ev, g') ∧
     HandEvaluator.evaluateComplete (cards ++ drawn) = Ok ev ∧
     length (cards ++ drawn) = 7%nat ∧ NoDup (cards ++ drawn) ∧
     rand_seq g' = rand_seq g ∧
     rand_pos g' = (rand_pos g + (51 - length cards))%nat) ∧
  (length cards = 7%nat →
   HandEvaluator.evaluate cards g
   = (ev ← HandEvaluator.evaluateComplete cards; Ok (ev, g))).
Proof.
  split.
  - intros Hnd Hlen. unfold HandEvaluator.evaluate.
    destruct (Nat.eqb_spec (length cards) 7) as [|_]; [lia|]. simpl.
    set (tempDeck := foldl _ Deck.reset cards).
    assert (Hp : Deck.reset ≡ₚ cards ++ tempDeck).
    { apply removeCards_perm; [done|]. intros c _. apply elem_of_reset. }
    assert (Hl : (length tempDeck = 52 - length cards)%nat).
    { apply Permutation_length in Hp. rewrite length_app, reset_length in Hp. lia. }
    destruct (shuffle_spec_rng tempDeck g) as (d & g' & -> & Hpd & Hseq & Hpos).
    { intros Hnil. rewrite Hnil in Hl. simpl in Hl. lia. }
    simpl. pose proof (Permutation_length Hpd) as Hld.
    destruct (fillHand_spec (7 - length cards) cards d)
      as (drawn & rest & -> & Hd & Hdl); [lia|].
    simpl.
    assert (Hnd' : NoDup (cards ++ drawn)).
    { pose proof reset_NoDup as Hr. rewrite Hp, <- Hpd, Hd in Hr.
      rewrite reverse_Permutation in Hr.
      eapply (sublist_NoDup _ _ Hr).
      apply sublist_app; [done|]. by apply sublist_inserts_l. }
    destruct (evaluateComplete_defined _ Hnd') as [ev Hev]. rewrite Hev. simpl.
    exists drawn, ev, g'. split_and!; [done|done| |done|done|].
    + rewrite length_app. lia.
    + rewrite Hpos, Hl. lia.
  - intros Hlen. unfold HandEvaluator.evaluate. by rewrite Hlen.
Qed.

Lemma evaluate_completes_short_hand_witness :
  ∃ drawn ev g',
    HandEvaluator.evaluate [mkCard SPADES ACE; mkCard HEARTS ACE] rng0
    = Ok (ev, g') ∧
    HandEvaluator.evaluateComplete
      ([mkCard SPADES ACE; mkCard HEARTS ACE] ++ drawn) = Ok ev ∧
    length ([mkCard SPADES ACE; mkCard HEARTS ACE] ++ drawn) = 7%nat ∧
    NoDup ([mkCard SPADES ACE; mkCard HEARTS ACE] ++ drawn) ∧
    rand_seq g' = rand_seq rng0 ∧
    rand_pos g'
    = (rand_pos rng0 + (51 - length [mkCard SPADES ACE; mkCard HEARTS ACE]))%nat.
Proof.
  apply (proj1 (evaluate_completes_short_hand
                  [mkCard SPADES ACE; mkCard HEARTS ACE] rng0)).
  - apply (bool_decide_unpack _). by vm_compute.
  - simpl. lia.
Defined.

(** ** The order on evaluations, without assumptions on the lengths *)

Lemma tiebreakers_gt_trans xs ys zs :
  tiebreakers_gt xs ys = true → tiebreakers_gt ys zs = true →
  tiebreakers_gt xs zs = true.
Proof.
  revert ys zs. induction xs as [|x xs IH]; intros [|y ys] [|z zs]; simpl;
    try done.
  destruct (Z.eqb_spec x y) as [->|Hxy]; simpl.
  - destruct (Z.eqb_spec y z) as [->|Hyz]; simpl; [apply IH|done].
  - rewrite Z.gtb_gt. intros Hgt.
    destruct (Z.eqb_spec y z) as [->|Hyz]; simpl.
    + intros _. destruct (Z.eqb_spec x z); simpl; [done|]. by apply Z.gtb_gt.
    + rewrite Z.gtb_gt. intros Hgt'.
      destruct (Z.eqb_spec x z); simpl; [lia|]. apply Z.gtb_gt. lia.
Qed.

Lemma eval_gt_trans a b c :
  eval_gt a b = true → eval_gt b c = true → eval_gt a c = true.
Proof.
  unfold eval_gt.
  destruct (decide (rank a = rank b)) as [Hab|Hab],
           (decide (rank b = rank c)) as [Hbc|Hbc].
  - rewrite !bool_decide_eq_true_2 by congruence. simpl.
    apply tiebreakers_gt_trans.
  - rewrite (bool_decide_eq_true_2 (rank a = rank b)) by done.
    rewrite !bool_decide_eq_false_2 by congruence. simpl.
    intros _. by rewrite Hab.
  - rewrite (bool_decide_eq_true_2 (rank b = rank c)) by done.
    rewrite !bool_decide_eq_false_2 by congruence. simpl.
    intros ? _. by rewrite <- Hbc.
  - rewrite (bool_decide_eq_false_2 (rank a = rank b)) by done.
    rewrite (bool_decide_eq_false_2 (rank b = rank c)) by done. simpl.
    rewrite !Z.gtb_gt. intros H1 H2.
    rewrite bool_decide_eq_false_2; simpl; [apply Z.gtb_gt; lia|].
    intros Hac. rewrite Hac in H1. lia.
Qed.

Lemma tiebreakers_gt_neither xs ys :
  tiebreakers_gt xs ys = false ∧ tiebreakers_gt ys xs = false
  ↔ take (length ys) xs = take (length xs) ys.
Proof.
  revert ys. induction xs as [|x xs IH]; intros [|y ys]; simpl; try done.
  rewrite (Z.eqb_sym y x).
  destruct (Z.eqb_spec x y) as [->|Hxy]; simpl.
  - rewrite IH. split; [by intros ->|by intros [=]].
  - split; [|by intros [=]].
    intros [H1 H2]. rewrite Z.gtb_ltb in H1, H2.
    apply Z.ltb_ge in H1, H2. lia.
Qed.

Lemma eval_gt_neither a b :
  eval_gt a b = false ∧ eval_gt b a = false
  ↔ rank a = rank b ∧
    take (length (tiebreakers b)) (tiebreakers a)
    = take (length (tiebreakers a)) (tiebreakers b).
Proof.
  unfold eval_gt.
  rewrite (bool_decide_ext (rank b = rank a) (rank a = rank b)) by done.
  case_bool_decide as Hr; simpl.
  - rewrite tiebreakers_gt_neither. split; [by intros ?|by intros [_ ?]].
  - split; [|by intros [? _]].
    intros [H1 H2]. rewrite Z.gtb_ltb in H1, H2. apply Z.ltb_ge in H1, H2.
    destruct Hr. apply rankInt_inj. lia.
Qed.

(** Exactly one of the three relations holds, unless the categories
    agree, the lengths differ and the shorter sequence is an initial part
    of the longer one. *)
Lemma exactlyOne_iff a b :
  exactlyOne a b ↔
  ¬ (rank a = rank b ∧
     length (tiebreakers a) ≠ length (tiebreakers b) ∧
     take (length (tiebreakers b)) (tiebreakers a)
     = take (length (tiebreakers a)) (tiebreakers b)).
Proof.
  split.
  - intros Hone (Hr & Hlen & Ht).
    destruct (proj2 (eval_gt_neither a b) (conj Hr Ht)) as [Hab Hba].
    assert (eval_eq a b = false) as Heq.
    { apply not_true_is_false. intros ->%eval_eq_true. done. }
    destruct Hone as [(? & _)|[(_ & ? & _)|(_ & _ & ?)]]; congruence.
  - intros Hgap.
    destruct (decide (rank a = rank b
                      ∧ length (tiebreakers a) ≠ length (tiebreakers b)))
      as [[Hr Hlen]|Hsame].
    + assert (eval_eq a b = false) as Heq.
      { apply not_true_is_false. intros ->%eval_eq_true. done. }
      destruct (eval_gt a b) eqn:Hab.
      * left. split_and!; [done|by apply eval_gt_asym|done].
      * destruct (eval_gt b a) eqn:Hba; [right; left; done|].
        destruct Hgap. split; [done|]. split; [done|].
        by apply eval_gt_neither.
    + apply eval_trichotomy. intros Hr.
      destruct (decide (length (tiebreakers a) = length (tiebreakers b)));
        [done|]. destruct Hsame. done.
Qed.

(** C6, amended.  For any two evaluations exactly one of [a > b],
    [b > a], [a == b] holds, unless their categories agree, their
    tiebreaker sequences have different lengths and the shorter one is an
    initial part of the longer one; in that case none of the three
    holds.  [a > b] means a higher category or, in the same category, a
    greater element at the first position where the sequences differ;
    and [a == b] means that category and sequence coincide. *)
Theorem eval_total_order_on_equal_lengths (a b : HandEvaluation) :
  (exactlyOne a b ↔
     ¬ (rank a = rank b ∧
        length (tiebreakers a) ≠ length (tiebreakers b) ∧
        take (length (tiebreakers b)) (tiebreakers a)
        = take (length (tiebreakers a)) (tiebreakers b))) ∧
  ((rank a = rank b → length (tiebreakers a) = length (tiebreakers b)) →
   exactlyOne a b) ∧
  (rank a = rank b ∧
   length (tiebreakers a) ≠ length (tiebreakers b) ∧
   take (length (tiebreakers b)) (tiebreakers a)
   = take (length (tiebreakers a)) (tiebreakers b) →
   eval_gt a b = false ∧ eval_gt b a = false ∧ eval_eq a b = false) ∧
  (eval_gt a b = true ↔
     rankInt (rank a) > rankInt (rank b) ∨
     (rank a = rank b ∧
      ∃ x y, firstDifference (tiebreakers a) (tiebreakers b) x y ∧ x > y)) ∧
  (eval_eq a b = true ↔ a = b).
Proof.
  split_and!.
  - apply exactlyOne_iff.
  - apply eval_trichotomy.
  - intros (Hr & Hlen & Ht).
    destruct (proj2 (eval_gt_neither a b) (conj Hr Ht)) as [Hab Hba].
    split_and!; [done..|].
    apply not_true_is_false. intros ->%eval_eq_true. done.
  - apply eval_gt_lexicographic.
  - apply eval_eq_true.
Qed.

Lemma eval_total_order_on_equal_lengths_witness :
  let a := mkEval PAIR [5] in
  let b := mkEval PAIR [6; 3] in
  (exactlyOne a b ↔
     ¬ (rank a = rank b ∧
        length (tiebreakers a) ≠ length (tiebreakers b) ∧
        take (length (tiebreakers b)) (tiebreakers a)
        = take (length (tiebreakers a)) (tiebreakers b))) ∧
  ((rank a = rank b → length (tiebreakers a) = length (tiebreakers b)) →
   exactlyOne a b) ∧
  (rank a = rank b ∧
   length (tiebreakers a) ≠ length (tiebreakers b) ∧
   take (length (tiebreakers b)) (tiebreakers a)
   = take (length (tiebreakers a)) (tiebreakers b) →
   eval_gt a b = false ∧ eval_gt b a = false ∧ eval_eq a b = false) ∧
  (eval_gt a b = true ↔
     rankInt (rank a) > rankInt (rank b) ∨
     (rank a = rank b ∧
      ∃ x y, firstDifference (tiebreakers a) (tiebreakers b) x y ∧ x > y)) ∧
  (eval_eq a b = true ↔ a = b).
Proof.
  apply (eval_total_order_on_equal_lengths (mkEval PAIR [5]) (mkEval PAIR [6; 3])).
Defined.

(** X13.  [operator>] is a strict partial order on all evaluations,
    whatever the lengths of their tiebreaker sequences: nothing is
    greater than itself, two evaluations are never greater than one
    another, and the relation is transitive.  Two evaluations are
    ordered neither way exactly when their categories agree and the
    shorter tiebreaker sequence is an initial part of the longer one;
    [operator==] holds for them only when the lengths agree as well. *)
Theorem eval_gt_strict_order (a b c : HandEvaluation) :
  eval_gt a a = false ∧
  (eval_gt a b = true → eval_gt b a = false) ∧
  (eval_gt a b = true → eval_gt b c = true → eval_gt a c = true) ∧
  (eval_gt a b = false ∧ eval_gt b a = false
   ↔ rank a = rank b ∧
     take (length (tiebreakers b)) (tiebreakers a)
     = take (length (tiebreakers a)) (tiebreakers b)) ∧
  (eval_eq a b = true
   ↔ eval_gt a b = false ∧ eval_gt b a = false ∧
     length (tiebreakers a) = length (tiebreakers b)).
Proof.
  assert (Hgap : eval_gt a b = false ∧ eval_gt b a = false
     ↔ rank a = rank b ∧
       take (length (tiebreakers b)) (tiebreakers a)
       = take (length (tiebreakers a)) (tiebreakers b)).
  { unfold eval_gt.
    rewrite (bool_decide_ext (rank b = rank a) (rank a = rank b)) by done.
    case_bool_decide as Hr; simpl.
    - rewrite tiebreakers_gt_neither. split; [by intros ?|by intros [_ ?]].
    - split; [|by intros [? _]].
      intros [H1 H2]. rewrite Z.gtb_ltb in H1, H2. apply Z.ltb_ge in H1, H2.
      destruct Hr. apply rankInt_inj. lia. }
  split_and!.
  - apply eval_gt_irrefl.
  - apply eval_gt_asym.
  - apply eval_gt_trans.
  - done.
  - rewrite eval_eq_true. split.
    + intros ->. by rewrite eval_gt_irrefl.
    + intros (H1 & H2 & Hlen).
      destruct (proj1 Hgap (conj H1 H2)) as [Hr Ht].
      rewrite Hlen, firstn_all in Ht. rewrite <- Hlen, firstn_all in Ht.
      destruct a, b; simpl in *. by subst.
Qed.

(** ** The counters of a node and the verdict *)

Lemma update_counts (outcomes : list bool) (node : MCTSNode) :
  let node' := foldl (λ n w, MCTSNode.update w n) node outcomes in
  visits node' = visits node + Z.of_nat (length outcomes) ∧
  wins node' = wins node + Z.of_nat (length (filter (λ w, w = true) outcomes)).
Proof.
  revert node. induction outcomes as [|w outcomes IH]; intros node.
  - simpl. lia.
  - cbn [foldl length]. destruct (IH (MCTSNode.update w node)) as [-> ->].
    rewrite filter_cons. destruct w; simpl; lia.
Qed.

Lemma getWinProbability_range node :
  0 ≤ wins node ≤ visits node →
  (0 <= MCTSNode.getWinProbability node)%Q ∧
  (MCTSNode.getWinProbability node <= 1)%Q.
Proof.
  intros Hw. unfold MCTSNode.getWinProbability.
  destruct (Z.eqb_spec (visits node) 0); [done|].
  destruct (visits node) as [|p|p]; [done| |lia].
  unfold Qle, Qdiv, Qmult, Qinv, inject_Z. simpl. lia.
Qed.

Lemma shouldStay_iff bot :
  0 ≤ visits (rootNode bot) →
  PokerBot.shouldStay bot = true
  ↔ 0 < visits (rootNode bot) ∧ visits (rootNode bot) ≤ 2 * wins (rootNode bot).
Proof.
  intros Hv. unfold PokerBot.shouldStay, PokerBot.getWinProbability,
    MCTSNode.getWinProbability, WIN_PROBABILITY_THRESHOLD.
  rewrite Qle_bool_iff.
  destruct (Z.eqb_spec (visits (rootNode bot)) 0) as [Hz|Hz].
  - rewrite Hz. unfold Qle. simpl. lia.
  - destruct (visits (rootNode bot)) as [|p|p]; [done| |lia].
    unfold Qle, Qdiv, Qmult, Qinv, inject_Z. simpl. lia.
Qed.

(** X14.  A node updated once for each of a sequence of outcomes, fewer
    than 2^31 so that the [int] counters do not overflow, has counted
    the outcomes as visits and the winning ones as wins; its win
    probability is the fraction of wins, lies between 0 and 1, and is 0
    for the empty sequence. *)
Theorem node_counts_outcomes (outcomes : list bool) :
  Z.of_nat (length outcomes) < 2 ^ 31 →
  let node := foldl (λ n w, MCTSNode.update w n) MCTSNode.init outcomes in
  MCTSNode.getVisits node = Z.of_nat (length outcomes) ∧
  MCTSNode.getWins node
  = Z.of_nat (length (filter (λ w, w = true) outcomes)) ∧
  0 ≤ MCTSNode.getWins node ≤ MCTSNode.getVisits node ∧
  (0 <= MCTSNode.getWinProbability node)%Q ∧
  (MCTSNode.getWinProbability node <= 1)%Q ∧
  (outcomes = [] → MCTSNode.getWinProbability node = 0%Q) ∧
  (outcomes ≠ [] →
   MCTSNode.getWinProbability node
   = (inject_Z (MCTSNode.getWins node) / inject_Z (MCTSNode.getVisits node))%Q).
Proof.
  intros _ node. unfold MCTSNode.getVisits, MCTSNode.getWins.
  destruct (update_counts outcomes MCTSNode.init) as [Hv Hw].
  fold node in Hv, Hw. simpl in Hv, Hw.
  assert (Hrange : 0 ≤ wins node ≤ visits node).
  { rewrite Hv, Hw. pose proof (length_filter (λ w, w = true) outcomes). lia. }
  split_and!; [lia|lia|lia|lia|by apply getWinProbability_range..| |].
  - by intros ->.
  - intros Hne. unfold MCTSNode.getWinProbability.
    destruct (Z.eqb_spec (visits node) 0) as [Hz|]; [|done].
    destruct outcomes; [done|]. simpl in Hv. lia.
Qed.

Lemma node_counts_outcomes_witness :
  let node :=
    foldl (λ n w, MCTSNode.update w n) MCTSNode.init [true; false; true] in
  MCTSNode.getVisits node = Z.of_nat (length [true; false; true]) ∧
  MCTSNode.getWins node
  = Z.of_nat (length (filter (λ w, w = true) [true; false; true])) ∧
  0 ≤ MCTSNode.getWins node ≤ MCTSNode.getVisits node ∧
  (0 <= MCTSNode.getWinProbability node)%Q ∧
  (MCTSNode.getWinProbability node <= 1)%Q ∧
  ([true; false; true] = [] → MCTSNode.getWinProbability node = 0%Q) ∧
  ([true; false; true] ≠ [] →
   MCTSNode.getWinProbability node
   = (inject_Z (MCTSNode.getWins node) / inject_Z (MCTSNode.getVisits node))%Q).
Proof.
  apply (node_counts_outcomes [true; false; true]). simpl. lia.
Defined.

(** X15.  With a visit count that is not negative, [shouldStay] answers
    yes exactly when some trial was run and at least half of the trials
    were won: a win rate of exactly one half stays, and so the verdict
    is STAY then and FOLD otherwise. *)
Theorem shouldStay_at_least_half (bot : PokerBot) :
  0 ≤ visits (rootNode bot) →
  (PokerBot.shouldStay bot = true
   ↔ 0 < visits (rootNode bot) ∧
     visits (rootNode bot) ≤ 2 * wins (rootNode bot)) ∧
  (PokerBot.decision bot = STAY
   ↔ 0 < visits (rootNode bot) ∧
     visits (rootNode bot) ≤ 2 * wins (rootNode bot)) ∧
  (PokerBot.decision bot = FOLD
   ↔ visits (rootNode bot) = 0 ∨
     2 * wins (rootNode bot) < visits (rootNode bot)).
Proof.
  intros Hv. pose proof (shouldStay_iff bot Hv) as Hiff.
  unfold PokerBot.decision. split_and!; [done| |].
  - rewrite <- Hiff. by destruct (PokerBot.shouldStay bot).
  - destruct (PokerBot.shouldStay bot).
    + split; [done|]. intros [?|?]; destruct (proj1 Hiff eq_refl); lia.
    + split; [|done]. intros _.
      destruct (decide (visits (rootNode bot) = 0)); [by left|right].
      destruct (decide (2 * wins (rootNode bot) < visits (rootNode bot)));
        [done|].
      assert (false = true); [|done]. apply Hiff. lia.
Qed.

Lemma shouldStay_at_least_half_witness :
  let bot := mkBot (mkGame [] [] [] []) [] [] 2 1 (mkNode 1 2) in
  (PokerBot.shouldStay bot = true
   ↔ 0 < visits (rootNode bot) ∧
     visits (rootNode bot) ≤ 2 * wins (rootNode bot)) ∧
  (PokerBot.decision bot = STAY
   ↔ 0 < visits (rootNode bot) ∧
     visits (rootNode bot) ≤ 2 * wins (rootNode bot)) ∧
  (PokerBot.decision bot = FOLD
   ↔ visits (rootNode bot) = 0 ∨
     2 * wins (rootNode bot) < visits (rootNode bot)).
Proof.
  apply (shouldStay_at_least_half
           (mkBot (mkGame [] [] [] []) [] [] 2 1 (mkNode 1 2))).
  simpl. lia.
Defined.

(** ** The loop of runMCTS *)

Lemma runMCTS_loop_counts msTimeLimit before now later bot g :
  knownHand (myCards bot) (community bot) →
  Forall (λ t, t < msTimeLimit) before → msTimeLimit ≤ now →
  ∃ bot' g' outcomes,
    PokerBot.runMCTS_loop msTimeLimit (before ++ now :: later) bot g
    = Some (Ok (bot', g')) ∧
    length outcomes = length before ∧
    totalRuns bot' = totalRuns bot + Z.of_nat (length before) ∧
    winningRuns bot'
    = winningRuns bot + Z.of_nat (length (filter (λ w, w = true) outcomes)) ∧
    rootNode bot' = foldl (λ n w, MCTSNode.update w n) (rootNode bot) outcomes ∧
    myCards bot' = myCards bot ∧ community bot' = community bot.
Proof.
  intros Hknown Hbefore Hnow. revert bot g Hknown.
  induction Hbefore as [|t before Ht _ IH]; intros bot g Hknown.
  - exists bot, g, []. simpl.
    destruct (Z.geb_spec now msTimeLimit); [|lia].
    split_and!; [done|done|lia|lia|done..].
  - destruct (runSingleSimulation_spec bot g Hknown)
      as (won & gm & g1 & ? & ? & Hrun & _).
    simpl app. rewrite (runMCTS_loop_step _ _ _ _ _ _ _ _ Ht Hrun).
    destruct (IH (PokerBot.recordTrial won
                    (mkBot gm (myCards bot) (community bot) (totalRuns bot)
                           (winningRuns bot) (rootNode bot))) g1 Hknown)
      as (bot' & g' & outcomes & -> & Hl & Ht' & Hw' & Hn' & Hm' & Hc').
    exists bot', g', (won :: outcomes). rewrite filter_cons.
    cbn [foldl length]. simpl in Ht', Hw', Hn', Hm', Hc'.
    split_and!; [done|by rewrite Hl|lia| |done..].
    rewrite Hw'. destruct won; simpl; lia.
Qed.

(** X16.  On a known hand, [runMCTS] returns at the first reading of the
    clock that has reached the limit, whatever the counters were before:
    it has then run one trial for each earlier reading, none of which
    failed; the run counter and the visits of the root agree, as do the
    win counter and the wins of the root; the wins are at most the runs;
    the value returned is the win probability of the root, between 0
    and 1; and the known cards are as before.  The readings below the
    limit are fewer than 2^31, so that the [int] counters do not
    overflow. *)
Theorem runMCTS_counts_trials (msTimeLimit : Z) (before : list Z) (now : Z)
    (later : list Z) (bot : PokerBot) (g : Rng) :
  knownHand (myCards bot) (community bot) →
  Forall (λ t, t < msTimeLimit) before → msTimeLimit ≤ now →
  Z.of_nat (length before) < 2 ^ 31 →
  ∃ p bot' g',
    PokerBot.runMCTS msTimeLimit (before ++ now :: later) bot g
    = Some (Ok (p, bot', g')) ∧
    totalRuns bot' = Z.of_nat (length before) ∧
    MCTSNode.getVisits (rootNode bot') = totalRuns bot' ∧
    MCTSNode.getWins (rootNode bot') = winningRuns bot' ∧
    0 ≤ winningRuns bot' ≤ totalRuns bot' ∧
    p = PokerBot.getWinProbability bot' ∧
    (0 <= p)%Q ∧ (p <= 1)%Q ∧
    (before ≠ [] →
     p = (inject_Z (winningRuns bot') / inject_Z (totalRuns bot'))%Q) ∧
    myCards bot' = myCards bot ∧ community bot' = community bot.
Proof.
  intros Hknown Hbefore Hnow _. unfold PokerBot.runMCTS.
  destruct (runMCTS_loop_counts msTimeLimit before now later
              (mkBot (game bot) (myCards bot) (community bot) 0 0 MCTSNode.init)
              g Hknown Hbefore Hnow)
    as (bot' & g' & outcomes & -> & Hl & Ht & Hw & Hn & Hm & Hc).
  simpl in *.
  destruct (update_counts outcomes MCTSNode.init) as [Hv Hwin].
  rewrite <- Hn in Hv, Hwin. simpl in Hv, Hwin. rewrite Hl in Hv.
  assert (Hrange : 0 ≤ wins (rootNode bot') ≤ visits (rootNode bot')).
  { rewrite Hv, Hwin. pose proof (length_filter (λ w, w = true) outcomes). lia. }
  eexists _, bot', g'. split; [done|].
  unfold MCTSNode.getVisits, MCTSNode.getWins, PokerBot.getWinProbability.
  split_and!; [lia|lia|lia|lia|lia|done|by apply getWinProbability_range..
               | |done|done].
  intros Hne. unfold MCTSNode.getWinProbability.
  destruct (Z.eqb_spec (visits (rootNode bot')) 0) as [Hz|].
  - destruct before; [done|]. simpl in Hv. lia.
  - f_equal; f_equal; lia.
Qed.

Lemma runMCTS_counts_trials_witness :
  ∃ p bot' g',
    PokerBot.runMCTS 10 ([0; 4] ++ 11 :: [15]) idleBot rng0
    = Some (Ok (p, bot', g')) ∧
    totalRuns bot' = Z.of_nat (length [0; 4]) ∧
    MCTSNode.getVisits (rootNode bot') = totalRuns bot' ∧
    MCTSNode.getWins (rootNode bot') = winningRuns bot' ∧
    0 ≤ winningRuns bot' ≤ totalRuns bot' ∧
    p = PokerBot.getWinProbability bot' ∧
    (0 <= p)%Q ∧ (p <= 1)%Q ∧
    ([0; 4] ≠ [] →
     p = (inject_Z (winningRuns bot') / inject_Z (totalRuns bot'))%Q) ∧
    myCards bot' = myCards idleBot ∧ community bot' = community idleBot.
Proof.
  apply (runMCTS_counts_trials 10 [0; 4] 11 [15] idleBot rng0).
  - split; [done|]. split; apply (bool_decide_unpack _); by vm_compute.
  - repeat constructor; lia.
  - lia.
  - simpl. lia.
Defined.

(** ** The order of the cards does not matter *)

Lemma incr_comm v i j :
  HandEvaluator.incr (HandEvaluator.incr v i) j
  = HandEvaluator.incr (HandEvaluator.incr v j) i.
Proof.
  unfold HandEvaluator.incr.
  destruct (decide (Z.to_nat i = Z.to_nat j)) as [->|Hne]; [done|].
  by apply list_alter_alter_ne.
Qed.

Lemma foldl_perm_comm {A B} (f : B → A → B) (l l' : list A) :
  (∀ b x y, f (f b x) y = f (f b y) x) →
  l ≡ₚ l' → ∀ b, foldl f b l = foldl f b l'.
Proof.
  intros Hf. induction 1 as [|x l l' _ IH|x y l|l l' l'' _ IH1 _ IH2];
    intros b; simpl.
  - done.
  - apply IH.
  - by rewrite Hf.
  - by rewrite IH1.
Qed.

Lemma valueCounts_perm cards cards' :
  cards ≡ₚ cards' →
  HandEvaluator.valueCounts cards = HandEvaluator.valueCounts cards'.
Proof.
  intros Hp. apply foldl_perm_comm; [|done]. intros. apply incr_comm.
Qed.

Lemma suitCounts_perm cards cards' :
  cards ≡ₚ cards' →
  HandEvaluator.suitCounts cards = HandEvaluator.suitCounts cards'.
Proof.
  intros Hp. apply foldl_perm_comm; [|done]. intros. apply incr_comm.
Qed.

(** Cards of one suit are told apart by their values, so the sorted
    vector of flush cards is the same for every order of the input. *)
Lemma flushCardsOf_perm_eq hasFlush s cards cards' :
  cards ≡ₚ cards' →
  HandEvaluator.flushCardsOf hasFlush s cards
  = HandEvaluator.flushCardsOf hasFlush s cards'.
Proof.
  intros Hp. destruct hasFlush; [|done]. simpl.
  apply (StronglySorted_unique_strong HandEvaluator.valueGe);
    [|apply sortCards_sorted..|].
  - intros [s1 v1] [s2 v2] H1 H2 Hge Hle.
    rewrite sortCards_perm in H1, H2.
    apply list_elem_of_filter in H1 as [Hs1 _], H2 as [Hs2 _].
    unfold HandEvaluator.valueGe in *. simpl in *.
    assert (v1 = v2) by (apply valueInt_inj; lia). congruence.
  - by rewrite !sortCards_perm, Hp.
Qed.

(** X17.  [evaluateComplete] does not depend on the order in which the
    cards are given: two arrangements of the same cards, of any number
    and with or without repeats, get the same result. *)
Theorem evaluateComplete_order_irrelevant (cards cards' : list Card) :
  cards ≡ₚ cards' →
  HandEvaluator.evaluateComplete cards = HandEvaluator.evaluateComplete cards'.
Proof.
  intros Hp. unfold HandEvaluator.evaluateComplete.
  rewrite (valueCounts_perm _ _ Hp), (suitCounts_perm _ _ Hp).
  destruct (HandEvaluator.findFlush _ _) as [hasFlush flushSuit].
  destruct (HandEvaluator.findStraight _) as [hasStraight h].
  by rewrite (flushCardsOf_perm_eq _ _ _ _ Hp).
Qed.

Lemma evaluateComplete_order_irrelevant_witness :
  HandEvaluator.evaluateComplete threePairs
  = HandEvaluator.evaluateComplete (reverse threePairs).
Proof.
  apply evaluateComplete_order_irrelevant. symmetry. apply reverse_Permutation.
Defined.

(** ** Completeness of straight-flush detection *)

Lemma countSuit_two cards s s' :
  s ≠ s' → (countSuit cards s + countSuit cards s' ≤ length cards)%nat.
Proof.
  intros Hne. unfold countSuit. induction cards as [|c cards IH]; [done|].
  rewrite !filter_cons. simpl.
  destruct (decide (suit c = s)), (decide (suit c = s')); simpl; try lia.
  congruence.
Qed.

(** In a strictly descending vector the predecessor of an entry, when it
    occurs, is the next entry. *)
Lemma descending_next (fv : list Z) (i : nat) (x : Z) :
  StronglySorted Z.ge fv → NoDup fv →
  fv !! i = Some x → x - 1 ∈ fv → fv !! S i = Some (x - 1).
Proof.
  intros Hs Hnd Hi [j Hj]%list_elem_of_lookup_1.
  destruct (decide (j ≤ i)%nat) as [Hle|Hgt].
  - destruct (decide (j = i)) as [->|Hne]; [simplify_eq; lia|].
    pose proof (sorted_NoDup_lookup_gt fv j i _ _ Hs Hnd Hj Hi). lia.
  - destruct (decide (j = S i)) as [->|Hne]; [done|].
    destruct (lookup_lt_is_Some_2 fv (S i)) as [y Hy].
    { apply lookup_lt_Some in Hj. lia. }
    pose proof (sorted_NoDup_lookup_gt fv i (S i) _ _ Hs Hnd Hi Hy).
    pose proof (sorted_NoDup_lookup_gt fv (S i) j _ _ Hs Hnd Hy Hj). lia.
Qed.

Lemma descending_run_position (fv : list Z) (h : Z) :
  StronglySorted Z.ge fv → NoDup fv →
  (∀ k, 0 ≤ k ≤ 4 → h - k ∈ fv) →
  ∃ i, fv !! i = Some h ∧ fv !! (i + 4)%nat = Some (h - 4).
Proof.
  intros Hs Hnd Hin.
  pose proof (Hin 0 ltac:(lia)) as H0. replace (h - 0) with h in H0 by lia.
  apply list_elem_of_lookup_1 in H0 as [i Hi]. exists i. split; [done|].
  pose proof (descending_next fv i h Hs Hnd Hi (Hin 1 ltac:(lia))) as H1.
  pose proof (descending_next fv _ _ Hs Hnd H1) as H2.
  replace (h - 1 - 1) with (h - 2) in H2 by lia.
  specialize (H2 (Hin 2 ltac:(lia))).
  pose proof (descending_next fv _ _ Hs Hnd H2) as H3.
  replace (h - 2 - 1) with (h - 3) in H3 by lia.
  specialize (H3 (Hin 3 ltac:(lia))).
  pose proof (descending_next fv _ _ Hs Hnd H3) as H4.
  replace (h - 3 - 1) with (h - 4) in H4 by lia.
  specialize (H4 (Hin 4 ltac:(lia))).
  by replace (i + 4)%nat with (S (S (S (S i)))) by lia.
Qed.

(** The scan stops at the first position that starts a run. *)
Lemma scanFlushValues_finds fv n start found i :
  (start ≤ i < start + n)%nat →
  HandEvaluator.idx fv i = HandEvaluator.idx fv (i + 4) + 4 →
  ∃ i0, (start ≤ i0 ≤ i)%nat ∧
        HandEvaluator.scanFlushValues fv (seq start n) found
        = (true, HandEvaluator.idx fv i0).
Proof.
  revert start. induction n as [|n IH]; intros start Hi Hrun; [lia|]. simpl.
  destruct (Z.eqb_spec (HandEvaluator.idx fv start)
                       (HandEvaluator.idx fv (start + 4) + 4)) as [Heq|Hne].
  - exists start. split; [lia|done].
  - destruct (decide (i = start)) as [->|Hne']; [done|].
    destruct (IH (S start)) as (i0 & ? & ?); [lia|done|].
    exists i0. split; [lia|done].
Qed.

Lemma straight_ranks_NoDup h :
  5 ≤ h ≤ 14 → NoDup ((λ k, aceLow (h - k)) <$> [0; 1; 2; 3; 4]).
Proof.
  intros Hh. unfold aceLow. simpl.
  repeat match goal with
  | |- context [?a =? 1] => destruct (Z.eqb_spec a 1)
  end;
  repeat (apply NoDup_cons; split;
          [rewrite ?elem_of_cons, elem_of_nil; lia|]);
  apply NoDup_nil_2.
Qed.

Lemma straightAt_ranks cards h k :
  straightAt cards h = true → k ∈ [0; 1; 2; 3; 4] →
  hasRank cards (aceLow (h - k)) = true.
Proof.
  unfold straightAt. rewrite forallb_forall. intros Hall Hk.
  by apply Hall, list_elem_of_In.
Qed.

(** A straight needs five cards. *)
Lemma straightAt_length cards h :
  5 ≤ h ≤ 14 → straightAt cards h = true → (5 ≤ length cards)%nat.
Proof.
  intros Hh Hs.
  rewrite <- (length_fmap (λ c, valueInt (value c))).
  change 5%nat with (length ((λ k, aceLow (h - k)) <$> [0; 1; 2; 3; 4])).
  apply submseteq_length, NoDup_submseteq; [by apply straight_ranks_NoDup|].
  intros r (k & -> & Hk)%list_elem_of_fmap.
  by apply hasRank_values, straightAt_ranks.
Qed.

(** Every straight flush in the flush suit is found, and the one
    reported is at least as high. *)
Lemma findStraightFlush_complete cards s hasStraight hh h' :
  NoDup cards → 5 ≤ h' ≤ 14 → straightFlushAt cards s h' = true →
  ∃ sfh,
    HandEvaluator.findStraightFlush true
      (HandEvaluator.flushCardsOf true s cards) hasStraight hh = Ok (true, sfh) ∧
    h' ≤ sfh.
Proof.
  intros Hnd Hh' Hsf. unfold HandEvaluator.findStraightFlush, straightFlushAt in *.
  rewrite andb_true_l.
  destruct (flushValues_NoDup cards s Hnd) as (Huniq & Hvnd & Hvlen).
  set (fc := HandEvaluator.flushCardsOf true s cards) in *.
  assert (Hfc : fc ≡ₚ filter (λ c, suit c = s) cards) by apply flushCardsOf_perm.
  rewrite <- (straightAt_perm _ _ _ Hfc) in Hsf.
  pose proof (straightAt_length fc h' Hh' Hsf) as Hlen.
  destruct (Nat.leb_spec 5 (length fc)); [|lia].
  destruct (_ && HandEvaluator.isRoyal fc).
  { exists 14. split; [done|lia]. }
  rewrite Huniq. clear Huniq.
  set (values := HandEvaluator.sortDesc ((λ c, valueInt (value c)) <$> fc)) in *.
  assert (Hmem : ∀ k, k ∈ [0; 1; 2; 3; 4] → aceLow (h' - k) ∈ values).
  { intros k Hk. unfold values. rewrite elem_of_sortDesc.
    by apply hasRank_values, straightAt_ranks. }
  assert (Hrange : ∀ x, x ∈ values → 2 ≤ x ≤ 14).
  { intros x Hx. unfold values in Hx. rewrite elem_of_sortDesc in Hx.
    apply list_elem_of_fmap in Hx as (c & -> & _). apply valueInt_range. }
  destruct (Nat.ltb_spec (length values) 5); [lia|].
  destruct (HandEvaluator.scanFlushValues values _ _) as [b sfh] eqn:Hscan.
  destruct (decide (h' = 5)) as [->|Hne].
  - assert (HandEvaluator.contains values 14 && HandEvaluator.contains values 2 &&
            HandEvaluator.contains values 3 && HandEvaluator.contains values 4 &&
            HandEvaluator.contains values 5 = true) as Hwheel.
    { rewrite !andb_true_iff, !contains_true.
      split_and!.
      - apply (Hmem 4). apply (bool_decide_unpack _). by vm_compute.
      - apply (Hmem 3). apply (bool_decide_unpack _). by vm_compute.
      - apply (Hmem 2). apply (bool_decide_unpack _). by vm_compute.
      - apply (Hmem 1). apply (bool_decide_unpack _). by vm_compute.
      - apply (Hmem 0). apply (bool_decide_unpack _). by vm_compute. }
    rewrite Hwheel in Hscan.
    apply scanFlushValues_inv in Hscan as [[= <- <-]|(i & Hi & -> & -> & Heq)].
    + by exists 5.
    + eexists. split; [done|]. rewrite Heq.
      apply elem_of_seq in Hi.
      destruct (lookup_lt_is_Some_2 values (i + 4)) as [y Hy]; [lia|].
      unfold HandEvaluator.idx. rewrite Hy. simpl.
      apply list_elem_of_lookup_2, Hrange in Hy. lia.
  - destruct (descending_run_position values h' (sortDesc_sorted _) Hvnd)
      as (i & Hi & Hi4).
    { intros k Hk. replace (h' - k) with (aceLow (h' - k)).
      - apply Hmem.
        assert (k = 0 ∨ k = 1 ∨ k = 2 ∨ k = 3 ∨ k = 4) as Hcases by lia.
        destruct_or!; subst k; apply (bool_decide_unpack _); by vm_compute.
      - unfold aceLow. destruct (Z.eqb_spec (h' - k) 1); [lia|done]. }
    pose proof (lookup_lt_Some _ _ _ Hi4) as Hi4len.
    destruct (scanFlushValues_finds values (length values - 5 + 1) 0
      (if HandEvaluator.contains values 14 && HandEvaluator.contains values 2 &&
          HandEvaluator.contains values 3 && HandEvaluator.contains values 4 &&
          HandEvaluator.contains values 5
       then (true, 5) else (false, 0)) i) as (i0 & Hi0 & Hfound).
    { lia. }
    { unfold HandEvaluator.idx. rewrite Hi, Hi4. simpl. lia. }
    rewrite Hfound in Hscan. injection Hscan as <- <-.
    eexists. split; [done|].
    destruct (decide (i0 = i)) as [->|Hne0].
    + unfold HandEvaluator.idx. rewrite Hi. simpl. lia.
    + destruct (lookup_lt_is_Some_2 values i0) as [y Hy]; [lia|].
      unfold HandEvaluator.idx. rewrite Hy. simpl.
      pose proof (StronglySorted_lookup_ge values i0 i y h'
                    (sortDesc_sorted _) Hy Hi ltac:(lia)). lia.
Qed.

Lemma resolve_without_straight_flush vc hasFlush flushCards hasStraight h sfh :
  let ev := HandEvaluator.resolve vc hasFlush flushCards hasStraight h false sfh in
  rank ev ≠ ROYAL_FLUSH ∧ rank ev ≠ STRAIGHT_FLUSH.
Proof.
  unfold HandEvaluator.resolve. simpl.
  repeat (match goal with
          | |- context [if ?b then _ else _] => destruct b
          end; simpl); done.
Qed.

Lemma resolve_with_straight_flush vc hasFlush flushCards hasStraight h sfh :
  let ev := HandEvaluator.resolve vc hasFlush flushCards hasStraight h true sfh in
  tiebreakers ev = [sfh] ∧
  (rank ev = ROYAL_FLUSH ↔ sfh = 14) ∧
  (rank ev = STRAIGHT_FLUSH ↔ sfh ≠ 14).
Proof.
  unfold HandEvaluator.resolve. simpl.
  destruct (Z.eqb_spec sfh 14) as [->|Hne]; simpl; split_and!; try done;
    split; done.
Qed.

(** The straight-flush flag of [evaluateComplete] on seven distinct
    cards, and the high card it carries. *)
Lemma straight_flush_flag cards ev :
  NoDup cards → length cards = 7%nat →
  HandEvaluator.evaluateComplete cards = Ok ev →
  ∃ hasFlush flushSuit hasStraight h sf sfh,
    HandEvaluator.findFlush (HandEvaluator.suitCounts cards) allSuits
      = (hasFlush, flushSuit) ∧
    HandEvaluator.findStraight (HandEvaluator.valueCounts cards)
      = (hasStraight, h) ∧
    ev = HandEvaluator.resolve (HandEvaluator.valueCounts cards) hasFlush
           (HandEvaluator.flushCardsOf hasFlush flushSuit cards)
           hasStraight h sf sfh ∧
    (sf = true ↔ hasStraightFlush cards) ∧
    (sf = true →
     5 ≤ sfh ≤ 14 ∧ (∃ s, straightFlushAt cards s sfh = true) ∧
     ∀ s' h', 5 ≤ h' ≤ 14 → straightFlushAt cards s' h' = true → h' ≤ sfh).
Proof.
  intros Hnd Hlen
    (hf & s & hs & h & sf & sfh & Hflush & Hstraight & Hsf & ->)%evaluateComplete_inv.
  exists hf, s, hs, h, sf, sfh.
  do 3 (split; [done|]).
  pose proof (findFlush_spec cards) as Hspec. rewrite Hflush in Hspec.
  assert (Hfound : ∀ s' h', 5 ≤ h' ≤ 14 → straightFlushAt cards s' h' = true →
            hf = true ∧ s' = s ∧ sf = true ∧ h' ≤ sfh).
  { intros s' h' Hh' Hat.
    pose proof (straightAt_length _ h' Hh' Hat) as Hc. fold (countSuit cards s') in Hc.
    destruct hf; [|destruct Hspec as [_ Hspec]; specialize (Hspec s'); lia].
    assert (s' = s) as ->.
    { destruct (decide (s' = s)) as [|Hne]; [done|].
      pose proof (countSuit_two cards s' s Hne). lia. }
    destruct (findStraightFlush_complete cards s hs h h' Hnd Hh' Hat)
      as (sfh' & Hsf' & ?).
    rewrite Hsf in Hsf'. by simplify_eq. }
  split.
  - split.
    + intros ->. destruct hf; [|done].
      apply findStraightFlush_sound in Hsf as [? ?]; [|done]. by exists s, sfh.
    + intros (s' & h' & Hh' & Hat). by destruct (Hfound s' h' Hh' Hat) as (_ & _ & ? & _).
  - intros ->. destruct hf; [|done].
    pose proof Hsf as Hsound.
    apply findStraightFlush_sound in Hsound as [? ?]; [|done].
    split_and!; [lia|lia|by exists s|].
    intros s' h' Hh' Hat. by destruct (Hfound s' h' Hh' Hat) as (_ & _ & _ & ?).
Qed.

(** X18.  On seven distinct cards the evaluator reports a straight flush
    exactly when five consecutive ranks of one suit are present, the
    Ace counting low in A-2-3-4-5: the category is ROYAL_FLUSH when the
    ranks 10 to Ace of one suit are present, and STRAIGHT_FLUSH when
    there is a straight flush but no such one.  The tiebreaker is then
    the high card of the highest straight flush among the cards. *)
Theorem straight_flush_detection (cards : list Card) (ev : HandEvaluation) :
  NoDup cards → length cards = 7%nat →
  HandEvaluator.evaluateComplete cards = Ok ev →
  (rank ev = ROYAL_FLUSH ↔ ∃ s, straightFlushAt cards s 14 = true) ∧
  (rank ev = STRAIGHT_FLUSH
   ↔ hasStraightFlush cards ∧ ∀ s, straightFlushAt cards s 14 = false) ∧
  (hasStraightFlush cards →
   ∃ s h, tiebreakers ev = [h] ∧ 5 ≤ h ≤ 14 ∧
          straightFlushAt cards s h = true ∧
          ∀ s' h', h < h' ≤ 14 → straightFlushAt cards s' h' = false).
Proof.
  intros Hnd Hlen Hev.
  destruct (straight_flush_flag cards ev Hnd Hlen Hev)
    as (hf & s0 & hs & h & sf & sfh & _ & _ & -> & Hiff & Hbest).
  set (fc := HandEvaluator.flushCardsOf hf s0 cards).
  destruct sf.
  - destruct (Hbest eq_refl) as (Hrange & [s Hat] & Hmax).
    destruct (resolve_with_straight_flush
                (HandEvaluator.valueCounts cards) hf fc hs h sfh)
      as (Htb & Hroyal & Hplain).
    split_and!.
    + rewrite Hroyal. split; [intros ->; by exists s|].
      intros [s' Hs']. specialize (Hmax s' 14 ltac:(lia) Hs'). lia.
    + rewrite Hplain. split.
      * intros Hne. split; [by apply Hiff|].
        intros s'. apply not_true_is_false. intros Hs'.
        specialize (Hmax s' 14 ltac:(lia) Hs'). lia.
      * intros [_ Hno] ->. by rewrite Hno in Hat.
    + intros _. exists s, sfh. split_and!; [done|lia|lia|done|].
      intros s' h' Hh'. apply not_true_is_false. intros Hs'.
      specialize (Hmax s' h' ltac:(lia) Hs'). lia.
  - assert (Hno : ¬ hasStraightFlush cards) by (by intros ?%Hiff).
    destruct (resolve_without_straight_flush
                (HandEvaluator.valueCounts cards) hf fc hs h sfh) as [Hr1 Hr2].
    split_and!.
    + split; [done|]. intros [s Hs]. destruct Hno. exists s, 14. split; [lia|done].
    + split; [done|]. by intros [? _].
    + done.
Qed.

Lemma straight_flush_detection_witness :
  let cards := [mkCard HEARTS ACE; mkCard HEARTS TWO; mkCard HEARTS THREE;
                mkCard HEARTS FOUR; mkCard HEARTS FIVE; mkCard HEARTS SIX;
                mkCard SPADES KING] in
  let ev := mkEval STRAIGHT_FLUSH [6] in
  (rank ev = ROYAL_FLUSH ↔ ∃ s, straightFlushAt cards s 14 = true) ∧
  (rank ev = STRAIGHT_FLUSH
   ↔ hasStraightFlush cards ∧ ∀ s, straightFlushAt cards s 14 = false) ∧
  (hasStraightFlush cards →
   ∃ s h, tiebreakers ev = [h] ∧ 5 ≤ h ≤ 14 ∧
          straightFlushAt cards s h = true ∧
          ∀ s' h', h < h' ≤ 14 → straightFlushAt cards s' h' = false).
Proof.
  apply (straight_flush_detection
           [mkCard HEARTS ACE; mkCard HEARTS TWO; mkCard HEARTS THREE;
            mkCard HEARTS FOUR; mkCard HEARTS FIVE; mkCard HEARTS SIX;
            mkCard SPADES KING] (mkEval STRAIGHT_FLUSH [6])).
  - apply (bool_decide_unpack _). by vm_compute.
  - reflexivity.
  - by vm_compute.
Defined.

(** ** The category *)

Lemma filter_ext_Forall {A} (P Q : A → Prop)
    `{!∀ x, Decision (P x)} `{!∀ x, Decision (Q x)} (l : list A) :
  Forall (λ x, P x ↔ Q x) l → filter P l = filter Q l.
Proof.
  induction 1 as [|x l Hx _ IH]; [done|].
  rewrite !filter_cons, IH.
  destruct (decide (P x)), (decide (Q x)); tauto.
Qed.

Lemma length_group cards (n : nat) :
  length (HandEvaluator.sortDesc
            (HandEvaluator.ranksWithCount (HandEvaluator.valueCounts cards)
               (Z.of_nat n) HandEvaluator.ranksAsc))
  = ranksHeld cards n.
Proof.
  rewrite length_sortDesc. unfold HandEvaluator.ranksWithCount, ranksHeld.
  f_equal. apply filter_ext_Forall.
  eapply Forall_impl; [apply ranksAsc_nonneg|].
  intros r Hr. simpl. rewrite valueCounts_at by done. lia.
Qed.

Lemma nonEmpty_length {A} (l : list A) :
  HandEvaluator.nonEmpty l = (0 <? length l)%nat.
Proof. by destruct l. Qed.

Lemma hasFlush_spec cards hasFlush s :
  HandEvaluator.findFlush (HandEvaluator.suitCounts cards) allSuits
    = (hasFlush, s) →
  hasFlush = existsb (λ s, (5 <=? countSuit cards s)%nat) allSuits.
Proof.
  intros Hf. pose proof (findFlush_spec cards) as Hspec. rewrite Hf in Hspec.
  symmetry. destruct hasFlush.
  - apply existsb_exists. exists s. split; [|by apply Nat.leb_le].
    apply list_elem_of_In. destruct s; apply (bool_decide_unpack _); by vm_compute.
  - destruct Hspec as [_ Hspec]. apply not_true_is_false.
    intros (s' & _ & Hs'%Nat.leb_le)%existsb_exists. specialize (Hspec s'). lia.
Qed.

Lemma straightHighs_spec h : h ∈ straightHighs ↔ 5 ≤ h ≤ 14.
Proof.
  unfold straightHighs. split.
  - intros Hh. repeat (apply elem_of_cons in Hh as [->|Hh]; [lia|]).
    by apply elem_of_nil in Hh.
  - intros Hh.
    assert (h = 5 ∨ h = 6 ∨ h = 7 ∨ h = 8 ∨ h = 9 ∨ h = 10 ∨ h = 11 ∨
            h = 12 ∨ h = 13 ∨ h = 14) as Hcases by lia.
    destruct_or!; subst h; apply (bool_decide_unpack _); by vm_compute.
Qed.

Lemma hasStraight_spec cards hasStraight h :
  HandEvaluator.findStraight (HandEvaluator.valueCounts cards)
    = (hasStraight, h) →
  hasStraight = existsb (straightAt cards) straightHighs.
Proof.
  intros Hf. pose proof (findStraight_spec cards) as Hspec. rewrite Hf in Hspec.
  symmetry. destruct hasStraight.
  - destruct Hspec as (Hh & Hat & _). apply existsb_exists. exists h.
    split; [|done]. by apply list_elem_of_In, straightHighs_spec.
  - destruct Hspec as [_ Hspec]. apply not_true_is_false.
    intros (h' & Hh'%list_elem_of_In%straightHighs_spec & Hat)%existsb_exists.
    by rewrite Hspec in Hat.
Qed.

(** X19.  On seven distinct cards [evaluateComplete] returns, and the
    category it reports is the category of the hand by the rules of
    poker: the best of royal flush, straight flush, four of a kind,
    full house, flush, straight, three of a kind, two pair, pair and
    high card whose pattern the cards contain. *)
Theorem category_by_the_rules (cards : list Card) :
  NoDup cards → length cards = 7%nat →
  ∃ ev, HandEvaluator.evaluateComplete cards = Ok ev ∧
        rank ev = category cards.
Proof.
  intros Hnd Hlen. destruct (evaluateComplete_defined cards Hnd) as [ev Hev].
  exists ev. split; [done|].
  destruct (straight_flush_flag cards ev Hnd Hlen Hev)
    as (hf & s0 & hs & h & sf & sfh & Hflush & Hstraight & -> & Hiff & Hbest).
  assert (Hroyal : sf && (sfh =? 14)
                   = existsb (λ s, straightFlushAt cards s 14) allSuits).
  { apply eq_true_iff_eq. rewrite andb_true_iff, existsb_exists, Z.eqb_eq. split.
    - intros [Hsf ->]. destruct (Hbest Hsf) as (_ & [s Hs] & _).
      exists s. split; [|done].
      apply list_elem_of_In. destruct s; apply (bool_decide_unpack _); by vm_compute.
    - intros (s & _ & Hs).
      assert (sf = true) as Hsf.
      { apply Hiff. exists s, 14. split; [lia|done]. }
      split; [done|]. destruct (Hbest Hsf) as (? & _ & Hmax).
      specialize (Hmax s 14 ltac:(lia) Hs). lia. }
  assert (Hsf : sf = hasStraightFlushb cards).
  { apply eq_true_iff_eq. by rewrite Hiff, hasStraightFlushb_spec. }
  apply hasFlush_spec in Hflush. apply hasStraight_spec in Hstraight.
  unfold HandEvaluator.resolve, category. cbv zeta.
  rewrite Hroyal, Hsf, Hflush, Hstraight, !nonEmpty_length.
  unfold HandEvaluator.quadsOf, HandEvaluator.tripsOf, HandEvaluator.pairsOf.
  pose proof (length_group cards 4) as H4. change (Z.of_nat 4) with 4 in H4.
  pose proof (length_group cards 3) as H3. change (Z.of_nat 3) with 3 in H3.
  pose proof (length_group cards 2) as H2. change (Z.of_nat 2) with 2 in H2.
  rewrite H4, H3, H2.
  repeat (match goal with
          | |- context [if ?b then _ else _] => destruct b
          end; cbn [rank]); reflexivity.
Qed.

Lemma category_by_the_rules_witness :
  ∃ ev, HandEvaluator.evaluateComplete wheelHand = Ok ev ∧
        rank ev = category wheelHand.
Proof.
  apply (category_by_the_rules wheelHand).
  - apply (bool_decide_unpack _). by vm_compute.
  - reflexivity.
Defined.

(** ** The tiebreakers of flush, quads, trips, pair and high card *)

#[local] Instance Zge_antisymm : AntiSymm (=) Z.ge.
Proof. intros x y ??. lia. Qed.

Lemma StronglySorted_filter_ge (P : Z → Prop) `{!∀ x, Decision (P x)} l :
  StronglySorted Z.ge l → StronglySorted Z.ge (filter P l).
Proof.
  induction 1 as [|a l Hs IH Hall]; [constructor|].
  rewrite filter_cons. case_decide; [|done].
  constructor; [done|]. rewrite Forall_forall in Hall.
  apply Forall_forall. intros y [_ Hy]%list_elem_of_filter. by apply Hall.
Qed.

(** The values of cards sorted by value are the sorted values. *)
Lemma values_sortCards l :
  (λ c, valueInt (value c)) <$> HandEvaluator.sortCardsByValueDesc l
  = ranksOf l.
Proof.
  apply (StronglySorted_unique Z.ge).
  - eapply StronglySorted_fmap; [|apply sortCards_sorted]. by intros x y ?.
  - apply sortDesc_sorted.
  - unfold ranksOf. by rewrite sortDesc_perm, sortCards_perm.
Qed.

Lemma elem_of_ranksDesc r :
  r ∈ HandEvaluator.ranksDesc ↔ r ∈ HandEvaluator.ranksAsc.
Proof. by rewrite ranksDesc_reverse, elem_of_reverse. Qed.

Lemma ranksDesc_nonneg : Forall (λ r, 0 ≤ r) HandEvaluator.ranksDesc.
Proof.
  apply Forall_forall. intros r Hr%elem_of_ranksDesc.
  by eapply Forall_forall in Hr; [|apply ranksAsc_nonneg].
Qed.

Lemma ranksDesc_reverse_pos : Forall (λ r, 0 < r) HandEvaluator.ranksDesc.
Proof. unfold HandEvaluator.ranksDesc. repeat constructor; lia. Qed.

Lemma elem_of_countRank c cards :
  c ∈ cards → (0 < countRank cards (valueInt (value c)))%nat.
Proof.
  intros Hc. apply hasRank_countRank, hasRank_elem_of. by exists c.
Qed.

Lemma countRank_tail c cards r :
  (countRank cards r ≤ countRank (c :: cards) r)%nat.
Proof. rewrite countRank_cons. lia. Qed.

Lemma single_values_NoDup (P : Z → Prop) `{!∀ x, Decision (P x)} cards :
  (∀ r, P r → (countRank cards r ≤ 1)%nat) →
  NoDup ((λ c, valueInt (value c)) <$>
         filter (λ c, P (valueInt (value c))) cards).
Proof.
  induction cards as [|c cards IH]; intros Hone; [constructor|].
  assert (NoDup ((λ c, valueInt (value c)) <$>
                 filter (λ c, P (valueInt (value c))) cards)) as Hnd.
  { apply IH. intros r Hr. specialize (Hone r Hr).
    pose proof (countRank_tail c cards r). lia. }
  rewrite filter_cons. case_decide as HP; [|done].
  rewrite fmap_cons. apply NoDup_cons. split; [|done].
  intros (c' & Heq & [_ Hc']%list_elem_of_filter)%list_elem_of_fmap.
  apply elem_of_countRank in Hc'. rewrite <- Heq in Hc'.
  specialize (Hone _ HP). rewrite countRank_cons in Hone.
  rewrite decide_True in Hone by done. lia.
Qed.

(** Ranks held once each, among those satisfying [P]: sorting the cards'
    ranks gives the walk down the thirteen ranks. *)
Lemma single_ranks_sorted (P : Z → Prop) `{!∀ x, Decision (P x)} cards :
  (∀ r, P r → (countRank cards r ≤ 1)%nat) →
  ranksOf (filter (λ c, P (valueInt (value c))) cards)
  = filter (λ r, P r ∧ (0 < countRank cards r)%nat) HandEvaluator.ranksDesc.
Proof.
  intros Hone. apply (StronglySorted_unique Z.ge).
  - apply sortDesc_sorted.
  - apply StronglySorted_filter_ge, ranksDesc_sorted.
  - apply NoDup_Permutation.
    + unfold ranksOf. rewrite sortDesc_perm. by apply single_values_NoDup.
    + apply NoDup_filter. rewrite ranksDesc_reverse, reverse_Permutation.
      apply ranksAsc_NoDup.
    + intros r. unfold ranksOf.
      rewrite elem_of_sortDesc, list_elem_of_fmap, list_elem_of_filter,
        elem_of_ranksDesc.
      split.
      * intros (c & -> & [HP Hc]%list_elem_of_filter).
        split_and!; [done|by apply elem_of_countRank|apply valueInt_in_ranksAsc].
      * intros [[HP Hpos] _].
        apply hasRank_countRank, hasRank_elem_of in Hpos as (c & Hc & <-).
        exists c. split; [done|]. by apply list_elem_of_filter.
Qed.

Lemma sorted_take_1 (l1 l2 : list Z) :
  StronglySorted Z.ge l1 → StronglySorted Z.ge l2 →
  (∀ x, x ∈ l1 ↔ x ∈ l2) → take 1 l1 = take 1 l2.
Proof.
  intros Hs1 Hs2 Hiff. destruct l1 as [|x l1], l2 as [|y l2]; simpl.
  - done.
  - exfalso. eapply elem_of_nil, Hiff. left.
  - exfalso. eapply elem_of_nil, Hiff. left.
  - apply StronglySorted_inv in Hs1 as [_ H1], Hs2 as [_ H2].
    rewrite Forall_forall in H1, H2.
    assert (x >= y).
    { assert (y ∈ x :: l1) as [->|?]%elem_of_cons by (apply Hiff; left);
        [lia|by apply H1]. }
    assert (y >= x).
    { assert (x ∈ y :: l2) as [->|?]%elem_of_cons by (apply Hiff; left);
        [lia|by apply H2]. }
    f_equal. lia.
Qed.

Lemma resolve_FLUSH vc hasFlush flushCards hasStraight h hasSF sfh :
  let ev := HandEvaluator.resolve vc hasFlush flushCards hasStraight h hasSF sfh in
  rank ev = FLUSH →
  hasFlush = true ∧
  tiebreakers ev = (λ c, valueInt (value c)) <$> take 5 flushCards.
Proof.
  unfold HandEvaluator.resolve.
  destruct (hasSF && (sfh =? 14)); [done|]. destruct hasSF; [done|].
  destruct (HandEvaluator.nonEmpty (HandEvaluator.quadsOf vc)); [done|].
  destruct (_ && _); [done|]. destruct hasFlush; [done|].
  destruct hasStraight; [done|].
  destruct (HandEvaluator.nonEmpty (HandEvaluator.tripsOf vc)); [done|].
  destruct (2 <=? _)%nat; [done|]. by destruct (_ =? 1)%nat.
Qed.

Lemma resolve_FOUR_OF_A_KIND vc hasFlush flushCards hasStraight h hasSF sfh :
  let ev := HandEvaluator.resolve vc hasFlush flushCards hasStraight h hasSF sfh in
  rank ev = FOUR_OF_A_KIND →
  ∃ q rest, HandEvaluator.quadsOf vc = q :: rest ∧
    tiebreakers ev
    = q :: take 1 (filter (λ i, HandEvaluator.at_ vc i > 0 ∧ i ≠ q)
                          HandEvaluator.ranksDesc).
Proof.
  unfold HandEvaluator.resolve.
  destruct (hasSF && (sfh =? 14)); [done|]. destruct hasSF; [done|].
  destruct (HandEvaluator.quadsOf vc) as [|q rest]; simpl.
  - repeat (match goal with
            | |- context [if ?b then _ else _] => destruct b
            end; try done).
  - intros _. by exists q, rest.
Qed.

Lemma resolve_singles vc hasFlush flushCards hasStraight h hasSF sfh :
  let ev := HandEvaluator.resolve vc hasFlush flushCards hasStraight h hasSF sfh in
  (rank ev = THREE_OF_A_KIND →
   HandEvaluator.quadsOf vc = [] ∧ HandEvaluator.pairsOf vc = [] ∧
   ∃ t, HandEvaluator.tripsOf vc = [t] ∧
        tiebreakers ev = t :: take 2 (HandEvaluator.highCardsOf vc)) ∧
  (rank ev = PAIR →
   HandEvaluator.quadsOf vc = [] ∧ HandEvaluator.tripsOf vc = [] ∧
   ∃ p, HandEvaluator.pairsOf vc = [p] ∧
        tiebreakers ev = p :: take 3 (HandEvaluator.highCardsOf vc)) ∧
  (rank ev = HIGH_CARD →
   HandEvaluator.quadsOf vc = [] ∧ HandEvaluator.tripsOf vc = [] ∧
   HandEvaluator.pairsOf vc = [] ∧
   tiebreakers ev
   = take 5 (filter (λ i, HandEvaluator.at_ vc i > 0) HandEvaluator.ranksDesc)).
Proof.
  unfold HandEvaluator.resolve.
  destruct (hasSF && (sfh =? 14)); [done|]. destruct hasSF; [done|].
  destruct (HandEvaluator.quadsOf vc); [|done].
  destruct (HandEvaluator.tripsOf vc) as [|t0 [|t1 trips]],
    (HandEvaluator.pairsOf vc) as [|p0 [|p1 pairs]]; simpl;
    destruct hasFlush; try done; destruct hasStraight; try done.
  - split_and!; try done. intros _. split_and!; try done. by exists p0.
  - split_and!; try done. intros _. split_and!; try done. by exists t0.
Qed.

(** X20.  A hand reported as FLUSH has a suit with at least five cards,
    and its tiebreakers are the five highest ranks of the cards of that
    suit, from the highest down. *)
Theorem flush_tiebreakers (cards : list Card) (ev : HandEvaluation) :
  HandEvaluator.evaluateComplete cards = Ok ev → rank ev = FLUSH →
  ∃ s, (5 ≤ countSuit cards s)%nat ∧
       tiebreakers ev = take 5 (ranksOf (filter (λ c, suit c = s) cards)).
Proof.
  intros (hf & s & hs & h & sf & sfh & Hflush & _ & _ & ->)%evaluateComplete_inv
    Hrank.
  apply resolve_FLUSH in Hrank as [-> ->].
  pose proof (findFlush_spec cards) as Hspec. rewrite Hflush in Hspec.
  exists s. split; [done|].
  by rewrite fmap_take, <- values_sortCards.
Qed.

Lemma flush_tiebreakers_witness :
  let cards := [mkCard HEARTS ACE; mkCard HEARTS TWO; mkCard HEARTS NINE;
                mkCard HEARTS FOUR; mkCard HEARTS JACK; mkCard HEARTS SIX;
                mkCard SPADES KING] in
  ∃ s, (5 ≤ countSuit cards s)%nat ∧
       tiebreakers (mkEval FLUSH [14; 11; 9; 6; 4])
       = take 5 (ranksOf (filter (λ c, suit c = s) cards)).
Proof.
  apply (flush_tiebreakers
           [mkCard HEARTS ACE; mkCard HEARTS TWO; mkCard HEARTS NINE;
            mkCard HEARTS FOUR; mkCard HEARTS JACK; mkCard HEARTS SIX;
            mkCard SPADES KING] (mkEval FLUSH [14; 11; 9; 6; 4])).
  - by vm_compute.
  - reflexivity.
Defined.

Lemma count_classes cards r :
  NoDup cards →
  let vc := HandEvaluator.valueCounts cards in
  HandEvaluator.quadsOf vc = [] →
  (∀ x, x ∈ HandEvaluator.tripsOf vc → x = r) →
  (∀ x, x ∈ HandEvaluator.pairsOf vc → x = r) →
  ∀ x, x ≠ r → (countRank cards x ≤ 1)%nat.
Proof.
  intros Hnd vc Hq Ht Hp x Hx.
  pose proof (countRank_le_4 cards x Hnd).
  destruct (decide (countRank cards x = 4%nat)) as [H4|].
  { apply elem_of_quadsOf in H4. fold vc in H4. rewrite Hq in H4.
    by apply elem_of_nil in H4. }
  destruct (decide (countRank cards x = 3%nat)) as [H3|].
  { apply elem_of_tripsOf, Ht in H3. done. }
  destruct (decide (countRank cards x = 2%nat)) as [H2|].
  { apply elem_of_pairsOf, Hp in H2. done. }
  lia.
Qed.

Lemma highCards_other_ranks cards r :
  (∀ x, x ≠ r → (countRank cards x ≤ 1)%nat) →
  countRank cards r ≠ 1%nat →
  HandEvaluator.highCardsOf (HandEvaluator.valueCounts cards)
  = otherRanks cards r.
Proof.
  intros Hone Hr. unfold otherRanks.
  pose proof (single_ranks_sorted (λ x, x ≠ r) cards Hone) as Heq.
  cbv beta in Heq. rewrite Heq. clear Heq.
  unfold HandEvaluator.highCardsOf, HandEvaluator.ranksWithCount.
  apply filter_ext_Forall.
  eapply Forall_impl; [apply ranksDesc_nonneg|].
  intros x Hx. simpl. rewrite valueCounts_at by done.
  destruct (decide (x = r)) as [->|Hne]; [lia|].
  specialize (Hone x Hne). lia.
Qed.

(** X21.  The tiebreakers of distinct cards reported as four of a kind,
    three of a kind, pair or high card: the rank held four, three or
    two times comes first, followed by the highest ranks of the other
    cards from the highest down, one for four of a kind, two for three
    of a kind, three for a pair; for a high card they are the five
    highest ranks of the cards. *)
Theorem kickers_are_highest_other_cards (cards : list Card)
    (ev : HandEvaluation) :
  NoDup cards → HandEvaluator.evaluateComplete cards = Ok ev →
  (rank ev = FOUR_OF_A_KIND →
   ∃ q, countRank cards q = 4%nat ∧
        tiebreakers ev = q :: take 1 (otherRanks cards q)) ∧
  (rank ev = THREE_OF_A_KIND →
   ∃ t, countRank cards t = 3%nat ∧
        tiebreakers ev = t :: take 2 (otherRanks cards t)) ∧
  (rank ev = PAIR →
   ∃ p, countRank cards p = 2%nat ∧
        tiebreakers ev = p :: take 3 (otherRanks cards p)) ∧
  (rank ev = HIGH_CARD → tiebreakers ev = take 5 (ranksOf cards)).
Proof.
  intros Hnd (hf & s & hs & h & sf & sfh & _ & _ & _ & ->)%evaluateComplete_inv.
  set (vc := HandEvaluator.valueCounts cards).
  destruct (resolve_singles vc hf (HandEvaluator.flushCardsOf hf s cards)
              hs h sf sfh) as (Hthree & Hpair & Hhigh).
  split_and!.
  - intros (q & rest & Hq & ->)%resolve_FOUR_OF_A_KIND. fold vc in Hq.
    exists q. split.
    { apply elem_of_quadsOf. fold vc. rewrite Hq. left. }
    f_equal. apply sorted_take_1.
    + apply StronglySorted_filter_ge, ranksDesc_sorted.
    + apply sortDesc_sorted.
    + intros x. unfold otherRanks, ranksOf.
      rewrite elem_of_sortDesc, list_elem_of_fmap, list_elem_of_filter,
        elem_of_ranksDesc.
      split.
      * intros [[Hpos Hne] Hx]. unfold vc in Hpos.
        rewrite valueCounts_at in Hpos
          by (by eapply Forall_forall in Hx; [|apply ranksAsc_nonneg]).
        assert (0 < countRank cards x)%nat as Hc by lia.
        apply hasRank_countRank, hasRank_elem_of in Hc as (c & Hc & <-).
        exists c. split; [done|]. by apply list_elem_of_filter.
      * intros (c & -> & [Hne Hc]%list_elem_of_filter).
        pose proof (valueInt_range (value c)).
        split_and!; [|done|apply valueInt_in_ranksAsc].
        unfold vc. rewrite valueCounts_at by lia.
        apply elem_of_countRank in Hc. lia.
  - intros (Hq & Hp & t & Ht & ->)%Hthree. exists t.
    assert (countRank cards t = 3%nat) as Hcount.
    { apply elem_of_tripsOf. fold vc. rewrite Ht. left. }
    split; [done|]. do 2 f_equal. apply highCards_other_ranks; [|lia].
    apply (count_classes cards t Hnd); fold vc; [done| |].
    + rewrite Ht. by intros x ->%list_elem_of_singleton.
    + rewrite Hp. by intros x ?%elem_of_nil.
  - intros (Hq & Ht & p & Hp & ->)%Hpair. exists p.
    assert (countRank cards p = 2%nat) as Hcount.
    { apply elem_of_pairsOf. fold vc. rewrite Hp. left. }
    split; [done|]. do 2 f_equal. apply highCards_other_ranks; [|lia].
    apply (count_classes cards p Hnd); fold vc; [done| |].
    + rewrite Ht. by intros x ?%elem_of_nil.
    + rewrite Hp. by intros x ->%list_elem_of_singleton.
  - intros (Hq & Ht & Hp & ->)%Hhigh. f_equal.
    assert (Hone : ∀ x, x ≠ 0 → (countRank cards x ≤ 1)%nat).
    { apply (count_classes cards 0 Hnd); fold vc; [done| |].
      - rewrite Ht. by intros x ?%elem_of_nil.
      - rewrite Hp. by intros x ?%elem_of_nil. }
    assert (filter (λ c, valueInt (value c) ≠ 0) cards = cards) as Hall.
    { clear. induction cards as [|c cards IH]; [done|].
      rewrite filter_cons, IH. pose proof (valueInt_range (value c)).
      by rewrite decide_True by lia. }
    transitivity (ranksOf (filter (λ c, valueInt (value c) ≠ 0) cards));
      [|by rewrite Hall].
    pose proof (single_ranks_sorted (λ x, x ≠ 0) cards Hone) as Heq.
    cbv beta in Heq. rewrite Heq. clear Heq.
    apply filter_ext_Forall.
    eapply Forall_impl; [apply ranksDesc_reverse_pos|].
    intros x Hx. simpl in *. unfold vc. rewrite valueCounts_at by lia. lia.
Qed.

Lemma kickers_are_highest_other_cards_witness :
  let cards := [mkCard SPADES ACE; mkCard HEARTS ACE; mkCard DIAMONDS KING;
                mkCard CLUBS NINE; mkCard SPADES SEVEN; mkCard HEARTS FOUR;
                mkCard DIAMONDS TWO] in
  let ev := mkEval PAIR [14; 13; 9; 7] in
  (rank ev = FOUR_OF_A_KIND →
   ∃ q, countRank cards q = 4%nat ∧
        tiebreakers ev = q :: take 1 (otherRanks cards q)) ∧
  (rank ev = THREE_OF_A_KIND →
   ∃ t, countRank cards t = 3%nat ∧
        tiebreakers ev = t :: take 2 (otherRanks cards t)) ∧
  (rank ev = PAIR →
   ∃ p, countRank cards p = 2%nat ∧
        tiebreakers ev = p :: take 3 (otherRanks cards p)) ∧
  (rank ev = HIGH_CARD → tiebreakers ev = take 5 (ranksOf cards)).
Proof.
  apply (kickers_are_highest_other_cards
           [mkCard SPADES ACE; mkCard HEARTS ACE; mkCard DIAMONDS KING;
            mkCard CLUBS NINE; mkCard SPADES SEVEN; mkCard HEARTS FOUR;
            mkCard DIAMONDS TWO] (mkEval PAIR [14; 13; 9; 7])).
  - apply (bool_decide_unpack _). by vm_compute.
  - by vm_compute.
Defined.
